(** * Claude Code Plugin Dashboard: aggregation, query layer and interaction model

    A shallow embedding of
      - [services/fileService.ts]      (readJsonFile, writeJsonFile, directory queries),
      - [utils/paths.ts]               (PATHS, getMarketplaceJsonPath),
      - [services/settingsService.ts]  (readSettings ... togglePlugin),
      - [services/pluginService.ts]    (loadAllPlugins, loadMarketplaces, getPluginById,
                                        searchPlugins, sortPlugins),
      - [services/pluginActionsService.ts] (executePluginAction),
      - [components/TabBar.tsx], [components/SortDropdown.tsx], [components/PluginList.tsx]
                                       (getNextTab, getNextSort, the list window, truncate),
      - [app.tsx]                      (initialState, appReducer, getItemsForTab, the useInput handler,
                                        handleInstall / handleUninstall),
      - [cli.tsx]                      (handleEnable, handleDisable, handleToggle),
    followed by the properties of the specification, each proved or refuted on that embedding.

    Conventions.  A JavaScript [number] that the program only uses as an integer is a [Z]; a
    number that can be [NaN] is an [option Z], [None] for [NaN]; a number read from JSON text
    is the double nearest to the integer written ([Number_of_integer]).  A string is a
    [string], one [ascii] standing for one code unit; an optional field [f?: T] is an
    [option T]; an object used as a dictionary ([Record<string, T>], [Map<string, T>]) is a
    [gmap string T]; an array is a [list].  A thrown [Error] is the [Err] case of [result].
    What the language leaves to the engine ([toLowerCase], [localeCompare], the parsing of
    dates, the order [sort] leaves under an inconsistent comparator) is a field of
    [JsRuntime]; what ink and Node do around the component (Ctrl+C, an unhandled rejection)
    is part of [step]. *)

From Stdlib Require Import ZArith String Ascii List Permutation Sorted Lia.
From stdpp Require Import base option list gmap strings fin_maps pretty.

Open Scope string_scope.
Open Scope list_scope.
Open Scope Z_scope.

(* ===================================================================== *)
(** * Paths and exceptions *)
(* ===================================================================== *)

(** utils/paths.ts: the documents the dashboard touches.  The concrete strings are
    [path.join (os.homedir ()) ...]; only their identity matters here. *)
Inductive path : Type :=
| PATHS_settings
| PATHS_installedPlugins
| PATHS_knownMarketplaces
| PATHS_installCountsCache
| PATHS_marketplacesDir
| MarketplaceJson (marketplaceId : string).

(** getMarketplaceJsonPath: marketplacesDir/<id>/.claude-plugin/marketplace.json *)
Definition getMarketplaceJsonPath (marketplaceId : string) : path :=
  MarketplaceJson marketplaceId.

(** The [Error]s the services throw. *)
Inductive exn : Type :=
| InvalidJson (p : path)          (* readJsonFile: `Invalid JSON in ${filePath}: ...` *)
| SettingsNotFound                (* readSettings: `settings.json not found at ...` *)
| WriteFailed (p : path).         (* writeJsonFile: `Failed to write ${filePath}: ...` *)

Inductive result (A : Type) : Type :=
| Ok (a : A)
| Err (e : exn).
Arguments Ok {A} a.
Arguments Err {A} e.

#[global] Instance result_ret : MRet result := fun A a => Ok a.
#[global] Instance result_bind : MBind result :=
  fun A B k r => match r with Ok a => k a | Err e => Err e end.

(* ===================================================================== *)
(** * types/index.ts *)
(* ===================================================================== *)

Record Author : Type := { author_name : string; author_email : option string }.

Record Plugin : Type := {
  id : string;
  name : string;
  marketplace : string;
  description : string;
  version : string;
  installCount : Z;
  isInstalled : bool;
  isEnabled : bool;
  installedAt : option string;
  lastUpdated : option string;
  category : option string;
  tags : option (list string);
  author : option Author;
  homepage : option string;
  isLocal : option bool;
  gitCommitSha : option string }.

Inductive Scope : Type := scope_user | scope_project.

Record InstalledPluginEntry : Type := {
  ipe_scope : Scope;
  ipe_installPath : string;
  ipe_version : string;
  ipe_installedAt : string;
  ipe_lastUpdated : string;
  ipe_gitCommitSha : string;
  ipe_isLocal : bool }.

(** installed_plugins.json.  [plugins] is declared mandatory, but every reader guards it with
    [installed?.plugins], so the field is optional here. *)
Record InstalledPluginsFile : Type := {
  ipf_version : Z;
  ipf_plugins : option (gmap string (list InstalledPluginEntry)) }.

Inductive SourceKind : Type := source_git | source_github.

Record MarketplaceSource : Type := {
  ms_source : SourceKind;
  ms_url : option string;
  ms_repo : option string }.

Record Marketplace : Type := {
  mk_id : string;
  mk_name : string;
  mk_source : MarketplaceSource;
  mk_installLocation : string;
  mk_lastUpdated : string;
  mk_pluginCount : option Z }.

Record KnownMarketplace : Type := {
  km_source : MarketplaceSource;
  km_installLocation : string;
  km_lastUpdated : string }.

(** known_marketplaces.json: an object, given by its entries in the order [Object.entries]
    visits them. *)
Definition KnownMarketplacesFile : Type := list (string * KnownMarketplace).

Record MarketplacePluginEntry : Type := {
  mpe_name : string;
  mpe_description : option string;
  mpe_version : option string;
  mpe_author : option Author;
  mpe_category : option string;
  mpe_homepage : option string;
  mpe_tags : option (list string);
  mpe_keywords : option (list string) }.

Record MarketplaceFile : Type := {
  mf_name : option string;
  mf_description : option string;
  mf_plugins : option (list MarketplacePluginEntry) }.

(** [unique_installs] is the integer the document states; the program holds the double
    [JSON.parse] reads for it (see [Number_of_count]). *)
Record InstallCount : Type := { ic_plugin : string; ic_unique_installs : Z }.

Record InstallCountsFile : Type := {
  icf_version : Z;
  icf_fetchedAt : string;
  icf_counts : option (list InstallCount) }.

Inductive ErrorType : Type := err_installation | err_runtime | err_config.

Record PluginError : Type := {
  pe_pluginId : string;
  pe_type : ErrorType;
  pe_message : string;
  pe_timestamp : string;
  pe_details : option string }.

(** What [JSON.parse] makes of an integer literal: a double whose value is an integer, or an
    infinity. *)
Inductive number : Type :=
| Finite (z : Z)
| Infinity (negative : bool).

#[global] Instance number_eq_dec : EqDecision number.
Proof. solve_decision. Defined.

(** JSON, for the settings keys the dashboard never looks at.  With [Z] for [N] it is the text
    of a document up to its layout: a number token is the integer it denotes (tokens with a
    fraction are not modelled), an object has its members as [JSON.parse] enumerates them.
    With [number] for [N] it is the value [JSON.parse] returns. *)
Unset Elimination Schemes.
Inductive json (N : Type) : Type :=
| JNull
| JBool (b : bool)
| JNumber (n : N)
| JString (s : string)
| JArray (l : list (json N))
| JObject (l : list (string * json N)).
Set Elimination Schemes.
Arguments JNull {N}.
Arguments JBool {N} b.
Arguments JNumber {N} n.
Arguments JString {N} s.
Arguments JArray {N} l.
Arguments JObject {N} l.

(** [enabledPlugins?: Record<string, boolean>] and [[key: string]: unknown]. *)
Record SettingsOf (N : Type) : Type := {
  enabledPlugins : option (gmap string bool);
  otherKeys : list (string * json N) }.
Arguments enabledPlugins {N} _.
Arguments otherKeys {N} _.
Arguments Build_SettingsOf {N} _ _.

(** The settings object in memory, and settings.json as the file has it. *)
Definition Settings : Type := SettingsOf number.
Definition SettingsText : Type := SettingsOf Z.

(* ===================================================================== *)
(** * JSON.parse and JSON.stringify *)
(* ===================================================================== *)

(** The double nearest to an integer, ties to the even significand; beyond the largest
    double, an infinity.  An integer below 2^53 in magnitude is a double. *)
Definition Number_of_integer (z : Z) : number :=
  let a := Z.abs z in
  if a <? 2 ^ 53 then Finite z
  else
    let e := Z.log2 a - 52 in
    let q := a / 2 ^ e in
    let r := a mod 2 ^ e in
    let half := 2 ^ (e - 1) in
    let m := (if (half <? r) || ((r =? half) && Z.odd q) then q + 1 else q) * 2 ^ e in
    if 2 ^ 1024 <=? m then Infinity (z <? 0) else Finite (Z.sgn z * m).

(** A token that reads back as [x] and whose magnitude is a multiple of [step] next to that
    of [x]: the closer one, the one with the even multiplier if they are as close. *)
Definition shortest_candidate (x step : Z) : option Z :=
  let a := Z.abs x in
  let lo := Z.sgn x * (a / step * step) in
  let hi := Z.sgn x * (a / step * step + step) in
  let reads c := bool_decide (Number_of_integer c = Finite x) in
  match reads lo, reads hi with
  | true, true =>
      Some (if Z.abs (x - lo) <? Z.abs (hi - x) then lo
            else if Z.abs (hi - x) <? Z.abs (x - lo) then hi
            else if Z.even (a / step) then lo else hi)
  | true, false => Some lo
  | false, true => Some hi
  | false, false => None
  end.

Fixpoint count_digits (fuel : nat) (x : Z) : Z :=
  match fuel with
  | O => 0
  | S fuel' => if x <? 10 then 1 else 1 + count_digits fuel' (x / 10)
  end.

(** The number of decimal digits of [x] (1 for 0). *)
Definition decimal_length (x : Z) : Z := count_digits (S (Z.to_nat (Z.log2 x))) x.

(** Number::toString on a double whose value is an integer: the decimal token with the fewest
    significant digits that reads back as the double and, among those, the closest to it.
    Seventeen digits always do. *)
Definition Number_toString (x : Z) : Z :=
  let n := decimal_length (Z.abs x) in
  let candidates :=
    omap (fun k => shortest_candidate x (10 ^ Z.max 0 (n - k)))
      [1; 2; 3; 4; 5; 6; 7; 8; 9; 10; 11; 12; 13; 14; 15; 16; 17] in
  default x (head candidates).

(** The map of a function over the number tokens, which may put another value in their place. *)
Fixpoint json_bind {N M} (f : N → json M) (j : json N) : json M :=
  match j with
  | JNull => JNull
  | JBool b => JBool b
  | JNumber n => f n
  | JString s => JString s
  | JArray l => JArray (map (json_bind f) l)
  | JObject l => JObject (map (fun '(k, v) => (k, json_bind f v)) l)
  end.

Definition JSON_parse : json Z → json number :=
  json_bind (fun z => JNumber (Number_of_integer z)).

(** [JSON.stringify] prints an infinity as [null]. *)
Definition JSON_stringify : json number → json Z :=
  json_bind (fun n => match n with
                      | Finite x => JNumber (Number_toString x)
                      | Infinity _ => JNull
                      end).

Definition JSON_parse_settings (text : SettingsText) : Settings :=
  {| enabledPlugins := enabledPlugins text;
     otherKeys := map (fun '(k, v) => (k, JSON_parse v)) (otherKeys text) |}.

Definition JSON_stringify_settings (data : Settings) : SettingsText :=
  {| enabledPlugins := enabledPlugins data;
     otherKeys := map (fun '(k, v) => (k, JSON_stringify v)) (otherKeys data) |}.

(* ===================================================================== *)
(** * The disk, and services/fileService.ts *)
(* ===================================================================== *)

(** What a path holds: nothing, bytes that [JSON.parse] rejects, or a document.  The documents
    the dashboard only reads are held as [JSON.parse] returns them; settings.json, which it
    also writes, is held as text. *)
Inductive file (A : Type) : Type :=
| Absent
| Corrupt
| Document (a : A).
Arguments Absent {A}.
Arguments Corrupt {A}.
Arguments Document {A} a.

Record Disk : Type := {
  settings_json : file SettingsText;
  installed_plugins_json : file InstalledPluginsFile;
  install_counts_cache_json : file InstallCountsFile;
  known_marketplaces_json : file KnownMarketplacesFile;
  (** [None]: the marketplaces directory does not exist; otherwise its sub-directories, in
      [readdir] order. *)
  marketplaces_dir : option (list string);
  (** the catalog of each marketplace, by marketplace id; no binding: no such file *)
  marketplace_json : gmap string (file MarketplaceFile);
  (** whether [writeFileSync]/[renameSync] are refused *)
  readOnly : bool }.

Definition catalog_file (d : Disk) (marketplaceId : string) : file MarketplaceFile :=
  default Absent (marketplace_json d !! marketplaceId).

(** readJsonFile: [null] when the file does not exist, throws on invalid JSON. *)
Definition readJsonFile {T} (filePath : path) (f : file T) : result (option T) :=
  match f with
  | Absent => Ok None
  | Corrupt => Err (InvalidJson filePath)
  | Document a => Ok (Some a)
  end.

Definition with_settings (s : SettingsText) (d : Disk) : Disk :=
  {| settings_json := Document s;
     installed_plugins_json := installed_plugins_json d;
     install_counts_cache_json := install_counts_cache_json d;
     known_marketplaces_json := known_marketplaces_json d;
     marketplaces_dir := marketplaces_dir d;
     marketplace_json := marketplace_json d;
     readOnly := readOnly d |}.

(** writeJsonFile, at the settings path (its only caller): write [JSON.stringify (data, null, 2)]
    to a temporary sibling, rename it over the target; on failure remove the temporary file
    and throw. *)
Definition writeJsonFile_settings (data : Settings) (d : Disk) : result Disk :=
  if readOnly d then Err (WriteFailed PATHS_settings)
  else Ok (with_settings (JSON_stringify_settings data) d).

(** directoryExists PATHS.marketplacesDir / listDirectories PATHS.marketplacesDir *)
Definition directoryExists_marketplaces (d : Disk) : bool :=
  match marketplaces_dir d with Some _ => true | None => false end.

Definition listDirectories_marketplaces (d : Disk) : list string :=
  match marketplaces_dir d with Some l => l | None => [] end.

(* ===================================================================== *)
(** * services/settingsService.ts *)
(* ===================================================================== *)

(** readSettings; the text [readJsonFile] found is parsed here. *)
Definition readSettings (d : Disk) : result Settings :=
  settings ← readJsonFile PATHS_settings (settings_json d);
  match settings with
  | None => Err SettingsNotFound
  | Some text => Ok (JSON_parse_settings text)
  end.

Definition writeSettings (settings : Settings) (d : Disk) : result Disk :=
  writeJsonFile_settings settings d.

(** [settings.enabledPlugins ?? {}] *)
Definition getEnabledPlugins (d : Disk) : result (gmap string bool) :=
  settings ← readSettings d;
  Ok (default ∅ (enabledPlugins settings)).

(** [enabled[pluginId] ?? false] *)
Definition isPluginEnabled (pluginId : string) (d : Disk) : result bool :=
  enabled ← getEnabledPlugins d;
  Ok (default false (enabled !! pluginId)).

Definition setPluginEnabled (pluginId : string) (enabled : bool) (d : Disk) : result Disk :=
  settings ← readSettings d;
  let m := match enabledPlugins settings with Some m => m | None => ∅ end in
  writeSettings {| enabledPlugins := Some (<[pluginId := enabled]> m);
                   otherKeys := otherKeys settings |} d.

Definition enablePlugin (pluginId : string) (d : Disk) : result Disk :=
  setPluginEnabled pluginId true d.

Definition disablePlugin (pluginId : string) (d : Disk) : result Disk :=
  setPluginEnabled pluginId false d.

(** togglePlugin returns the new enabled state (and, here, the disk it leaves). *)
Definition togglePlugin (pluginId : string) (d : Disk) : result (bool * Disk) :=
  currentState ← isPluginEnabled pluginId d;
  d' ← setPluginEnabled pluginId (negb currentState) d;
  Ok (negb currentState, d').

(* ===================================================================== *)
(** * Array.prototype.sort *)
(* ===================================================================== *)

(** ECMAScript fixes what [sort] returns only for a comparator that is consistent on the
    elements of the array: the elements in the order of the comparator, those that compare
    equal in their order in the array (the sort is stable).  Stable insertion computes that
    array: [a] is moved behind [b] only when the comparator is positive on [(a, b)].  The
    comparators of [loadAllPlugins] and [loadMarketplaces] are differences of integers, which
    are consistent on every array, so [array_sort] is their [sort]. *)
Fixpoint sort_insert {A} (cmp : A → A → Z) (x : A) (l : list A) : list A :=
  match l with
  | [] => [x]
  | y :: l' => if 0 <? cmp x y then y :: sort_insert cmp x l' else x :: l
  end.

Definition array_sort {A} (cmp : A → A → Z) (l : list A) : list A :=
  foldr (sort_insert cmp) [] l.

(** A comparator that can return [NaN] ([None]).  SortCompare reads [NaN] as [+0]. *)
Definition SortCompare {A} (comparefn : A → A → option Z) (x y : A) : Z :=
  default 0 (comparefn x y).

(** The requirements of a consistent comparator (ECMAScript, Array.prototype.sort) at three
    values: the result is never [NaN]; [=] is reflexive, symmetric and transitive; [<] and [>]
    are transitive. *)
Definition consistent_at {A} (comparefn : A → A → option Z) (a b c : A) : bool :=
  let v := SortCompare comparefn in
  bool_decide (is_Some (comparefn a b))
  && (v a a =? 0)
  && implb (v a b =? 0) (v b a =? 0)
  && implb ((v a b =? 0) && (v b c =? 0)) (v a c =? 0)
  && implb ((v a b <? 0) && (v b c <? 0)) (v a c <? 0)
  && implb ((0 <? v a b) && (0 <? v b c)) (0 <? v a c).

(** [comparefn] is a consistent comparator for the elements of [l]. *)
Definition consistentb {A} (comparefn : A → A → option Z) (l : list A) : bool :=
  forallb (fun a => forallb (fun b => forallb (consistent_at comparefn a b) l) l) l.

(** The array whose element at position [k] is the element of [l] at position [σ !! k], when
    [σ] lists every position of [l] once (otherwise [l] itself). *)
Definition rearrange {A} (σ : list nat) (l : list A) : list A :=
  if forallb (fun i => bool_decide (i ∈ σ)) (seq 0 (length l))
     && bool_decide (length σ = length l)
  then omap (fun i => l !! i) σ
  else l.

(* ===================================================================== *)
(** * services/pluginService.ts: aggregation *)
(* ===================================================================== *)

(** JavaScript truthiness of a string. *)
Definition truthy (s : string) : bool := negb (String.eqb s "").

(** [a || b] on optional strings: the first one that is present and not empty. *)
Definition or_string (a : option string) (b : option string) : option string :=
  match a with
  | Some s => if truthy s then Some s else b
  | None => b
  end.

(** [installedMap]: for each plugin id of the registry, [entries[0]] when there is one. *)
Definition build_installedMap (installed : option InstalledPluginsFile)
  : gmap string InstalledPluginEntry :=
  match installed with
  | Some f =>
      match ipf_plugins f with
      | Some plugins => omap head plugins
      | None => ∅
      end
  | None => ∅
  end.

(** The number the program holds for a count: the double nearest to the integer the document
    states.  (A count beyond the largest double reads as an infinity, which [Z] does not have:
    it is left as it is written.) *)
Definition Number_of_count (z : Z) : Z :=
  match Number_of_integer z with
  | Finite x => x
  | Infinity _ => z
  end.

(** [countsMap]: [countsMap.set (entry.plugin, entry.unique_installs)] for each entry in turn. *)
Definition build_countsMap (counts : option InstallCountsFile) : gmap string Z :=
  match counts with
  | Some f =>
      match icf_counts f with
      | Some cs =>
          foldl (fun acc entry =>
                   <[ic_plugin entry := Number_of_count (ic_unique_installs entry)]> acc) ∅ cs
      | None => ∅
      end
  | None => ∅
  end.

(** `${plugin.name}@${marketplace}` *)
Definition pluginId_of (pluginName marketplaceId : string) : string :=
  String.append pluginName (String.append "@" marketplaceId).

(** The object pushed for one catalog entry (pluginService.ts, lines 66-86). *)
Definition pluginRecord
  (installedMap : gmap string InstalledPluginEntry) (countsMap : gmap string Z)
  (enabled : gmap string bool) (marketplaceId : string) (plugin : MarketplacePluginEntry)
  : Plugin :=
  let pluginId := pluginId_of (mpe_name plugin) marketplaceId in
  let installedEntry := installedMap !! pluginId in
  {| id := pluginId;
     name := mpe_name plugin;
     marketplace := marketplaceId;
     description := default "" (or_string (mpe_description plugin) None);
     version := default "unknown"
                  (or_string (ipe_version <$> installedEntry)
                     (or_string (mpe_version plugin) None));
     installCount := default 0 (countsMap !! pluginId);
     isInstalled := bool_decide (is_Some (installedMap !! pluginId));
     isEnabled := default false (enabled !! pluginId);
     installedAt := ipe_installedAt <$> installedEntry;
     lastUpdated := ipe_lastUpdated <$> installedEntry;
     category := mpe_category plugin;
     tags := match mpe_tags plugin with Some t => Some t | None => mpe_keywords plugin end;
     author := mpe_author plugin;
     homepage := mpe_homepage plugin;
     isLocal := ipe_isLocal <$> installedEntry;
     gitCommitSha := ipe_gitCommitSha <$> installedEntry |}.

(** The records one marketplace contributes: none unless [manifest?.plugins]. *)
Definition manifestRecords
  (installedMap : gmap string InstalledPluginEntry) (countsMap : gmap string Z)
  (enabled : gmap string bool) (marketplaceId : string) (manifest : option MarketplaceFile)
  : list Plugin :=
  match manifest with
  | Some mf =>
      match mf_plugins mf with
      | Some ps => map (pluginRecord installedMap countsMap enabled marketplaceId) ps
      | None => []
      end
  | None => []
  end.

(** The loop over [listDirectories PATHS.marketplacesDir]; [plugins] is the array built so far.
    A throwing [readJsonFile] leaves the loop and the function. *)
Fixpoint scanMarketplaces
  (d : Disk) (installedMap : gmap string InstalledPluginEntry) (countsMap : gmap string Z)
  (enabled : gmap string bool) (marketplaces : list string) (plugins : list Plugin)
  : result (list Plugin) :=
  match marketplaces with
  | [] => Ok plugins
  | marketplaceId :: rest =>
      manifest ← readJsonFile (getMarketplaceJsonPath marketplaceId) (catalog_file d marketplaceId);
      scanMarketplaces d installedMap countsMap enabled rest
        (plugins ++ manifestRecords installedMap countsMap enabled marketplaceId manifest)
  end.

Definition loadAllPlugins (d : Disk) : result (list Plugin) :=
  installed ← readJsonFile PATHS_installedPlugins (installed_plugins_json d);
  counts ← readJsonFile PATHS_installCountsCache (install_counts_cache_json d);
  enabled ← getEnabledPlugins d;
  let installedMap := build_installedMap installed in
  let countsMap := build_countsMap counts in
  plugins ← (if directoryExists_marketplaces d
             then scanMarketplaces d installedMap countsMap enabled
                    (listDirectories_marketplaces d) []
             else Ok []);
  Ok (array_sort (fun a b => installCount b - installCount a) plugins).

(** loadMarketplaces *)
Fixpoint scanKnownMarketplaces
  (d : Disk) (known : list (string * KnownMarketplace)) (acc : list Marketplace)
  : result (list Marketplace) :=
  match known with
  | [] => Ok acc
  | (marketplaceId, data) :: rest =>
      manifest ← readJsonFile (getMarketplaceJsonPath marketplaceId) (catalog_file d marketplaceId);
      let pluginCount :=
        match manifest ≫= mf_plugins with
        | Some ps => Z.of_nat (length ps)
        | None => 0
        end in
      scanKnownMarketplaces d rest
        (acc ++ [ {| mk_id := marketplaceId;
                     mk_name := default marketplaceId (or_string (manifest ≫= mf_name) None);
                     mk_source := km_source data;
                     mk_installLocation := km_installLocation data;
                     mk_lastUpdated := km_lastUpdated data;
                     mk_pluginCount := Some pluginCount |} ])
  end.

Definition loadMarketplaces (d : Disk) : result (list Marketplace) :=
  known ← readJsonFile PATHS_knownMarketplaces (known_marketplaces_json d);
  match known with
  | None => Ok []
  | Some known =>
      ms ← scanKnownMarketplaces d known [];
      Ok (array_sort (fun a b => default 0 (mk_pluginCount b) - default 0 (mk_pluginCount a)) ms)
  end.

(* ===================================================================== *)
(** * services/pluginService.ts: query layer *)
(* ===================================================================== *)

(** The built-ins whose result depends on the engine and its locale data. *)
Class JsRuntime : Type := {
  toLowerCase : string → string;               (* String.prototype.toLowerCase *)
  localeCompare : string → string → Z;         (* String.prototype.localeCompare *)
  Date_getTime : string → option Z;            (* new Date (s).getTime (); [None] is NaN, the
                                                  time of an invalid date *)
  (** the order [Array.prototype.sort] leaves an array in when the comparator is not
      consistent on its elements, which ECMAScript leaves to the implementation: for each
      position of the result, the position of the array its element is taken from *)
  implementation_defined_order : ∀ A : Type, (A → A → option Z) → list A → list nat }.

(** String.prototype.includes *)
Fixpoint includes (s sub : string) : bool :=
  if String.prefix sub s then true
  else match s with
       | EmptyString => false
       | String _ s' => includes s' sub
       end.

Inductive SortBy : Type := sort_installs | sort_name | sort_date.
Inductive SortOrder : Type := asc | desc.

Section Query.
Context `{JsRuntime}.

Definition matchesQuery (lowerQuery : string) (p : Plugin) : bool :=
  includes (toLowerCase (name p)) lowerQuery
  || includes (toLowerCase (description p)) lowerQuery
  || includes (toLowerCase (marketplace p)) lowerQuery
  || match category p with
     | Some c => includes (toLowerCase c) lowerQuery
     | None => false
     end
  || match tags p with
     | Some ts => existsb (fun t => includes (toLowerCase t) lowerQuery) ts
     | None => false
     end.

(** searchPlugins, called with its [plugins] argument (as app.tsx always does). *)
Definition searchPlugins (query : string) (plugins : list Plugin) : list Plugin :=
  let lowerQuery := toLowerCase query in
  List.filter (matchesQuery lowerQuery) plugins.

(** Array.prototype.sort with a comparator: the stable order when the comparator is consistent
    on the elements, and otherwise the rearrangement the engine chooses. *)
Definition Array_sort {A} (comparefn : A → A → option Z) (l : list A) : list A :=
  if consistentb comparefn l then array_sort (SortCompare comparefn) l
  else rearrange (implementation_defined_order A comparefn l) l.

(** [a.installedAt ? new Date (a.installedAt).getTime () : 0] *)
Definition installedTime (p : Plugin) : option Z :=
  match installedAt p with
  | Some s => if truthy s then Date_getTime s else Some 0
  | None => Some 0
  end.

(** The comparator handed to [sorted.sort]; a difference with [NaN] is [NaN], and so is its
    negation. *)
Definition comparePlugins (by_ : SortBy) (order : SortOrder) (a b : Plugin) : option Z :=
  let comparison :=
    match by_ with
    | sort_installs => Some (installCount a - installCount b)
    | sort_name => Some (localeCompare (name a) (name b))
    | sort_date =>
        dateA ← installedTime a;
        dateB ← installedTime b;
        Some (dateA - dateB)
    end in
  match order with
  | asc => comparison
  | desc => Z.opp <$> comparison
  end.

(** sortPlugins, as a function of the contents of its argument. *)
Definition sortPlugins (plugins : list Plugin) (by_ : SortBy) (order : SortOrder) : list Plugin :=
  let sorted := plugins in
  Array_sort (comparePlugins by_ order) sorted.

(** sortPlugins on arrays as JavaScript has them: objects in a store, named by reference.
    [[...plugins]] allocates a new array; [sorted.sort] reorders that array in place. *)
Definition sortPlugins_ref
  (store : gmap nat (list Plugin)) (plugins : nat) (by_ : SortBy) (order : SortOrder)
  : option (gmap nat (list Plugin) * nat) :=
  elements ← store !! plugins;
  let sorted := fresh (dom store) in
  let store1 := <[sorted := elements]> store in
  let store2 := alter (Array_sort (comparePlugins by_ order)) sorted store1 in
  Some (store2, sorted).

End Query.

(* ===================================================================== *)
(** * components/TabBar.tsx *)
(* ===================================================================== *)

Inductive Tab : Type := tab_discover | tab_installed | tab_marketplaces | tab_errors.

#[global] Instance Tab_eq_dec : EqDecision Tab.
Proof. solve_decision. Defined.

Definition TABS : list Tab := [tab_discover; tab_installed; tab_marketplaces; tab_errors].

Inductive Direction : Type := dir_next | dir_prev.

(** Array.prototype.findIndex: -1 when nothing matches. *)
Fixpoint findIndex {A} (f : A → bool) (l : list A) : Z :=
  match l with
  | [] => -1
  | x :: l' => if f x then 0 else
                 let i := findIndex f l' in if i <? 0 then -1 else i + 1
  end.

(** [l[i]]: [undefined] outside the array. *)
Definition at_index {A} (l : list A) (i : Z) : option A :=
  if i <? 0 then None else l !! Z.to_nat i.

Definition getNextTab (currentTab : Tab) (direction : Direction) : Tab :=
  let currentIndex := findIndex (fun t => bool_decide (t = currentTab)) TABS in
  let tabCount := Z.of_nat (length TABS) in
  let newIndex :=
    match direction with
    | dir_next => Z.rem (currentIndex + 1) tabCount
    | dir_prev => Z.rem (currentIndex - 1 + tabCount) tabCount
    end in
  default tab_discover (at_index TABS newIndex).

(* ===================================================================== *)
(** * app.tsx: state and reducer *)
(* ===================================================================== *)

Inductive Operation : Type := idle | installing | uninstalling.

#[global] Instance Operation_eq_dec : EqDecision Operation.
Proof. solve_decision. Defined.

Record AppState : Type := {
  activeTab : Tab;
  plugins : list Plugin;
  marketplaces : list Marketplace;
  errors : list PluginError;
  selectedIndex : Z;
  searchQuery : string;
  sortBy : SortBy;
  sortOrder : SortOrder;
  loading : bool;
  error : option string;
  message : option string;
  operation : Operation;
  operationPluginId : option string;
  confirmUninstall : bool }.

Definition set_activeTab (v : Tab) (s : AppState) : AppState :=
  {| activeTab := v; plugins := plugins s; marketplaces := marketplaces s; errors := errors s;
     selectedIndex := selectedIndex s; searchQuery := searchQuery s; sortBy := sortBy s;
     sortOrder := sortOrder s; loading := loading s; error := error s; message := message s;
     operation := operation s; operationPluginId := operationPluginId s;
     confirmUninstall := confirmUninstall s |}.

Definition set_plugins (v : list Plugin) (s : AppState) : AppState :=
  {| activeTab := activeTab s; plugins := v; marketplaces := marketplaces s;
     errors := errors s; selectedIndex := selectedIndex s; searchQuery := searchQuery s;
     sortBy := sortBy s; sortOrder := sortOrder s; loading := loading s; error := error s;
     message := message s; operation := operation s; operationPluginId := operationPluginId s;
     confirmUninstall := confirmUninstall s |}.

Definition set_marketplaces (v : list Marketplace) (s : AppState) : AppState :=
  {| activeTab := activeTab s; plugins := plugins s; marketplaces := v; errors := errors s;
     selectedIndex := selectedIndex s; searchQuery := searchQuery s; sortBy := sortBy s;
     sortOrder := sortOrder s; loading := loading s; error := error s; message := message s;
     operation := operation s; operationPluginId := operationPluginId s;
     confirmUninstall := confirmUninstall s |}.

Definition set_errors (v : list PluginError) (s : AppState) : AppState :=
  {| activeTab := activeTab s; plugins := plugins s; marketplaces := marketplaces s;
     errors := v; selectedIndex := selectedIndex s; searchQuery := searchQuery s;
     sortBy := sortBy s; sortOrder := sortOrder s; loading := loading s; error := error s;
     message := message s; operation := operation s; operationPluginId := operationPluginId s;
     confirmUninstall := confirmUninstall s |}.

Definition set_selectedIndex (v : Z) (s : AppState) : AppState :=
  {| activeTab := activeTab s; plugins := plugins s; marketplaces := marketplaces s;
     errors := errors s; selectedIndex := v; searchQuery := searchQuery s; sortBy := sortBy s;
     sortOrder := sortOrder s; loading := loading s; error := error s; message := message s;
     operation := operation s; operationPluginId := operationPluginId s;
     confirmUninstall := confirmUninstall s |}.

Definition set_searchQuery (v : string) (s : AppState) : AppState :=
  {| activeTab := activeTab s; plugins := plugins s; marketplaces := marketplaces s;
     errors := errors s; selectedIndex := selectedIndex s; searchQuery := v;
     sortBy := sortBy s; sortOrder := sortOrder s; loading := loading s; error := error s;
     message := message s; operation := operation s; operationPluginId := operationPluginId s;
     confirmUninstall := confirmUninstall s |}.

Definition set_sortBy (v : SortBy) (s : AppState) : AppState :=
  {| activeTab := activeTab s; plugins := plugins s; marketplaces := marketplaces s;
     errors := errors s; selectedIndex := selectedIndex s; searchQuery := searchQuery s;
     sortBy := v; sortOrder := sortOrder s; loading := loading s; error := error s;
     message := message s; operation := operation s; operationPluginId := operationPluginId s;
     confirmUninstall := confirmUninstall s |}.

Definition set_sortOrder (v : SortOrder) (s : AppState) : AppState :=
  {| activeTab := activeTab s; plugins := plugins s; marketplaces := marketplaces s;
     errors := errors s; selectedIndex := selectedIndex s; searchQuery := searchQuery s;
     sortBy := sortBy s; sortOrder := v; loading := loading s; error := error s;
     message := message s; operation := operation s; operationPluginId := operationPluginId s;
     confirmUninstall := confirmUninstall s |}.

Definition set_loading (v : bool) (s : AppState) : AppState :=
  {| activeTab := activeTab s; plugins := plugins s; marketplaces := marketplaces s;
     errors := errors s; selectedIndex := selectedIndex s; searchQuery := searchQuery s;
     sortBy := sortBy s; sortOrder := sortOrder s; loading := v; error := error s;
     message := message s; operation := operation s; operationPluginId := operationPluginId s;
     confirmUninstall := confirmUninstall s |}.

Definition set_error (v : option string) (s : AppState) : AppState :=
  {| activeTab := activeTab s; plugins := plugins s; marketplaces := marketplaces s;
     errors := errors s; selectedIndex := selectedIndex s; searchQuery := searchQuery s;
     sortBy := sortBy s; sortOrder := sortOrder s; loading := loading s; error := v;
     message := message s; operation := operation s; operationPluginId := operationPluginId s;
     confirmUninstall := confirmUninstall s |}.

Definition set_message (v : option string) (s : AppState) : AppState :=
  {| activeTab := activeTab s; plugins := plugins s; marketplaces := marketplaces s;
     errors := errors s; selectedIndex := selectedIndex s; searchQuery := searchQuery s;
     sortBy := sortBy s; sortOrder := sortOrder s; loading := loading s; error := error s;
     message := v; operation := operation s; operationPluginId := operationPluginId s;
     confirmUninstall := confirmUninstall s |}.

Definition set_operation (v : Operation) (s : AppState) : AppState :=
  {| activeTab := activeTab s; plugins := plugins s; marketplaces := marketplaces s;
     errors := errors s; selectedIndex := selectedIndex s; searchQuery := searchQuery s;
     sortBy := sortBy s; sortOrder := sortOrder s; loading := loading s; error := error s;
     message := message s; operation := v; operationPluginId := operationPluginId s;
     confirmUninstall := confirmUninstall s |}.

Definition set_operationPluginId (v : option string) (s : AppState) : AppState :=
  {| activeTab := activeTab s; plugins := plugins s; marketplaces := marketplaces s;
     errors := errors s; selectedIndex := selectedIndex s; searchQuery := searchQuery s;
     sortBy := sortBy s; sortOrder := sortOrder s; loading := loading s; error := error s;
     message := message s; operation := operation s; operationPluginId := v;
     confirmUninstall := confirmUninstall s |}.

Definition set_confirmUninstall (v : bool) (s : AppState) : AppState :=
  {| activeTab := activeTab s; plugins := plugins s; marketplaces := marketplaces s;
     errors := errors s; selectedIndex := selectedIndex s; searchQuery := searchQuery s;
     sortBy := sortBy s; sortOrder := sortOrder s; loading := loading s; error := error s;
     message := message s; operation := operation s; operationPluginId := operationPluginId s;
     confirmUninstall := v |}.


Inductive MoveDirection : Type := up | down.

Inductive Action : Type :=
| SET_TAB (payload : Tab)
| SET_PLUGINS (payload : list Plugin)
| SET_MARKETPLACES (payload : list Marketplace)
| SET_ERRORS (payload : list PluginError)
| SET_SELECTED_INDEX (payload : Z)
| MOVE_SELECTION (payload : MoveDirection)
| SET_SEARCH_QUERY (payload : string)
| SET_SORT (by_ : SortBy) (order : SortOrder)
| TOGGLE_PLUGIN_ENABLED (payload : string)
| UPDATE_PLUGIN (payload : Plugin)
| SET_LOADING (payload : bool)
| SET_ERROR (payload : option string)
| SET_MESSAGE (payload : option string)
| NEXT_TAB
| PREV_TAB
| START_OPERATION (operation : Operation) (pluginId : string)
| END_OPERATION
| SHOW_CONFIRM_UNINSTALL (payload : string)
| HIDE_CONFIRM_UNINSTALL.

Definition initialState : AppState :=
  {| activeTab := tab_discover;
     plugins := [];
     marketplaces := [];
     errors := [];
     selectedIndex := 0;
     searchQuery := "";
     sortBy := sort_installs;
     sortOrder := desc;
     loading := true;
     error := None;
     message := None;
     operation := idle;
     operationPluginId := None;
     confirmUninstall := false |}.

(** [{ ...p, isEnabled: v }] *)
Definition set_isEnabled (v : bool) (p : Plugin) : Plugin :=
  {| id := id p; name := name p; marketplace := marketplace p; description := description p;
     version := version p; installCount := installCount p; isInstalled := isInstalled p;
     isEnabled := v; installedAt := installedAt p; lastUpdated := lastUpdated p;
     category := category p; tags := tags p; author := author p; homepage := homepage p;
     isLocal := isLocal p; gitCommitSha := gitCommitSha p |}.

(** The elements of the list a tab shows ([unknown[]] in the source). *)
Inductive Item : Type :=
| PluginItem (p : Plugin)
| MarketplaceItem (m : Marketplace)
| ErrorItem (e : PluginError).

Section Reducer.
Context `{JsRuntime}.

Definition getFilteredPlugins (state : AppState) : list Plugin :=
  let plugins0 := plugins state in
  let plugins1 := if truthy (searchQuery state)
                  then searchPlugins (searchQuery state) plugins0
                  else plugins0 in
  sortPlugins plugins1 (sortBy state) (sortOrder state).

Definition getItemsForTab (state : AppState) : list Item :=
  match activeTab state with
  | tab_discover => map PluginItem (getFilteredPlugins state)
  | tab_installed => map PluginItem (List.filter isInstalled (plugins state))
  | tab_marketplaces => map MarketplaceItem (marketplaces state)
  | tab_errors => map ErrorItem (errors state)
  end.

Definition appReducer (state : AppState) (action : Action) : AppState :=
  match action with
  | SET_TAB payload =>
      set_message None (set_searchQuery "" (set_selectedIndex 0 (set_activeTab payload state)))
  | NEXT_TAB =>
      set_message None (set_searchQuery "" (set_selectedIndex 0
        (set_activeTab (getNextTab (activeTab state) dir_next) state)))
  | PREV_TAB =>
      set_message None (set_searchQuery "" (set_selectedIndex 0
        (set_activeTab (getNextTab (activeTab state) dir_prev) state)))
  | SET_PLUGINS payload => set_loading false (set_plugins payload state)
  | SET_MARKETPLACES payload => set_marketplaces payload state
  | SET_ERRORS payload => set_errors payload state
  | SET_SELECTED_INDEX payload => set_message None (set_selectedIndex payload state)
  | MOVE_SELECTION payload =>
      let items := getItemsForTab state in
      let maxIndex := Z.max 0 (Z.of_nat (length items) - 1) in
      if Z.of_nat (length items) =? 0 then state
      else
        let newIndex :=
          match payload with
          | up => Z.max 0 (selectedIndex state - 1)
          | down => Z.min maxIndex (selectedIndex state + 1)
          end in
        set_message None (set_selectedIndex newIndex state)
  | SET_SEARCH_QUERY payload => set_selectedIndex 0 (set_searchQuery payload state)
  | SET_SORT by_ order => set_selectedIndex 0 (set_sortOrder order (set_sortBy by_ state))
  | TOGGLE_PLUGIN_ENABLED pluginId =>
      let updatedPlugins :=
        map (fun p => if String.eqb (id p) pluginId
                      then set_isEnabled (negb (isEnabled p)) p else p) (plugins state) in
      set_plugins updatedPlugins state
  | UPDATE_PLUGIN payload =>
      let updatedPlugins :=
        map (fun p => if String.eqb (id p) (id payload) then payload else p) (plugins state) in
      set_plugins updatedPlugins state
  | SET_LOADING payload => set_loading payload state
  | SET_ERROR payload => set_loading false (set_error payload state)
  | SET_MESSAGE payload => set_message payload state
  | START_OPERATION op pluginId =>
      set_message
        (Some (match op with
               | installing => String.append "Installing " (String.append pluginId "...")
               | _ => String.append "Uninstalling " (String.append pluginId "...")
               end))
        (set_operationPluginId (Some pluginId) (set_operation op state))
  | END_OPERATION => set_operationPluginId None (set_operation idle state)
  | SHOW_CONFIRM_UNINSTALL payload =>
      set_operationPluginId (Some payload) (set_confirmUninstall true state)
  | HIDE_CONFIRM_UNINSTALL =>
      set_operationPluginId None (set_confirmUninstall false state)
  end.

End Reducer.

(* ===================================================================== *)
(** * app.tsx: the interactive session *)
(* ===================================================================== *)

(** The [key] argument of an ink [useInput] handler (the flags app.tsx reads). *)
Record Key : Type := {
  key_upArrow : bool;
  key_downArrow : bool;
  key_leftArrow : bool;
  key_rightArrow : bool;
  key_return : bool;
  key_escape : bool;
  key_ctrl : bool;
  key_tab : bool;
  key_backspace : bool;
  key_delete : bool;
  key_meta : bool }.

(** A printable key pressed on its own. *)
Definition plainKey : Key :=
  {| key_upArrow := false; key_downArrow := false; key_leftArrow := false;
     key_rightArrow := false; key_return := false; key_escape := false; key_ctrl := false;
     key_tab := false; key_backspace := false; key_delete := false; key_meta := false |}.

Definition ctrlKey : Key :=
  {| key_upArrow := false; key_downArrow := false; key_leftArrow := false;
     key_rightArrow := false; key_return := false; key_escape := false; key_ctrl := true;
     key_tab := false; key_backspace := false; key_delete := false; key_meta := false |}.

Definition escapeKey : Key :=
  {| key_upArrow := false; key_downArrow := false; key_leftArrow := false;
     key_rightArrow := false; key_return := false; key_escape := true; key_ctrl := false;
     key_tab := false; key_backspace := false; key_delete := false; key_meta := false |}.

Definition downArrowKey : Key :=
  {| key_upArrow := false; key_downArrow := true; key_leftArrow := false;
     key_rightArrow := false; key_return := false; key_escape := false; key_ctrl := false;
     key_tab := false; key_backspace := false; key_delete := false; key_meta := false |}.

Definition rightArrowKey : Key :=
  {| key_upArrow := false; key_downArrow := false; key_leftArrow := false;
     key_rightArrow := true; key_return := false; key_escape := false; key_ctrl := false;
     key_tab := false; key_backspace := false; key_delete := false; key_meta := false |}.

(** services/pluginActionsService.ts *)
Inductive Verb : Type := install | uninstall.

Record PluginActionResult : Type := {
  par_success : bool;
  par_message : string;
  par_error : option string }.

(** What the session does to the world besides writing settings.json. *)
Inductive Effect : Type :=
| Exit                                         (* useApp ().exit (), or ink's own exit *)
| Spawn (action : Verb) (pluginId : string)    (* spawn ('claude', ['plugin', action, pluginId]) *)
| UnhandledRejection (e : exn).                (* an async function rejects and nothing catches
                                                  it: Node ends the process with status 1 *)

(** The component's [useReducer] state and [useState] flag, the disk it reads and writes, and
    the effects it has caused so far. *)
Record Session : Type := {
  state : AppState;
  isSearchMode : bool;
  disk : Disk;
  effects : list Effect }.

Definition with_state (st : AppState) (s : Session) : Session :=
  {| state := st; isSearchMode := isSearchMode s; disk := disk s; effects := effects s |}.

Definition setIsSearchMode (b : bool) (s : Session) : Session :=
  {| state := state s; isSearchMode := b; disk := disk s; effects := effects s |}.

Definition with_disk (d : Disk) (s : Session) : Session :=
  {| state := state s; isSearchMode := isSearchMode s; disk := d; effects := effects s |}.

Definition perform (e : Effect) (s : Session) : Session :=
  {| state := state s; isSearchMode := isSearchMode s; disk := disk s;
     effects := effects s ++ [e] |}.

Definition path_string (p : path) : string :=
  match p with
  | PATHS_settings => "~/.claude/settings.json"
  | PATHS_installedPlugins => "~/.claude/plugins/installed_plugins.json"
  | PATHS_knownMarketplaces => "~/.claude/plugins/known_marketplaces.json"
  | PATHS_installCountsCache => "~/.claude/plugins/install-counts-cache.json"
  | PATHS_marketplacesDir => "~/.claude/plugins/marketplaces"
  | MarketplaceJson m =>
      String.append "~/.claude/plugins/marketplaces/"
        (String.append m "/.claude-plugin/marketplace.json")
  end.

(** [error.message] (without the text the JSON parser or the operating system adds). *)
Definition exn_message (e : exn) : string :=
  match e with
  | InvalidJson p => String.append "Invalid JSON in " (path_string p)
  | SettingsNotFound =>
      String.append "settings.json not found at "
        (String.append (path_string PATHS_settings) ". Is Claude Code installed?")
  | WriteFailed p => String.append "Failed to write " (path_string p)
  end.

(** [s.slice (0, -1)] *)
Fixpoint dropLast (s : string) : string :=
  match s with
  | EmptyString => EmptyString
  | String c EmptyString => EmptyString
  | String c s' => String c (dropLast s')
  end.

Definition truthy_opt (o : option string) : bool :=
  match o with Some s => truthy s | None => false end.

Inductive Event : Type :=
| Mount                                                  (* the effect run once on mount *)
| Input (input : string) (key : Key)                     (* a key is pressed *)
| Settled (result : PluginActionResult) (after : Disk).  (* the awaited action resolves; [after]
                                                            is the disk the child process left *)

Section App.
Context `{JsRuntime}.

Definition dispatch (a : Action) (s : Session) : Session :=
  with_state (appReducer (state s) a) s.

(** handleInstall / handleUninstall up to their [await]: announce the operation, start the child. *)
Definition handleInstall (pluginId : string) (s : Session) : Session :=
  perform (Spawn install pluginId) (dispatch (START_OPERATION installing pluginId) s).

Definition handleUninstall (pluginId : string) (s : Session) : Session :=
  perform (Spawn uninstall pluginId) (dispatch (START_OPERATION uninstalling pluginId) s).

(** ... and from the [await] on (the two functions have the same tail).  A throwing
    [loadAllPlugins] rejects the async function; nothing catches the rejection. *)
Definition afterAction (result : PluginActionResult) (s : Session) : Session :=
  let s1 := dispatch END_OPERATION s in
  if par_success result then
    match loadAllPlugins (disk s1) with
    | Ok plugins =>
        dispatch (SET_MESSAGE (Some (String.append "✅ " (par_message result))))
          (dispatch (SET_PLUGINS plugins) s1)
    | Err e => perform (UnhandledRejection e) s1
    end
  else
    dispatch
      (SET_MESSAGE
         (Some (String.append "❌ "
                  (String.append (par_message result)
                     (match par_error result with
                      | Some e => if truthy e then String.append ": " e else ""
                      | None => ""
                      end)))))
      s1.

(** The plugin under the cursor on the Discover and Installed tabs. *)
Definition selectedPlugin (st : AppState) : option Plugin :=
  let items :=
    match activeTab st with
    | tab_installed => List.filter isInstalled (plugins st)
    | _ => getFilteredPlugins st
    end in
  at_index items (selectedIndex st).

Definition onPluginTab (st : AppState) : bool :=
  bool_decide (activeTab st = tab_discover) || bool_decide (activeTab st = tab_installed).

Definition nextSort (by_ : SortBy) : SortBy :=
  match by_ with
  | sort_installs => sort_name
  | sort_name => sort_date
  | sort_date => sort_installs
  end.

(** The handler given to [useInput]; [st] is the state the handler closed over. *)
Definition useInput (s : Session) (input : string) (key : Key) : Session :=
  let st := state s in
  (* Block all input during operations *)
  if negb (bool_decide (operation st = idle)) then s
  (* Handle confirmation dialog *)
  else if confirmUninstall st && truthy_opt (operationPluginId st) then
    if String.eqb input "y" || String.eqb input "Y" then
      handleUninstall (default "" (operationPluginId st)) (dispatch HIDE_CONFIRM_UNINSTALL s)
    else if String.eqb input "n" || String.eqb input "N" || key_escape key then
      dispatch (SET_MESSAGE (Some "Uninstall cancelled")) (dispatch HIDE_CONFIRM_UNINSTALL s)
    else s
  (* Search mode input *)
  else if isSearchMode s then
    if key_escape key || key_return key then setIsSearchMode false s
    else if key_backspace key || key_delete key then
      dispatch (SET_SEARCH_QUERY (dropLast (searchQuery st))) s
    else if truthy input && (Z.of_nat (String.length input) =? 1)
            && negb (key_ctrl key) && negb (key_meta key) then
      dispatch (SET_SEARCH_QUERY (String.append (searchQuery st) input)) s
    else s
  (* Emacs-style navigation *)
  else if key_ctrl key && String.eqb input "p" then dispatch (MOVE_SELECTION up) s
  else if key_ctrl key && String.eqb input "n" then dispatch (MOVE_SELECTION down) s
  (* Tab navigation *)
  else if key_leftArrow key then dispatch PREV_TAB s
  else if key_rightArrow key then dispatch NEXT_TAB s
  else if key_tab key then dispatch NEXT_TAB s
  (* List navigation *)
  else if key_upArrow key then dispatch (MOVE_SELECTION up) s
  else if key_downArrow key then dispatch (MOVE_SELECTION down) s
  (* Enter search mode *)
  else if String.eqb input "/" && bool_decide (activeTab st = tab_discover) then
    setIsSearchMode true s
  (* Toggle plugin (Space or Enter) *)
  else if (String.eqb input " " || key_return key) && onPluginTab st then
    match selectedPlugin st with
    | Some p =>
        if isInstalled p then
          match togglePlugin (id p) (disk s) with
          | Ok (newState, d') =>
              dispatch
                (SET_MESSAGE
                   (Some (if newState
                          then String.append "✅ " (String.append (name p) " enabled")
                          else String.append "❌ " (String.append (name p) " disabled"))))
                (dispatch (TOGGLE_PLUGIN_ENABLED (id p)) (with_disk d' s))
          | Err e =>
              dispatch (SET_MESSAGE (Some (String.append "Error: " (exn_message e)))) s
          end
        else s
    | None => s
    end
  (* Cycle sort (s key) *)
  else if String.eqb input "s" && bool_decide (activeTab st = tab_discover) then
    dispatch (SET_SORT (nextSort (sortBy st)) (sortOrder st)) s
  (* Toggle sort order (S key) *)
  else if String.eqb input "S" && bool_decide (activeTab st = tab_discover) then
    dispatch (SET_SORT (sortBy st) (match sortOrder st with asc => desc | desc => asc end)) s
  (* Clear search (Escape) *)
  else if key_escape key && truthy (searchQuery st) then dispatch (SET_SEARCH_QUERY "") s
  (* Install (i key) *)
  else if String.eqb input "i" && onPluginTab st then
    match selectedPlugin st with
    | Some p =>
        if negb (isInstalled p) then handleInstall (id p) s
        else dispatch (SET_MESSAGE (Some "⚠️ Plugin is already installed")) s
    | None => s
    end
  (* Uninstall (u key) *)
  else if String.eqb input "u" && onPluginTab st then
    match selectedPlugin st with
    | Some p =>
        if isInstalled p then dispatch (SHOW_CONFIRM_UNINSTALL (id p)) s
        else dispatch (SET_MESSAGE (Some "⚠️ Plugin is not installed")) s
    | None => s
    end
  (* Exit (q or Ctrl+C) *)
  else if String.eqb input "q" || (key_ctrl key && String.eqb input "c") then perform Exit s
  else s.

(** The effect run on mount: load everything, or show the error screen. *)
Definition onMount (s : Session) : Session :=
  match (plugins ← loadAllPlugins (disk s);
         marketplaces ← loadMarketplaces (disk s);
         Ok (plugins, marketplaces)) with
  | Ok (plugins, marketplaces) =>
      dispatch (SET_MARKETPLACES marketplaces) (dispatch (SET_PLUGINS plugins) s)
  | Err e => dispatch (SET_ERROR (Some (exn_message e))) s
  end.

(** Ctrl+C, as ink reports it to [useInput] handlers: [input === 'c' && key.ctrl]. *)
Definition interrupt (input : string) (key : Key) : bool :=
  key_ctrl key && String.eqb input "c".

(** One event of the session.  [render (<App />)] leaves ink's [exitOnCtrlC] at its default:
    on Ctrl+C ink exits the app itself and does not call the [useInput] handlers; every other
    key goes to the handler.  An action can only settle while it is in flight. *)
Definition step (s : Session) (ev : Event) : Session :=
  match ev with
  | Mount => onMount s
  | Input input key => if interrupt input key then perform Exit s else useInput s input key
  | Settled result after =>
      if bool_decide (operation (state s) = idle) then s
      else afterAction result (with_disk after s)
  end.

Definition run (s : Session) (evs : list Event) : Session := foldl step s evs.

Definition initialSession (d : Disk) : Session :=
  {| state := initialState; isSearchMode := false; disk := d; effects := [] |}.

(** Reachable sessions: started on some disk, driven by events. *)
Definition reachable (s : Session) : Prop :=
  ∃ d evs, s = run (initialSession d) evs.

End App.

(* ===================================================================== *)
(** * Vocabulary of the specification *)
(* ===================================================================== *)

(** The installation entries the installed-plugin registry lists for a plugin id, if the id is
    one of its keys. *)
Definition registry_entries (d : Disk) (pluginId : string) : option (list InstalledPluginEntry) :=
  match installed_plugins_json d with
  | Document f => ipf_plugins f ≫= fun plugins => plugins !! pluginId
  | _ => None
  end.

(** The value the enabled-state map of the settings document holds for a plugin id
    ([false] when it holds none). *)
Definition enabled_in_settings (d : Disk) (pluginId : string) : bool :=
  match settings_json d with
  | Document s => default false (default ∅ (enabledPlugins s) !! pluginId)
  | _ => false
  end.

Definition is_corrupt {A} (f : file A) : bool :=
  match f with Corrupt => true | _ => false end.

(** The document a file holds, if it holds one. *)
Definition file_document {A} (f : file A) : option A :=
  match f with Document a => Some a | _ => None end.

(** The lookup tables an aggregation pass builds from a disk. *)
Definition installedMap_of (d : Disk) : gmap string InstalledPluginEntry :=
  build_installedMap (file_document (installed_plugins_json d)).

Definition countsMap_of (d : Disk) : gmap string Z :=
  build_countsMap (file_document (install_counts_cache_json d)).

(** The same disk with another listing of the marketplaces directory. *)
Definition with_marketplaces_dir (l : option (list string)) (d : Disk) : Disk :=
  {| settings_json := settings_json d;
     installed_plugins_json := installed_plugins_json d;
     install_counts_cache_json := install_counts_cache_json d;
     known_marketplaces_json := known_marketplaces_json d;
     marketplaces_dir := l;
     marketplace_json := marketplace_json d;
     readOnly := readOnly d |}.

(** The version a catalog entry states, or the literal the dashboard shows when it states none. *)
Definition catalog_version_or_unknown (e : MarketplacePluginEntry) : string :=
  match mpe_version e with
  | Some v => if truthy v then v else "unknown"
  | None => "unknown"
  end.

(** Whether a string has an at sign in it. *)
Fixpoint has_at (s : string) : bool :=
  match s with
  | EmptyString => false
  | String c s' => Ascii.eqb c "@" || has_at s'
  end.

(** The plugin names of a marketplace's catalog (none when it has no readable catalog). *)
Definition catalog_names (d : Disk) (marketplaceId : string) : list string :=
  match catalog_file d marketplaceId with
  | Document mf => map mpe_name (default [] (mf_plugins mf))
  | _ => []
  end.

(** [selectedIndex] lies in [[0, max (0, itemCount - 1)]]. *)
Definition selection_in_range `{JsRuntime} (st : AppState) : Prop :=
  0 ≤ selectedIndex st ≤ Z.max 0 (Z.of_nat (length (getItemsForTab st)) - 1).


(** The session shows the uninstall confirmation dialog. *)
Definition confirming (s : Session) : bool :=
  confirmUninstall (state s) && truthy_opt (operationPluginId (state s)).

(** The effects an event adds to those already caused. *)
Definition emitted `{JsRuntime} (s : Session) (ev : Event) : list Effect :=
  drop (length (effects s)) (effects (step s ev)).

(** What an event that starts no uninstall does: it causes no effect and leaves the operation
    in flight or ends it; or it exits; or it starts an install; or it ends the operation and
    the process with it, on a reload that throws. *)
Definition outcome (s s' : Session) : Prop :=
  (effects s' = effects s
   ∧ (operation (state s') = operation (state s) ∨ operation (state s') = idle))
  ∨ (effects s' = effects s ++ [Exit] ∧ operation (state s') = operation (state s))
  ∨ (∃ pluginId, effects s' = effects s ++ [Spawn install pluginId]
                 ∧ operation (state s') = installing)
  ∨ (∃ e, effects s' = effects s ++ [UnhandledRejection e] ∧ operation (state s') = idle).

(** [output] is [input] rearranged by a stable sort under [cmp]: [σ] lists, for each output
    position, the input position it took its element from; two elements on which [cmp] is zero
    come out in the order of their input positions. *)
Definition stable_rearrangement {A} (cmp : A → A → Z) (input output : list A) : Prop :=
  ∃ σ : list nat,
    Permutation σ (seq 0 (length input))
    ∧ Forall2 (fun r i => input !! i = Some r) output σ
    ∧ ∀ (k1 k2 i j : nat) (a b : A),
        σ !! k1 = Some i → σ !! k2 = Some j →
        input !! i = Some a → input !! j = Some b →
        (i < j)%nat → cmp a b = 0 → (k1 < k2)%nat.

(* ===================================================================== *)
(** * Sample data *)
(* ===================================================================== *)

(** A runtime to evaluate examples with: ASCII lower-casing, comparison of code units, dates
    read off the decimal digits of the string (a string without a digit is no date), and, for
    the order under an inconsistent comparator, binary insertion behind the initial run, the
    method of V8 on short arrays. *)
Definition lowerAscii (c : ascii) : ascii :=
  let n := nat_of_ascii c in
  if ((65 <=? n) && (n <=? 90))%nat then ascii_of_nat (n + 32) else c.

Fixpoint lowerString (s : string) : string :=
  match s with
  | EmptyString => EmptyString
  | String c s' => String (lowerAscii c) (lowerString s')
  end.

Definition compareStrings (a b : string) : Z :=
  match String.compare a b with Lt => -1 | Eq => 0 | Gt => 1 end.

Fixpoint numeral (acc : option Z) (s : string) : option Z :=
  match s with
  | EmptyString => acc
  | String c s' =>
      let n := Z.of_nat (nat_of_ascii c) in
      numeral (if (48 <=? n) && (n <=? 57) then Some (default 0 acc * 10 + (n - 48)) else acc) s'
  end.

(** CountAndMakeRun: the length of the run at the front of the array, behind its first two
    elements; [previous] is the last element of the run so far. *)
Fixpoint run_length {A} (cmp : A → A → Z) (isDescending : bool) (previous : A) (rest : list A)
  : nat :=
  match rest with
  | [] => O
  | current :: rest' =>
      let order := cmp current previous in
      if (if isDescending then 0 <=? order else order <? 0) then O
      else S (run_length cmp isDescending current rest')
  end.

(** The initial run, made ascending, and the elements behind it. *)
Definition countAndMakeRun {A} (cmp : A → A → Z) (l : list A) : list A * list A :=
  match l with
  | elementHigh :: elementLow :: rest =>
      let isDescending := cmp elementLow elementHigh <? 0 in
      let runLength := S (S (run_length cmp isDescending elementLow rest)) in
      (if isDescending then reverse (take runLength l) else take runLength l, drop runLength l)
  | _ => (l, [])
  end.

(** The loop [while (left < right)] of BinaryInsertionSort. *)
Fixpoint binary_search {A} (cmp : A → A → Z) (pivot : A) (work : list A)
  (left right : nat) (fuel : nat) : nat :=
  match fuel with
  | O => left
  | S fuel' =>
      if (left <? right)%nat then
        let mid := (left + Nat.div2 (right - left))%nat in
        match work !! mid with
        | Some x =>
            if cmp pivot x <? 0 then binary_search cmp pivot work left mid fuel'
            else binary_search cmp pivot work (S mid) right fuel'
        | None => left
        end
      else left
  end.

Definition binaryInsert {A} (cmp : A → A → Z) (work : list A) (pivot : A) : list A :=
  let left := binary_search cmp pivot work O (length work) (length work) in
  take left work ++ pivot :: drop left work.

Definition binaryInsertionSort {A} (cmp : A → A → Z) (l : list A) : list A :=
  let '(run, rest) := countAndMakeRun cmp l in
  foldl (binaryInsert cmp) run rest.

#[global] Instance sampleRuntime : JsRuntime :=
  {| toLowerCase := lowerString;
     localeCompare := compareStrings;
     Date_getTime := numeral None;
     implementation_defined_order := fun A comparefn l =>
       (binaryInsertionSort (fun x y => SortCompare comparefn x.2 y.2) (imap pair l)).*1 |}.

Definition catalogEntry (nm : string) (ver : option string) : MarketplacePluginEntry :=
  {| mpe_name := nm; mpe_description := None; mpe_version := ver; mpe_author := None;
     mpe_category := None; mpe_homepage := None; mpe_tags := None; mpe_keywords := None |}.

Definition catalogOf (es : list MarketplacePluginEntry) : file MarketplaceFile :=
  Document {| mf_name := None; mf_description := None; mf_plugins := Some es |}.

Definition installation (ver : string) : InstalledPluginEntry :=
  {| ipe_scope := scope_user; ipe_installPath := "/cache"; ipe_version := ver;
     ipe_installedAt := "2025-01-01T00:00:00.000Z"; ipe_lastUpdated := "2025-01-02T00:00:00.000Z";
     ipe_gitCommitSha := "0a1b2c3"; ipe_isLocal := false |}.

Definition registryOf (m : gmap string (list InstalledPluginEntry)) : file InstalledPluginsFile :=
  Document {| ipf_version := 1; ipf_plugins := Some m |}.

Definition settingsOf (enabled : option (gmap string bool)) : SettingsText :=
  {| enabledPlugins := enabled;
     otherKeys := [("theme", JString "dark"); ("cleanupPeriodDays", JNumber 30);
                   ("permissions", JObject [("allow", JArray [])])] |}.

Definition sampleDisk (settings : file SettingsText) (registry : file InstalledPluginsFile)
  (dirs : list string) (catalogs : gmap string (file MarketplaceFile)) : Disk :=
  {| settings_json := settings;
     installed_plugins_json := registry;
     install_counts_cache_json := Absent;
     known_marketplaces_json := Absent;
     marketplaces_dir := Some dirs;
     marketplace_json := catalogs;
     readOnly := false |}.

(** context7 is offered by claude-plugins-official, is not installed, and settings.json
    maps its id to [true]. *)
Definition disk_enabled_not_installed : Disk :=
  sampleDisk (Document (settingsOf (Some {[ "context7@claude-plugins-official" := true ]})))
    Absent
    ["claude-plugins-official"]
    {[ "claude-plugins-official" := catalogOf [catalogEntry "context7" None] ]}.

Definition record_context7 : Plugin :=
  {| id := "context7@claude-plugins-official"; name := "context7";
     marketplace := "claude-plugins-official"; description := ""; version := "unknown";
     installCount := 0; isInstalled := false; isEnabled := true; installedAt := None;
     lastUpdated := None; category := None; tags := None; author := None; homepage := None;
     isLocal := None; gitCommitSha := None |}.

(** Two marketplaces; the catalog of the second one is not valid JSON. *)
Definition disk_corrupt_catalog : Disk :=
  sampleDisk (Document (settingsOf None)) Absent
    ["good"; "broken"]
    {[ "good" := catalogOf [catalogEntry "alpha" None]; "broken" := Corrupt ]}.

(** Two marketplace directories; the second one has no catalog file. *)
Definition disk_missing_catalog : Disk :=
  sampleDisk (Document (settingsOf None)) Absent
    ["good"; "bare"]
    {[ "good" := catalogOf [catalogEntry "alpha" None] ]}.

(** The installed-plugin registry is not valid JSON. *)
Definition disk_corrupt_registry : Disk :=
  sampleDisk (Document (settingsOf None)) Corrupt
    ["good"]
    {[ "good" := catalogOf [catalogEntry "alpha" None] ]}.

(** One catalog lists the name alpha twice. *)
Definition disk_duplicate_name : Disk :=
  sampleDisk (Document (settingsOf None)) Absent
    ["m"]
    {[ "m" := catalogOf [catalogEntry "alpha" None; catalogEntry "alpha" (Some "2.0.0")] ]}.

(** Two marketplaces without repeated names: a@b in c, and a in b@c. *)
Definition disk_at_sign : Disk :=
  sampleDisk (Document (settingsOf None)) Absent
    ["c"; "b@c"]
    {[ "c" := catalogOf [catalogEntry "a@b" None];
       "b@c" := catalogOf [catalogEntry "a" None] ]}.

(** Marketplace m offers alpha and beta; both are installed and enabled. *)
Definition disk_two_installed : Disk :=
  sampleDisk
    (Document (settingsOf (Some {[ "alpha@m" := true; "beta@m" := true ]})))
    (registryOf {[ "alpha@m" := [installation "1.0.0"]; "beta@m" := [installation "1.1.0"] ]})
    ["m"]
    {[ "m" := catalogOf [catalogEntry "alpha" None; catalogEntry "beta" None] ]}.

(** The same with an install-count cache: two entries for alpha@m, and between them one for
    beta@m with the highest count. *)
Definition disk_counted : Disk :=
  {| settings_json := settings_json disk_two_installed;
     installed_plugins_json := installed_plugins_json disk_two_installed;
     install_counts_cache_json :=
       Document {| icf_version := 1;
                   icf_fetchedAt := "2025-06-01T00:00:00.000Z";
                   icf_counts :=
                     Some [ {| ic_plugin := "alpha@m"; ic_unique_installs := 5 |};
                            {| ic_plugin := "beta@m"; ic_unique_installs := 9 |};
                            {| ic_plugin := "alpha@m"; ic_unique_installs := 7 |} ] |};
     known_marketplaces_json := known_marketplaces_json disk_two_installed;
     marketplaces_dir := marketplaces_dir disk_two_installed;
     marketplace_json := marketplace_json disk_two_installed;
     readOnly := false |}.

(** The same after [claude plugin uninstall beta@m]. *)
Definition disk_one_installed : Disk :=
  sampleDisk
    (Document (settingsOf (Some {[ "alpha@m" := true ]})))
    (registryOf {[ "alpha@m" := [installation "1.0.0"] ]})
    ["m"]
    {[ "m" := catalogOf [catalogEntry "alpha" None; catalogEntry "beta" None] ]}.

(** The registry has the key alpha@m, with no installation entry. *)
Definition disk_empty_entries : Disk :=
  sampleDisk (Document (settingsOf None))
    (registryOf {[ "alpha@m" := [] ]})
    ["m"]
    {[ "m" := catalogOf [catalogEntry "alpha" (Some "3.1.4")] ]}.

Definition record_alpha_314 : Plugin :=
  {| id := "alpha@m"; name := "alpha"; marketplace := "m"; description := "";
     version := "3.1.4"; installCount := 0; isInstalled := false; isEnabled := false;
     installedAt := None; lastUpdated := None; category := None; tags := None; author := None;
     homepage := None; isLocal := None; gitCommitSha := None |}.

(** A record installed at a given time. *)
Definition installedRecord (nm installedAt_ : string) : Plugin :=
  {| id := pluginId_of nm "m"; name := nm; marketplace := "m"; description := "";
     version := "1.0.0"; installCount := 0; isInstalled := true; isEnabled := false;
     installedAt := Some installedAt_; lastUpdated := Some installedAt_; category := None;
     tags := None; author := None; homepage := None; isLocal := Some false;
     gitCommitSha := Some "0a1b2c3" |}.

(** Eight installed plugins; the registry holds no date for the fifth; the sixth and the
    eighth were installed at the same time. *)
Definition records_one_bad_date : list Plugin :=
  [installedRecord "a" "2025-01-01"; installedRecord "b" "2025-01-02";
   installedRecord "c" "2025-01-03"; installedRecord "d" "2025-04-10";
   installedRecord "e" "not a date"; installedRecord "f" "2025-01-05";
   installedRecord "g" "2025-01-06"; installedRecord "h" "2025-01-05"].


(** A record with a category and tags. *)
Definition record_linter : Plugin :=
  {| id := "linter@m"; name := "linter"; marketplace := "m";
     description := "Checks the STYLE of the code"; version := "0.3.0"; installCount := 12;
     isInstalled := false; isEnabled := false; installedAt := None; lastUpdated := None;
     category := Some "Quality"; tags := Some ["lint"; "Format"]; author := None;
     homepage := None; isLocal := None; gitCommitSha := None |}.

(** A store with one array of four records; two of them were installed at the same time. *)
Definition dated_store : gmap nat (list Plugin) :=
  {[ 7%nat := [installedRecord "d" "2025-04-10"; installedRecord "f" "2025-01-05";
               installedRecord "h" "2025-01-05"; installedRecord "a" "2025-01-01"] ]}.

(** A store with one array, two records with the same install count. *)
Definition sample_store : gmap nat (list Plugin) :=
  {[ 7%nat := [record_alpha_314; record_context7] ]}.

Definition uninstalled_beta : PluginActionResult :=
  {| par_success := true; par_message := "Uninstalled beta@m"; par_error := None |}.

(** The dashboard starts, the user presses [u] on the first plugin: the dialog is open. *)
Definition session_confirming : Session :=
  run (initialSession disk_two_installed) [Mount; Input "u" plainKey].

(** ... and answers [y]: the uninstall is in flight. *)
Definition session_uninstalling : Session :=
  run (initialSession disk_two_installed) [Mount; Input "u" plainKey; Input "y" plainKey].

(** The dashboard starts and shows the list: nothing pending. *)
Definition session_navigating : Session :=
  run (initialSession disk_two_installed) [Mount].

(** Installed tab, cursor on the second plugin, uninstall it, confirm, the action succeeds. *)
Definition uninstall_last_of_two : list Event :=
  [ Mount;
    Input "" rightArrowKey;
    Input "" downArrowKey;
    Input "u" plainKey;
    Input "y" plainKey;
    Settled uninstalled_beta disk_one_installed ].

(* ===================================================================== *)
(** * services/pluginService.ts: the remaining loaders *)
(* ===================================================================== *)

Definition loadInstalledPlugins (d : Disk) : result (list Plugin) :=
  allPlugins ← loadAllPlugins d;
  Ok (List.filter isInstalled allPlugins).

Definition loadEnabledPlugins (d : Disk) : result (list Plugin) :=
  allPlugins ← loadAllPlugins d;
  Ok (List.filter isEnabled allPlugins).

(** [allPlugins.find ((p) => p.id === pluginId)] *)
Definition getPluginById (pluginId : string) (d : Disk) : result (option Plugin) :=
  allPlugins ← loadAllPlugins d;
  Ok (List.find (fun p => String.eqb (id p) pluginId) allPlugins).

Record PluginStatistics : Type := {
  stat_total : Z;
  stat_installed : Z;
  stat_enabled : Z;
  stat_marketplaces : Z }.

Definition getPluginStatistics (d : Disk) : result PluginStatistics :=
  allPlugins ← loadAllPlugins d;
  marketplaces ← loadMarketplaces d;
  Ok {| stat_total := Z.of_nat (length allPlugins);
        stat_installed := Z.of_nat (length (List.filter isInstalled allPlugins));
        stat_enabled := Z.of_nat (length (List.filter isEnabled allPlugins));
        stat_marketplaces := Z.of_nat (length marketplaces) |}.

(* ===================================================================== *)
(** * services/pluginActionsService.ts *)
(* ===================================================================== *)

(** How the child process ends: it closes with an exit code ([null] when a signal killed it)
    after writing to its two streams, or it could not be started. *)
Inductive ChildOutcome : Type :=
| ChildClosed (code : option Z) (stdout stderr : string)
| ChildError (message : string).

Definition verb_string (action : Verb) : string :=
  match action with install => "install" | uninstall => "uninstall" end.

(** `${code}` *)
Definition code_string (code : option Z) : string :=
  match code with Some n => pretty n | None => "null" end.

(** The value the promise of executePluginAction resolves to. *)
Definition executePluginAction (action : Verb) (pluginId : string) (o : ChildOutcome)
  : PluginActionResult :=
  match o with
  | ChildClosed code stdout stderr =>
      if bool_decide (code = Some 0) then
        {| par_success := true;
           par_message :=
             String.append (match action with install => "Installed" | uninstall => "Uninstalled" end)
               (String.append " " pluginId);
           par_error := None |}
      else
        {| par_success := false;
           par_message :=
             String.append "Failed to "
               (String.append (verb_string action) (String.append " " pluginId));
           par_error :=
             Some (if truthy stderr then stderr
                   else if truthy stdout then stdout
                   else String.append "Exit code: " (code_string code)) |}
  | ChildError message =>
      {| par_success := false;
         par_message := "Failed to execute claude command";
         par_error := Some message |}
  end.

Definition installPlugin (pluginId : string) (o : ChildOutcome) : PluginActionResult :=
  executePluginAction install pluginId o.

Definition uninstallPlugin (pluginId : string) (o : ChildOutcome) : PluginActionResult :=
  executePluginAction uninstall pluginId o.

(* ===================================================================== *)
(** * components/SortDropdown.tsx, components/PluginList.tsx *)
(* ===================================================================== *)

#[global] Instance SortBy_eq_dec : EqDecision SortBy.
Proof. solve_decision. Defined.

Definition sortOptions : list SortBy := [sort_installs; sort_name; sort_date].

(** getNextSort: [options[(options.indexOf (current) + 1) % options.length]!] *)
Definition getNextSort (current : SortBy) : SortBy :=
  let currentIndex := findIndex (fun o => bool_decide (o = current)) sortOptions in
  default sort_installs
    (at_index sortOptions (Z.rem (currentIndex + 1) (Z.of_nat (length sortOptions)))).

(** The bounds [slice (start, end)] works with: a negative index counts from the end. *)
Definition slice_bound (len i : Z) : Z :=
  if i <? 0 then Z.max (len + i) 0 else Z.min i len.

(** Array.prototype.slice *)
Definition array_slice {A} (l : list A) (start end_ : Z) : list A :=
  let len := Z.of_nat (length l) in
  let k := slice_bound len start in
  let final := slice_bound len end_ in
  take (Z.to_nat (final - k)) (drop (Z.to_nat k) l).

(** String.prototype.slice *)
Definition string_slice (s : string) (start end_ : Z) : string :=
  let len := Z.of_nat (String.length s) in
  let k := slice_bound len start in
  let final := slice_bound len end_ in
  String.substring (Z.to_nat k) (Z.to_nat (final - k)) s.

(** What PluginList draws of a non-empty list. *)
Record ListWindow : Type := {
  lw_startIndex : Z;
  lw_endIndex : Z;
  lw_visiblePlugins : list Plugin;
  lw_hasMore : bool;
  lw_hasPrevious : bool }.

(** The window computation of PluginList; [None] is the "No plugins found" screen. *)
Definition pluginListWindow (plugins : list Plugin) (selectedIndex visibleCount : Z)
  : option ListWindow :=
  if Z.of_nat (length plugins) =? 0 then None
  else
    let halfVisible := visibleCount / 2 in
    let startIndex0 := Z.max 0 (selectedIndex - halfVisible) in
    let endIndex := Z.min (Z.of_nat (length plugins)) (startIndex0 + visibleCount) in
    let startIndex :=
      if endIndex - startIndex0 <? visibleCount
      then Z.max 0 (endIndex - visibleCount)
      else startIndex0 in
    Some {| lw_startIndex := startIndex;
            lw_endIndex := endIndex;
            lw_visiblePlugins := array_slice plugins startIndex endIndex;
            lw_hasMore := endIndex <? Z.of_nat (length plugins);
            lw_hasPrevious := 0 <? startIndex |}.

(** The row of the window that is drawn selected ([actualIndex === selectedIndex]). *)
Definition rowSelected (w : ListWindow) (selectedIndex : Z) (index : nat) : bool :=
  lw_startIndex w + Z.of_nat index =? selectedIndex.

(** truncate (PluginList.tsx) *)
Definition truncate (text : string) (maxLength : Z) : string :=
  if Z.of_nat (String.length text) <=? maxLength then text
  else String.append (string_slice text 0 (maxLength - 3)) "...".

(* ===================================================================== *)
(** * cli.tsx: the enable, disable and toggle commands *)
(* ===================================================================== *)

Inductive ConsoleLine : Type :=
| console_log (text : string)
| console_error (text : string).

(** A finished command: what it printed, the disk it leaves, its exit status. *)
Record CommandRun : Type := {
  run_output : list ConsoleLine;
  run_disk : Disk;
  run_exit : Z }.

Definition failed (lines : list ConsoleLine) (d : Disk) : CommandRun :=
  {| run_output := lines; run_disk := d; run_exit := 1 |}.

Definition caught (e : exn) (d : Disk) : CommandRun :=
  failed [console_error (String.append "Error: " (exn_message e))] d.

Definition notFound (pluginId : string) (d : Disk) : CommandRun :=
  failed [console_error (String.append "Plugin not found: " pluginId)] d.

Definition notInstalled (pluginId : string) (d : Disk) : CommandRun :=
  failed [console_error (String.append "Plugin not installed: " pluginId);
          console_log "Install it first with: /plugin install in Claude Code"] d.

Definition handleEnable (pluginId : string) (d : Disk) : CommandRun :=
  match getPluginById pluginId d with
  | Err e => caught e d
  | Ok None => notFound pluginId d
  | Ok (Some plugin) =>
      if negb (isInstalled plugin) then notInstalled pluginId d
      else
        match enablePlugin pluginId d with
        | Err e => caught e d
        | Ok d' =>
            {| run_output := [console_log (String.append "‚úÖ " (String.append (name plugin) " enabled"))];
               run_disk := d';
               run_exit := 0 |}
        end
  end.

Definition handleDisable (pluginId : string) (d : Disk) : CommandRun :=
  match getPluginById pluginId d with
  | Err e => caught e d
  | Ok None => notFound pluginId d
  | Ok (Some plugin) =>
      match disablePlugin pluginId d with
      | Err e => caught e d
      | Ok d' =>
          {| run_output := [console_log (String.append "‚ùå " (String.append (name plugin) " disabled"))];
             run_disk := d';
             run_exit := 0 |}
      end
  end.

Definition handleToggle (pluginId : string) (d : Disk) : CommandRun :=
  match getPluginById pluginId d with
  | Err e => caught e d
  | Ok None => notFound pluginId d
  | Ok (Some plugin) =>
      if negb (isInstalled plugin) then notInstalled pluginId d
      else
        match togglePlugin pluginId d with
        | Err e => caught e d
        | Ok (newState, d') =>
            {| run_output :=
                 [console_log
                    (String.append (if newState then "‚úÖ" else "‚ùå")
                       (String.append " "
                          (String.append (name plugin)
                             (String.append " " (if newState then "enabled" else "disabled")))))];
               run_disk := d';
               run_exit := 0 |}
        end
  end.

(* ===================================================================== *)
(** * More vocabulary *)
(* ===================================================================== *)

(** The count the install-count cache gives a plugin id: that of the last entry naming it. *)
Definition cached_count (d : Disk) (pluginId : string) : option Z :=
  match install_counts_cache_json d with
  | Document f =>
      ic_unique_installs
        <$> last (List.filter (fun e => String.eqb (ic_plugin e) pluginId)
                    (default [] (icf_counts f)))
  | _ => None
  end.

(** The counts of the install-count cache are integers a double holds, which [JSON.parse]
    reads as they are written; every integer below 2^53 in magnitude is one. *)
Definition exact_counts (d : Disk) : Prop :=
  match install_counts_cache_json d with
  | Document f =>
      Forall (fun e => Number_of_integer (ic_unique_installs e) = Finite (ic_unique_installs e))
        (default [] (icf_counts f))
  | _ => True
  end.

(** The name a marketplace is shown under: the name its catalog states, if it has a catalog
    that states a non-empty one; its id otherwise. *)
Definition marketplace_title (d : Disk) (marketplaceId : string) : string :=
  match catalog_file d marketplaceId with
  | Document mf =>
      match mf_name mf with
      | Some n => if truthy n then n else marketplaceId
      | None => marketplaceId
      end
  | _ => marketplaceId
  end.

(** The record [loadMarketplaces] makes of one entry of known_marketplaces.json. *)
Definition describes (d : Disk) (known : string * KnownMarketplace) (m : Marketplace) : Prop :=
  mk_id m = known.1
  ∧ mk_name m = marketplace_title d known.1
  ∧ mk_source m = km_source known.2
  ∧ mk_installLocation m = km_installLocation known.2
  ∧ mk_lastUpdated m = km_lastUpdated known.2
  ∧ mk_pluginCount m = Some (Z.of_nat (length (catalog_names d known.1))).

(** Two known marketplaces: one with a catalog of two plugins, one without a catalog. *)
Definition sampleKnown : KnownMarketplacesFile :=
  [ ("bare", {| km_source := {| ms_source := source_git; ms_url := Some "https://example.org/bare.git";
                                ms_repo := None |};
                km_installLocation := "/plugins/marketplaces/bare";
                km_lastUpdated := "2025-01-03T00:00:00.000Z" |});
    ("m", {| km_source := {| ms_source := source_github; ms_url := None; ms_repo := Some "org/m" |};
             km_installLocation := "/plugins/marketplaces/m";
             km_lastUpdated := "2025-01-04T00:00:00.000Z" |}) ].

Definition disk_known : Disk :=
  {| settings_json := settings_json disk_two_installed;
     installed_plugins_json := installed_plugins_json disk_two_installed;
     install_counts_cache_json := install_counts_cache_json disk_two_installed;
     known_marketplaces_json := Document sampleKnown;
     marketplaces_dir := marketplaces_dir disk_two_installed;
     marketplace_json := marketplace_json disk_two_installed;
     readOnly := false |}.

(** The same, with a catalog of "bare" that is not valid JSON. *)
Definition disk_known_corrupt : Disk :=
  {| settings_json := settings_json disk_two_installed;
     installed_plugins_json := installed_plugins_json disk_two_installed;
     install_counts_cache_json := install_counts_cache_json disk_two_installed;
     known_marketplaces_json := Document sampleKnown;
     marketplaces_dir := marketplaces_dir disk_two_installed;
     marketplace_json := <["bare" := Corrupt]> (marketplace_json disk_two_installed);
     readOnly := false |}.

(** The optimistic patch of the reducer's TOGGLE_PLUGIN_ENABLED. *)
Definition patchEnabled (pluginId : string) (p : Plugin) : Plugin :=
  if String.eqb (id p) pluginId then set_isEnabled (negb (isEnabled p)) p else p.

(** A record with [isEnabled] set, if it is a record of the plugin id. *)
Definition withEnabled (pluginId : string) (v : bool) (p : Plugin) : Plugin :=
  if String.eqb (id p) pluginId then set_isEnabled v p else p.

Definition backspaceKey : Key :=
  {| key_upArrow := false; key_downArrow := false; key_leftArrow := false;
     key_rightArrow := false; key_return := false; key_escape := false; key_ctrl := false;
     key_tab := false; key_backspace := true; key_delete := false; key_meta := false |}.

(** The list in memory is what an aggregation pass over the disk returns. *)
Definition in_sync (s : Session) : Prop :=
  loadAllPlugins (disk s) = Ok (plugins (state s)).

(** The list in non-increasing order of [key]. *)
Definition descending {A} (key : A → Z) (l : list A) : Prop :=
  ∀ (i j : nat) (a b : A), l !! i = Some a → l !! j = Some b → (i < j)%nat → key b ≤ key a.

Definition ascending {A} (key : A → Z) (l : list A) : Prop :=
  ∀ (i j : nat) (a b : A), l !! i = Some a → l !! j = Some b → (i < j)%nat → key a ≤ key b.

(** The key [sortPlugins] orders by, for the two numeric sort fields. *)
Definition numericKey `{JsRuntime} (by_ : SortBy) (p : Plugin) : Z :=
  match by_ with
  | sort_date => default 0 (installedTime p)
  | _ => installCount p
  end.

(** [sub] occurs in [s]: some characters, then [sub], then the rest. *)
Definition occurs_in (sub s : string) : Prop :=
  ∃ before after, s = String.append before (String.append sub after).

(** The texts of a record that a search looks into: name, description, marketplace, the
    category if there is one, and the tags. *)
Definition searchable (p : Plugin) : list string :=
  name p :: description p :: marketplace p
  :: option_list (category p) ++ default [] (tags p).

(** What [JSON.stringify] prints for the value [JSON.parse] reads from a text. *)
Definition JSON_rewrite (text : json Z) : json Z := JSON_stringify (JSON_parse text).

(** The keys of settings.json other than [enabledPlugins], once the document has been read and
    written back. *)
Definition rewritten (keys : list (string * json Z)) : list (string * json Z) :=
  map (fun '(k, v) => (k, JSON_rewrite v)) keys.



(** [comparefn] is a consistent comparator for the elements of [l], in ECMAScript's words. *)
Definition consistent {A} (comparefn : A → A → option Z) (l : list A) : Prop :=
  ∀ a b c, a ∈ l → b ∈ l → c ∈ l →
    let v := SortCompare comparefn in
    is_Some (comparefn a b)
    ∧ v a a = 0
    ∧ (v a b = 0 → v b a = 0)
    ∧ (v a b = 0 → v b c = 0 → v a c = 0)
    ∧ (v a b < 0 → v b c < 0 → v a c < 0)
    ∧ (0 < v a b → 0 < v b c → 0 < v a c).

(** The records can be sorted by the key: every installation date that the key date reads
    is a date, and [localeCompare] is, on the names that the key name compares, the consistent
    comparator ECMAScript requires it to be. *)
Definition sortable `{JsRuntime} (by_ : SortBy) (l : list Plugin) : Prop :=
  match by_ with
  | sort_installs => True
  | sort_name => consistent (fun a b => Some (localeCompare a b)) (name <$> l)
  | sort_date => Forall (fun p => is_Some (installedTime p)) l
  end.

(** What holds of every session the dashboard can be in: the confirmation dialog is only open
    while nothing is in flight, for a plugin id, outside search mode; plugin ids are not empty. *)
Definition session_ok (s : Session) : Prop :=
  (confirmUninstall (state s) = true →
   operation (state s) = idle
   ∧ truthy_opt (operationPluginId (state s)) = true
   ∧ isSearchMode s = false)
  ∧ Forall (fun p => truthy (id p) = true) (plugins (state s)).

(** The documents of a disk other than settings.json. *)
Definition other_documents (d : Disk) :=
  (installed_plugins_json d, install_counts_cache_json d, known_marketplaces_json d,
   marketplaces_dir d, marketplace_json d, readOnly d).



(** The disk is only written by toggling the installed plugin under the cursor. *)
Definition only_toggle_writes `{JsRuntime} (s : Session) (input : string) (key : Key)
  (s' : Session) : Prop :=
  disk s' = disk s
  ∨ ∃ p newState,
      (input = " " ∨ key_return key = true)
      ∧ selectedPlugin (state s) = Some p ∧ isInstalled p = true
      ∧ togglePlugin (id p) (disk s) = Ok (newState, disk s')
      ∧ other_documents (disk s') = other_documents (disk s).

Definition keeps_sync (s s' : Session) : Prop := in_sync s → in_sync s'.

Definition keeps_selection `{JsRuntime} (s s' : Session) : Prop :=
  selection_in_range (state s) → selection_in_range (state s').

Definition keeps_ok (s s' : Session) : Prop := session_ok s → session_ok s'.

(* ===================================================================== *)
(** * Array.prototype.sort: permutation *)
(* ===================================================================== *)

Lemma sort_insert_Permutation {A} (cmp : A → A → Z) (x : A) (l : list A) :
  sort_insert cmp x l ≡ₚ x :: l.
Proof.
  induction l as [|y l IH]; simpl; [done|].
  destruct (0 <? cmp x y); [|done].
  rewrite IH. apply perm_swap.
Qed.

Lemma array_sort_Permutation {A} (cmp : A → A → Z) (l : list A) :
  array_sort cmp l ≡ₚ l.
Proof.
  induction l as [|x l IH]; simpl; [done|].
  rewrite sort_insert_Permutation. by rewrite IH.
Qed.

Lemma array_sort_length {A} (cmp : A → A → Z) (l : list A) :
  length (array_sort cmp l) = length l.
Proof. apply Permutation_length, array_sort_Permutation. Qed.

(* ===================================================================== *)
(** * Aggregation: what a successful pass returns *)
(* ===================================================================== *)

Lemma readJsonFile_Ok {T} (p : path) (f : file T) (o : option T) :
  readJsonFile p f = Ok o → o = file_document f ∧ is_corrupt f = false.
Proof. destruct f; simpl; intros [=]; by subst. Qed.

Lemma readJsonFile_sound {T} (p : path) (f : file T) :
  is_corrupt f = false → readJsonFile p f = Ok (file_document f).
Proof. by destruct f. Qed.

Lemma scanMarketplaces_app d im cm en ms1 ms2 acc :
  scanMarketplaces d im cm en (ms1 ++ ms2) acc
  = scanMarketplaces d im cm en ms1 acc ≫= scanMarketplaces d im cm en ms2.
Proof.
  revert acc. induction ms1 as [|m ms1 IH]; intros acc; simpl; [done|].
  destruct (readJsonFile _ _); simpl; [apply IH | done].
Qed.

Lemma scanMarketplaces_Ok d im cm en ms acc r :
  scanMarketplaces d im cm en ms acc = Ok r →
  r = acc ++ flat_map
               (fun m => manifestRecords im cm en m (file_document (catalog_file d m))) ms.
Proof.
  revert acc. induction ms as [|m ms IH]; intros acc; simpl.
  - intros [= <-]. by rewrite app_nil_r.
  - destruct (readJsonFile _ _) as [o|] eqn:Hread; simpl; [|done].
    apply readJsonFile_Ok in Hread as [-> _].
    intros Hr. rewrite (IH _ Hr). by rewrite <- app_assoc.
Qed.

Lemma scanMarketplaces_corrupt d im cm en ms acc m :
  m ∈ ms → catalog_file d m = Corrupt →
  ∃ m', m' ∈ ms ∧ catalog_file d m' = Corrupt
        ∧ scanMarketplaces d im cm en ms acc = Err (InvalidJson (getMarketplaceJsonPath m')).
Proof.
  intros Hin Hm. revert acc.
  induction ms as [|m0 ms IH]; intros acc; [by apply elem_of_nil in Hin|].
  simpl. destruct (catalog_file d m0) eqn:Hm0; simpl.
  - apply elem_of_cons in Hin as [->|Hin]; [congruence|].
    destruct (IH Hin (acc ++ manifestRecords im cm en m0 None)) as (m' & ? & ? & ?).
    exists m'. split_and!; [by apply elem_of_cons; right | done | done].
  - exists m0. split_and!; [by apply elem_of_cons; left | done | done].
  - apply elem_of_cons in Hin as [->|Hin]; [congruence|].
    destruct (IH Hin (acc ++ manifestRecords im cm en m0 (Some a))) as (m' & ? & ? & ?).
    exists m'. split_and!; [by apply elem_of_cons; right | done | done].
Qed.

(** A pass that returns has read a settings document, and returns a rearrangement of the
    records of the listed marketplaces. *)
Lemma loadAllPlugins_Ok d ps :
  loadAllPlugins d = Ok ps →
  ∃ s, settings_json d = Document s
       ∧ ps ≡ₚ flat_map
                 (fun m => manifestRecords (installedMap_of d) (countsMap_of d)
                             (default ∅ (enabledPlugins s)) m
                             (file_document (catalog_file d m)))
                 (listDirectories_marketplaces d).
Proof.
  unfold loadAllPlugins, installedMap_of, countsMap_of.
  destruct (readJsonFile _ (installed_plugins_json d)) as [i|] eqn:Hi; simpl; [|done].
  destruct (readJsonFile _ (install_counts_cache_json d)) as [c|] eqn:Hc; simpl; [|done].
  apply readJsonFile_Ok in Hi as [-> _]. apply readJsonFile_Ok in Hc as [-> _].
  unfold getEnabledPlugins, readSettings.
  destruct (settings_json d) as [| |s] eqn:Hs; simpl; [done|done|].
  unfold directoryExists_marketplaces, listDirectories_marketplaces.
  destruct (marketplaces_dir d) as [l|]; simpl.
  - destruct (scanMarketplaces _ _ _ _ _ _) as [r|] eqn:Hscan; simpl; [|done].
    intros [= <-]. exists s. split; [done|].
    apply scanMarketplaces_Ok in Hscan as ->. simpl.
    apply array_sort_Permutation.
  - intros [= <-]. exists s. split; [done|]. done.
Qed.

(** Every record of a pass is the record of an entry of the catalog of a listed marketplace. *)
Lemma loadAllPlugins_elem d ps r :
  loadAllPlugins d = Ok ps → r ∈ ps →
  ∃ s m mf es e,
    settings_json d = Document s
    ∧ m ∈ listDirectories_marketplaces d
    ∧ catalog_file d m = Document mf
    ∧ mf_plugins mf = Some es
    ∧ e ∈ es
    ∧ r = pluginRecord (installedMap_of d) (countsMap_of d) (default ∅ (enabledPlugins s)) m e.
Proof.
  intros Hload Hr. apply loadAllPlugins_Ok in Hload as (s & Hs & Hperm).
  rewrite Hperm in Hr. apply list_elem_of_In, in_flat_map in Hr as (m & Hm & Hr).
  apply list_elem_of_In in Hm. unfold manifestRecords in Hr.
  destruct (catalog_file d m) as [| |mf] eqn:Hmf; simpl in Hr; [done|done|].
  destruct (mf_plugins mf) as [es|] eqn:Hes; [|done].
  apply in_map_iff in Hr as (e & <- & He). apply list_elem_of_In in He.
  by exists s, m, mf, es, e.
Qed.

Lemma installedMap_of_lookup d pluginId :
  installedMap_of d !! pluginId = registry_entries d pluginId ≫= head.
Proof.
  unfold installedMap_of, registry_entries, build_installedMap.
  destruct (installed_plugins_json d) as [| |f]; simpl; try apply lookup_empty.
  destruct (ipf_plugins f) as [ps|]; simpl; [|apply lookup_empty].
  apply lookup_omap.
Qed.

Lemma enabled_in_settings_Document d s pluginId :
  settings_json d = Document s →
  enabled_in_settings d pluginId = default false (default ∅ (enabledPlugins s) !! pluginId).
Proof. unfold enabled_in_settings. by intros ->. Qed.

(* ===================================================================== *)
(** * Aggregation: installed and enabled flags (C1, C10) *)
(* ===================================================================== *)

(** C1, as the specification states it, fails: context7 is in the catalog of
    claude-plugins-official and has no entry in the installed-plugin registry, the settings
    document maps its id to [true], and the record of the pass has [isEnabled = true]. *)
Lemma C1_counterexample :
  loadAllPlugins disk_enabled_not_installed = Ok [record_context7]
  ∧ registry_entries disk_enabled_not_installed (id record_context7) = None
  ∧ ¬ (isInstalled record_context7 = false ∧ isEnabled record_context7 = false).
Proof.
  split_and!; [by vm_compute | by vm_compute |].
  intros [_ Hen]. discriminate Hen.
Qed.

(** C1 (amended): for every plugin id that appears in some marketplace catalog but has no entry
    in the installed-plugin registry, the record produced by [loadAllPlugins] has
    [isInstalled = false], and its [isEnabled] is the value the enabled-state map of the
    settings document holds for that id ([false] when it holds none). *)
Theorem C1_not_installed_record d ps r :
  loadAllPlugins d = Ok ps → r ∈ ps → registry_entries d (id r) = None →
  isInstalled r = false ∧ isEnabled r = enabled_in_settings d (id r).
Proof.
  intros Hload Hr Hreg.
  destruct (loadAllPlugins_elem _ _ _ Hload Hr) as (s & m & mf & es & e & Hs & _ & _ & _ & _ & ->).
  simpl in *. split.
  - by rewrite installedMap_of_lookup, Hreg.
  - by rewrite (enabled_in_settings_Document _ _ _ Hs).
Qed.

Lemma C1_not_installed_record_witness :
  isInstalled record_context7 = false
  ∧ isEnabled record_context7
    = enabled_in_settings disk_enabled_not_installed (id record_context7).
Proof.
  apply (C1_not_installed_record disk_enabled_not_installed [record_context7] record_context7).
  - vm_compute. reflexivity.
  - apply list_elem_of_singleton. reflexivity.
  - vm_compute. reflexivity.
Defined.

(** C10: if the installed-plugin registry maps a plugin id to an empty sequence of installation
    entries, the record of that id (when a catalog lists it) has [isInstalled = false], no
    [installedAt], [lastUpdated] or [gitCommitSha], and the version of its catalog entry, or
    ["unknown"] when the entry states none. *)
Theorem C10_empty_entries_not_installed d ps r :
  loadAllPlugins d = Ok ps → r ∈ ps → registry_entries d (id r) = Some [] →
  isInstalled r = false
  ∧ installedAt r = None ∧ lastUpdated r = None ∧ gitCommitSha r = None
  ∧ ∃ mf es e,
      catalog_file d (marketplace r) = Document mf ∧ mf_plugins mf = Some es ∧ e ∈ es
      ∧ mpe_name e = name r
      ∧ version r = catalog_version_or_unknown e.
Proof.
  intros Hload Hr Hreg.
  destruct (loadAllPlugins_elem _ _ _ Hload Hr)
    as (s & m & mf & es & e & Hs & _ & Hmf & Hes & He & ->).
  simpl in *.
  assert (Hnone : installedMap_of d !! pluginId_of (mpe_name e) m = None)
    by (by rewrite installedMap_of_lookup, Hreg).
  rewrite Hnone. simpl. split_and!; try done.
  exists mf, es, e. split_and!; try done.
    unfold catalog_version_or_unknown, or_string.
    destruct (mpe_version e) as [v|]; [|done]. by destruct (truthy v).
Qed.

Lemma C10_empty_entries_not_installed_witness :
  isInstalled record_alpha_314 = false
  ∧ installedAt record_alpha_314 = None ∧ lastUpdated record_alpha_314 = None
  ∧ gitCommitSha record_alpha_314 = None
  ∧ ∃ mf es e,
      catalog_file disk_empty_entries (marketplace record_alpha_314) = Document mf
      ∧ mf_plugins mf = Some es ∧ e ∈ es
      ∧ mpe_name e = name record_alpha_314
      ∧ version record_alpha_314 = catalog_version_or_unknown e.
Proof.
  apply (C10_empty_entries_not_installed disk_empty_entries [record_alpha_314]).
  - vm_compute. reflexivity.
  - apply list_elem_of_singleton. reflexivity.
  - vm_compute. reflexivity.
Defined.

(* ===================================================================== *)
(** * Aggregation: error policy (C2) *)
(* ===================================================================== *)

(** C2, as the specification states it, fails: the registry, the count cache and the settings
    document are fine, the marketplace "good" has a catalog, the catalog of "broken" is not
    valid JSON, and the pass throws instead of returning the record of "good". *)
Lemma C2_counterexample :
  is_corrupt (installed_plugins_json disk_corrupt_catalog) = false
  ∧ is_corrupt (install_counts_cache_json disk_corrupt_catalog) = false
  ∧ is_corrupt (settings_json disk_corrupt_catalog) = false
  ∧ listDirectories_marketplaces disk_corrupt_catalog = ["good"; "broken"]
  ∧ catalog_file disk_corrupt_catalog "broken" = Corrupt
  ∧ loadAllPlugins disk_corrupt_catalog = Err (InvalidJson (getMarketplaceJsonPath "broken"))
  ∧ ¬ (∃ ps, loadAllPlugins disk_corrupt_catalog = Ok ps).
Proof.
  split_and!; try by vm_compute.
  intros [ps Hps]. vm_compute in Hps. discriminate Hps.
Qed.

Lemma scanMarketplaces_with_marketplaces_dir d l im cm en ms acc :
  scanMarketplaces (with_marketplaces_dir l d) im cm en ms acc
  = scanMarketplaces d im cm en ms acc.
Proof.
  revert acc. induction ms as [|m ms IH]; intros acc; simpl; [done|].
  change (catalog_file (with_marketplaces_dir l d) m) with (catalog_file d m).
  destruct (readJsonFile _ (catalog_file d m)); simpl; [apply IH | done].
Qed.

(** C2 (amended): during an aggregation pass, a malformed installed-plugin registry, count
    cache or settings document makes the pass fail with a malformed-document error naming one
    of them; a marketplace whose catalog is missing contributes no record and the pass returns
    what it returns without that marketplace; a marketplace whose catalog is malformed makes
    the pass fail with a malformed-document error naming a malformed catalog. *)
Theorem C2_error_policy (d : Disk) :
  (is_corrupt (installed_plugins_json d) || is_corrupt (install_counts_cache_json d)
   || is_corrupt (settings_json d) = true →
   ∃ p, (p = PATHS_installedPlugins ∨ p = PATHS_installCountsCache ∨ p = PATHS_settings)
        ∧ loadAllPlugins d = Err (InvalidJson p))
  ∧ (∀ pre m post,
       marketplaces_dir d = Some (pre ++ m :: post) → catalog_file d m = Absent →
       loadAllPlugins d = loadAllPlugins (with_marketplaces_dir (Some (pre ++ post)) d))
  ∧ (∀ m s,
       is_corrupt (installed_plugins_json d) = false →
       is_corrupt (install_counts_cache_json d) = false →
       settings_json d = Document s →
       m ∈ listDirectories_marketplaces d → catalog_file d m = Corrupt →
       ∃ m', m' ∈ listDirectories_marketplaces d ∧ catalog_file d m' = Corrupt
             ∧ loadAllPlugins d = Err (InvalidJson (getMarketplaceJsonPath m'))).
Proof.
  split_and!.
  - intros Hc. unfold loadAllPlugins, getEnabledPlugins, readSettings.
    destruct (installed_plugins_json d), (install_counts_cache_json d), (settings_json d);
      simpl in *; try done; eauto 6.
  - intros pre m post Hdir Hm.
    unfold loadAllPlugins, directoryExists_marketplaces, listDirectories_marketplaces.
    simpl. rewrite Hdir.
    destruct (readJsonFile _ (installed_plugins_json d)) as [i|]; simpl; [|done].
    destruct (readJsonFile _ (install_counts_cache_json d)) as [c|]; simpl; [|done].
    unfold getEnabledPlugins, readSettings. simpl.
    destruct (readJsonFile _ (settings_json d)) as [[s|]|]; simpl; try done.
    rewrite scanMarketplaces_with_marketplaces_dir.
    rewrite !scanMarketplaces_app. simpl.
    destruct (scanMarketplaces d _ _ _ pre []) as [acc|]; simpl; [|done].
    rewrite Hm. simpl. unfold manifestRecords. by rewrite app_nil_r.
  - intros m s Hi Hc Hs Hin Hm.
    unfold listDirectories_marketplaces in *.
    destruct (marketplaces_dir d) as [l|] eqn:Hdir; [|by apply elem_of_nil in Hin].
    destruct (scanMarketplaces_corrupt d (installedMap_of d) (countsMap_of d)
                (default ∅ (enabledPlugins s)) l [] m Hin Hm) as (m' & Hin' & Hm' & Hscan).
    exists m'. split_and!; [done|done|].
    unfold loadAllPlugins, directoryExists_marketplaces, listDirectories_marketplaces,
      getEnabledPlugins, readSettings.
    rewrite Hdir, Hs, (readJsonFile_sound _ _ Hi), (readJsonFile_sound _ _ Hc). simpl.
    unfold installedMap_of, countsMap_of in Hscan. by rewrite Hscan.
Qed.

Lemma C2_error_policy_witness :
  (∃ p, (p = PATHS_installedPlugins ∨ p = PATHS_installCountsCache ∨ p = PATHS_settings)
        ∧ loadAllPlugins disk_corrupt_registry = Err (InvalidJson p))
  ∧ loadAllPlugins disk_missing_catalog
    = loadAllPlugins (with_marketplaces_dir (Some (["good"] ++ [])) disk_missing_catalog)
  ∧ (∃ m', m' ∈ listDirectories_marketplaces disk_corrupt_catalog
           ∧ catalog_file disk_corrupt_catalog m' = Corrupt
           ∧ loadAllPlugins disk_corrupt_catalog
             = Err (InvalidJson (getMarketplaceJsonPath m'))).
Proof.
  split_and!.
  - apply (proj1 (C2_error_policy disk_corrupt_registry)). reflexivity.
  - apply (proj1 (proj2 (C2_error_policy disk_missing_catalog)) ["good"] "bare" []);
      reflexivity.
  - apply (proj2 (proj2 (C2_error_policy disk_corrupt_catalog)) "broken" (settingsOf None));
      try reflexivity.
    apply list_elem_of_In. simpl. auto.
Defined.

(* ===================================================================== *)
(** * Aggregation: composite ids (C5) *)
(* ===================================================================== *)

(** C5, as the specification states it, fails: a catalog that lists the name alpha twice gives
    two different records with the same id. *)
Lemma C5_counterexample :
  match loadAllPlugins disk_duplicate_name with
  | Ok [r1; r2] =>
      version r1 = "unknown" ∧ version r2 = "2.0.0" ∧ r1 ≠ r2
      ∧ id r1 = "alpha@m" ∧ id r2 = "alpha@m"
  | _ => False
  end.
Proof. vm_compute. split_and!; try reflexivity. intros [=]. Qed.

(** Without repeated names two records can still share an id, through an at sign in a plugin
    name and in a marketplace id. *)
Lemma at_sign_collision :
  NoDup (listDirectories_marketplaces disk_at_sign)
  ∧ (∀ m, m ∈ listDirectories_marketplaces disk_at_sign → NoDup (catalog_names disk_at_sign m))
  ∧ match loadAllPlugins disk_at_sign with
    | Ok [r1; r2] =>
        marketplace r1 = "c" ∧ marketplace r2 = "b@c" ∧ id r1 = "a@b@c" ∧ id r2 = "a@b@c"
    | _ => False
    end.
Proof.
  split_and!.
  - apply NoDup_cons. split; [|apply NoDup_singleton].
    intros Hin. apply list_elem_of_singleton in Hin. discriminate Hin.
  - intros m Hm. apply elem_of_cons in Hm as [->|Hm];
      [|apply list_elem_of_singleton in Hm as ->]; apply NoDup_singleton.
  - vm_compute. split_and!; reflexivity.
Qed.

Lemma append_empty (b : string) : String.append "" b = b.
Proof. reflexivity. Qed.

Lemma append_String (c : ascii) (a b : string) :
  String.append (String c a) b = String c (String.append a b).
Proof. reflexivity. Qed.

Lemma has_at_append a b : has_at (String.append a (String "@" b)) = true.
Proof.
  induction a as [|c a IH]; [reflexivity|].
  rewrite append_String. simpl. rewrite IH. apply orb_true_r.
Qed.

Lemma pluginId_of_inj_names n m n' m' :
  has_at n = false → has_at n' = false →
  pluginId_of n m = pluginId_of n' m' → n = n' ∧ m = m'.
Proof.
  unfold pluginId_of. revert n'.
  induction n as [|c n IH]; intros [|c' n'] Hn Hn';
    rewrite ?append_empty, ?append_String, ?append_empty; simpl in *.
  - by intros [= ->].
  - intros [= <- _]. apply orb_false_iff in Hn' as [Hc _]. by vm_compute in Hc.
  - intros [= -> _]. apply orb_false_iff in Hn as [Hc _]. by vm_compute in Hc.
  - intros [= -> Heq]. apply orb_false_iff in Hn as [_ Hn]. apply orb_false_iff in Hn' as [_ Hn'].
    destruct (IH n' Hn Hn' Heq) as [-> ->]. done.
Qed.

Lemma pluginId_of_inj_marketplaces n m n' m' :
  has_at m = false → has_at m' = false →
  pluginId_of n m = pluginId_of n' m' → n = n' ∧ m = m'.
Proof.
  unfold pluginId_of. intros Hm Hm'. revert n'.
  induction n as [|c n IH]; intros [|c' n'];
    rewrite ?append_empty, ?append_String, ?append_empty.
  - by intros [= ->].
  - intros [= _ ->]. by rewrite has_at_append in Hm.
  - intros [= _ <-]. by rewrite has_at_append in Hm'.
  - intros [= -> Heq]. destruct (IH n' Heq) as [-> ->]. done.
Qed.

Lemma NoDup_flat_map {A B} (f : A → list B) (l : list A) :
  NoDup l → (∀ x, x ∈ l → NoDup (f x)) →
  (∀ x y b, x ∈ l → y ∈ l → b ∈ f x → b ∈ f y → x = y) →
  NoDup (flat_map f l).
Proof.
  induction 1 as [|x l Hx Hl IH]; intros Hf Hdisj; simpl; [constructor|].
  apply NoDup_app. split_and!.
  - apply Hf. by left.
  - intros b Hb Hb'. apply list_elem_of_In, in_flat_map in Hb' as (y & Hy & Hby).
    apply list_elem_of_In in Hy. apply list_elem_of_In in Hby.
    assert (x = y) as -> by (eapply Hdisj; eauto; [by left | by right]).
    done.
  - apply IH.
    + intros y Hy. apply Hf. by right.
    + intros y z b Hy Hz. apply Hdisj; by right.
Qed.

(** The ids of the records of a pass, marketplace by marketplace. *)
Lemma manifestRecords_ids d im cm en m :
  map id (manifestRecords im cm en m (file_document (catalog_file d m)))
  = map (fun n => pluginId_of n m) (catalog_names d m).
Proof.
  unfold manifestRecords, catalog_names.
  destruct (catalog_file d m) as [| |mf]; simpl; [done|done|].
  destruct (mf_plugins mf) as [es|]; simpl; [|done].
  rewrite !map_map. done.
Qed.

Lemma map_flat_map {A B C} (g : B → C) (f : A → list B) (l : list A) :
  map g (flat_map f l) = flat_map (fun x => map g (f x)) l.
Proof. induction l as [|x l IH]; simpl; [done|]. by rewrite map_app, IH. Qed.

(** C5 (amended): when the marketplace directories have distinct names, no catalog lists a
    plugin name twice, and either no marketplace id or no plugin name has an at sign in it,
    any two records at different positions of the sequence [loadAllPlugins] returns have
    different ids. *)
Theorem C5_ids_unique d ps :
  loadAllPlugins d = Ok ps →
  NoDup (listDirectories_marketplaces d) →
  (∀ m, m ∈ listDirectories_marketplaces d → NoDup (catalog_names d m)) →
  ((∀ m, m ∈ listDirectories_marketplaces d → has_at m = false)
   ∨ (∀ m n, m ∈ listDirectories_marketplaces d → n ∈ catalog_names d m → has_at n = false)) →
  ∀ (i j : nat) r1 r2, ps !! i = Some r1 → ps !! j = Some r2 → i ≠ j → id r1 ≠ id r2.
Proof.
  intros Hload Hdirs Hnames Hat.
  apply loadAllPlugins_Ok in Hload as (s & _ & Hperm).
  assert (Hnodup : NoDup (map id ps)).
  { rewrite Hperm, map_flat_map.
    erewrite flat_map_ext; [|intros m; apply manifestRecords_ids].
    apply NoDup_flat_map; [done| |].
    - intros m Hm. change (NoDup ((fun n => pluginId_of n m) <$> catalog_names d m)).
      apply NoDup_fmap_2_strong; [|apply Hnames, Hm].
      intros n n' Hn Hn' Heq.
      destruct Hat as [Hat|Hat].
      + by destruct (pluginId_of_inj_marketplaces _ _ _ _ (Hat m Hm) (Hat m Hm) Heq).
      + by destruct (pluginId_of_inj_names _ _ _ _ (Hat m n Hm Hn) (Hat m n' Hm Hn') Heq).
    - intros m m' b Hm Hm' Hb Hb'.
      apply list_elem_of_In, in_map_iff in Hb as (n & <- & Hn).
      apply list_elem_of_In, in_map_iff in Hb' as (n' & Heq & Hn').
      apply list_elem_of_In in Hn, Hn'.
      destruct Hat as [Hat|Hat].
      + by destruct (pluginId_of_inj_marketplaces _ _ _ _ (Hat m' Hm') (Hat m Hm) Heq).
      + by destruct (pluginId_of_inj_names _ _ _ _ (Hat m' n' Hm' Hn') (Hat m n Hm Hn) Heq). }
  intros i j r1 r2 Hi Hj Hij Heq. apply Hij.
  eapply (NoDup_lookup (map id ps) i j (id r1)); [done| |].
  - change (map id ps) with (id <$> ps). by rewrite list_lookup_fmap, Hi.
  - change (map id ps) with (id <$> ps). by rewrite list_lookup_fmap, Hj, Heq.
Qed.

Lemma C5_ids_unique_witness :
  ∃ ps, loadAllPlugins disk_two_installed = Ok ps
        ∧ ∀ (i j : nat) r1 r2, ps !! i = Some r1 → ps !! j = Some r2 → i ≠ j → id r1 ≠ id r2.
Proof.
  eexists. split; [vm_compute; reflexivity|].
  apply (C5_ids_unique disk_two_installed).
  - vm_compute. reflexivity.
  - apply NoDup_singleton.
  - intros m Hm. apply list_elem_of_singleton in Hm as ->.
    apply NoDup_cons. split; [|apply NoDup_singleton].
    intros Hin. apply list_elem_of_singleton in Hin. discriminate Hin.
  - left. intros m Hm. apply list_elem_of_singleton in Hm as ->. reflexivity.
Defined.

(* ===================================================================== *)
(** * Query layer: sortPlugins (C8) *)
(* ===================================================================== *)

Section Stability.
Context {A : Type} (cmp : A → A → Z).

Lemma sort_insert_sublist (x : A) (l : list A) : l `sublist_of` sort_insert cmp x l.
Proof.
  induction l as [|y l IH]; simpl; [apply sublist_nil_l|].
  destruct (0 <? cmp x y); [by apply sublist_skip | by apply sublist_cons].
Qed.

(** The inserted element stays in front of every element it does not compare greater than. *)
Lemma sort_insert_front (x y : A) (l : list A) :
  y ∈ l → cmp x y = 0 → [x; y] `sublist_of` sort_insert cmp x l.
Proof.
  intros Hy Hxy. induction l as [|z l IH]; simpl; [by apply elem_of_nil in Hy|].
  destruct (0 <? cmp x z) eqn:Hlt.
  - apply sublist_cons, IH. apply elem_of_cons in Hy as [->|Hy]; [|done].
    apply Z.ltb_lt in Hlt. lia.
  - by apply sublist_skip, singleton_sublist_l.
Qed.

Lemma array_sort_keeps_order (a b : A) (l : list A) :
  [a; b] `sublist_of` l → cmp a b = 0 → [a; b] `sublist_of` array_sort cmp l.
Proof.
  intros Hsub Hab. induction l as [|x l IH]; simpl; [by apply sublist_nil_r in Hsub|].
  apply sublist_cons_r in Hsub as [Hsub|(l' & [= <- <-] & Hb)].
  - etransitivity; [apply IH, Hsub | apply sort_insert_sublist].
  - apply sort_insert_front; [|done].
    rewrite array_sort_Permutation. by apply singleton_sublist_l.
Qed.

End Stability.

Lemma sort_insert_map {A B} (f : A → B) (cmp : B → B → Z) (x : A) (l : list A) :
  f <$> sort_insert (fun u v => cmp (f u) (f v)) x l = sort_insert cmp (f x) (f <$> l).
Proof.
  induction l as [|y l IH]; [done|].
  rewrite fmap_cons. cbn [sort_insert].
  destruct (0 <? cmp (f x) (f y)); rewrite !fmap_cons; [by rewrite IH | done].
Qed.

Lemma array_sort_map {A B} (f : A → B) (cmp : B → B → Z) (l : list A) :
  f <$> array_sort (fun u v => cmp (f u) (f v)) l = array_sort cmp (f <$> l).
Proof.
  unfold array_sort. induction l as [|x l IH]; [done|].
  rewrite fmap_cons. cbn [foldr]. by rewrite sort_insert_map, IH.
Qed.

Lemma lookup_pair_sublist {A} (l : list A) (i j : nat) (x y : A) :
  l !! i = Some x → l !! j = Some y → (i < j)%nat → [x; y] `sublist_of` l.
Proof.
  revert i j. induction l as [|z l IH]; intros i j Hi Hj Hij; [done|].
  destruct j as [|j]; [lia|]. simpl in Hj.
  destruct i as [|i]; simpl in Hi.
  - injection Hi as ->. apply sublist_skip, singleton_sublist_l.
    by eapply list_elem_of_lookup_2.
  - apply sublist_cons. eapply (IH i j); [done|done|lia].
Qed.

Lemma sublist_pair_positions {A} (l : list A) (k1 k2 : nat) (x y : A) :
  NoDup l → [x; y] `sublist_of` l → l !! k1 = Some x → l !! k2 = Some y → (k1 < k2)%nat.
Proof.
  intros Hnd Hsub. revert k1 k2.
  induction Hnd as [|z l Hz Hnd IH]; intros k1 k2 H1 H2; [done|].
  apply sublist_cons_r in Hsub as [Hsub|(l' & [= <- <-] & Hy)].
  - assert (x ∈ l) by (eapply elem_of_sublist; [|done]; by left).
    assert (y ∈ l) by (eapply elem_of_sublist; [|done]; right; by left).
    destruct k1 as [|k1]; [simpl in H1; by simplify_eq|].
    destruct k2 as [|k2]; [simpl in H2; by simplify_eq|].
    simpl in *. specialize (IH Hsub k1 k2 H1 H2). lia.
  - apply singleton_sublist_l in Hy.
    destruct k2 as [|k2]; [simpl in H2; by simplify_eq|].
    destruct k1 as [|k1]; [lia|]. simpl in H1.
    apply list_elem_of_lookup_2 in H1. done.
Qed.

Lemma imap_pair_fst {A} (l : list A) : (imap pair l).*1 = seq 0 (length l).
Proof.
  apply list_eq. intros i. rewrite list_lookup_fmap, list_lookup_imap.
  destruct (l !! i) as [x|] eqn:Hi; simpl.
  - symmetry. apply lookup_seq. split; [done|]. by eapply lookup_lt_Some.
  - symmetry. apply lookup_seq_ge. by apply lookup_ge_None.
Qed.

Lemma imap_pair_snd {A} (l : list A) : (imap pair l).*2 = l.
Proof.
  apply list_eq. intros i. rewrite list_lookup_fmap, list_lookup_imap.
  by destruct (l !! i).
Qed.

(** [array_sort] is a stable sort, whatever the comparator. *)
Lemma array_sort_stable {A} (cmp : A → A → Z) (l : list A) :
  stable_rearrangement cmp l (array_sort cmp l).
Proof.
  set (cmp' := fun u v : nat * A => cmp u.2 v.2).
  set (out := array_sort cmp' (imap pair l)).
  assert (Hperm : out ≡ₚ imap pair l) by apply array_sort_Permutation.
  assert (Hsnd : out.*2 = array_sort cmp l).
  { unfold out, cmp'. by rewrite (array_sort_map snd cmp), imap_pair_snd. }
  assert (Hin : ∀ k i a, out !! k = Some (i, a) → l !! i = Some a).
  { intros k i a Hk. apply list_elem_of_lookup_2 in Hk. rewrite Hperm in Hk.
    apply list_elem_of_lookup_1 in Hk as [k' Hk'].
    rewrite list_lookup_imap in Hk'. destruct (l !! k') eqn:E; by simplify_eq/=. }
  assert (Hnd : NoDup out).
  { rewrite Hperm. apply (NoDup_fmap_1 fst). rewrite imap_pair_fst. apply NoDup_seq. }
  exists (out.*1). split_and!.
  - by rewrite Hperm, imap_pair_fst.
  - rewrite <- Hsnd. apply Forall2_fmap, Forall2_same_length_lookup_2; [done|].
    intros k [i a] [i' a'] H1 H2. simplify_eq/=. by eapply Hin.
  - intros k1 k2 i j a b H1 H2 Hi Hj Hij Hab.
    rewrite list_lookup_fmap in H1, H2.
    destruct (out !! k1) as [[i1 a1]|] eqn:E1; [|done].
    destruct (out !! k2) as [[i2 a2]|] eqn:E2; [|done].
    simplify_eq/=.
    pose proof (Hin _ _ _ E1). pose proof (Hin _ _ _ E2). simplify_eq.
    eapply (sublist_pair_positions out k1 k2 (i, a) (j, b)); [done| |done|done].
    apply (array_sort_keeps_order cmp'); [|done].
    eapply (lookup_pair_sublist _ i j); [| |done]; rewrite list_lookup_imap.
    + by rewrite Hi.
    + by rewrite Hj.
Qed.

(** ** Consistent comparators *)

Lemma consistent_at_spec {A} (comparefn : A → A → option Z) (a b c : A) :
  consistent_at comparefn a b c = true
  ↔ let v := SortCompare comparefn in
    is_Some (comparefn a b)
    ∧ v a a = 0
    ∧ (v a b = 0 → v b a = 0)
    ∧ (v a b = 0 → v b c = 0 → v a c = 0)
    ∧ (v a b < 0 → v b c < 0 → v a c < 0)
    ∧ (0 < v a b → 0 < v b c → 0 < v a c).
Proof.
  unfold consistent_at. cbv zeta.
  rewrite !andb_true_iff, !Bool.implb_true_iff, !andb_true_iff, bool_decide_eq_true,
    !Z.eqb_eq, !Z.ltb_lt.
  tauto.
Qed.

Lemma consistentb_spec {A} (comparefn : A → A → option Z) (l : list A) :
  consistentb comparefn l = true ↔ consistent comparefn l.
Proof.
  unfold consistentb, consistent. rewrite forallb_forall. split.
  - intros Hall a b c Ha Hb Hc. apply consistent_at_spec.
    apply list_elem_of_In in Ha, Hb, Hc.
    specialize (Hall a Ha). rewrite forallb_forall in Hall.
    specialize (Hall b Hb). rewrite forallb_forall in Hall. by apply Hall.
  - intros Hall a Ha. apply forallb_forall. intros b Hb. apply forallb_forall. intros c Hc.
    apply consistent_at_spec. apply Hall; by apply list_elem_of_In.
Qed.

(** A difference of integer keys is a consistent comparator, and so is its negation. *)
Lemma consistent_difference {A} (key : A → Z) (order : SortOrder)
  (comparefn : A → A → option Z) (l : list A) :
  (∀ a b, a ∈ l → b ∈ l →
          comparefn a b = Some (match order with
                                | asc => key a - key b
                                | desc => - (key a - key b)
                                end)) →
  consistent comparefn l.
Proof.
  intros Hcmp a b c Ha Hb Hc. unfold SortCompare. cbv zeta.
  rewrite (Hcmp a b), (Hcmp a a), (Hcmp b a), (Hcmp b c), (Hcmp a c) by done.
  simpl. split; [eauto|]. destruct order; lia.
Qed.

(** The negation of a consistent comparator is consistent. *)
Lemma consistent_opp {A} (comparefn : A → A → option Z) (l : list A) :
  consistent comparefn l → consistent (fun a b => Z.opp <$> comparefn a b) l.
Proof.
  intros Hcons a b c Ha Hb Hc.
  assert (Hopp : ∀ x y, SortCompare (fun a b => Z.opp <$> comparefn a b) x y
                        = - SortCompare comparefn x y).
  { intros x y. unfold SortCompare. by destruct (comparefn x y). }
  cbv zeta. rewrite !Hopp. destruct (Hcons a b c Ha Hb Hc) as (Hs & H0 & H1 & H2 & H3 & H4).
  split; [by apply fmap_is_Some|]. lia.
Qed.

Lemma consistent_fmap {A B} (f : A → B) (comparefn : B → B → option Z) (l : list A) :
  consistent comparefn (f <$> l) → consistent (fun a b => comparefn (f a) (f b)) l.
Proof.
  intros Hcons a b c Ha Hb Hc.
  apply (Hcons (f a) (f b) (f c)); by apply list_elem_of_fmap_2.
Qed.

(** ** The engine's sort *)

Lemma omap_fmap_compose {A B C} (f : B → option C) (g : A → B) (l : list A) :
  omap f (g <$> l) = omap (fun x => f (g x)) l.
Proof.
  induction l as [|x l IH]; [done|].
  rewrite fmap_cons. cbn [omap list_omap]. fold (omap f (g <$> l)). rewrite IH.
  reflexivity.
Qed.

Lemma omap_lookup_seq {A} (l : list A) : omap (fun i => l !! i) (seq 0 (length l)) = l.
Proof.
  induction l as [|x l IH]; [done|].
  cbn [length seq]. rewrite <- fmap_S_seq. simpl. f_equal.
  rewrite omap_fmap_compose. exact IH.
Qed.

Lemma rearrange_Permutation {A} (σ : list nat) (l : list A) : rearrange σ l ≡ₚ l.
Proof.
  unfold rearrange.
  destruct (forallb _ _ && _) eqn:Hok; [|done].
  apply andb_true_iff in Hok as [Hall Hlen].
  apply bool_decide_eq_true in Hlen. rewrite forallb_forall in Hall.
  assert (Hperm : seq 0 (length l) ≡ₚ σ).
  { apply submseteq_length_Permutation.
    - apply NoDup_submseteq; [apply NoDup_seq|].
      intros i Hi. apply list_elem_of_In in Hi.
      exact (proj1 (bool_decide_eq_true _) (Hall i Hi)).
    - rewrite length_seq. lia. }
  rewrite <- Hperm. by rewrite omap_lookup_seq.
Qed.

Section EngineSort.
Context `{JsRuntime} {A : Type} (comparefn : A → A → option Z).

Lemma Array_sort_Permutation (l : list A) : Array_sort comparefn l ≡ₚ l.
Proof.
  unfold Array_sort. destruct (consistentb comparefn l).
  - apply array_sort_Permutation.
  - apply rearrange_Permutation.
Qed.

Lemma Array_sort_length (l : list A) : length (Array_sort comparefn l) = length l.
Proof. apply Permutation_length, Array_sort_Permutation. Qed.

(** On a consistent comparator the sort is the stable one. *)
Lemma Array_sort_consistent (l : list A) :
  consistent comparefn l → Array_sort comparefn l = array_sort (SortCompare comparefn) l.
Proof.
  intros Hcons. unfold Array_sort. by rewrite (proj2 (consistentb_spec comparefn l) Hcons).
Qed.

End EngineSort.

(** The comparator of [sortPlugins] is consistent on records that can be sorted by the key. *)
Lemma comparePlugins_consistent `{JsRuntime} (by_ : SortBy) (order : SortOrder)
  (l : list Plugin) :
  sortable by_ l → consistent (comparePlugins by_ order) l.
Proof.
  intros Hsortable. destruct by_.
  - apply (consistent_difference installCount order). intros a b _ _.
    unfold comparePlugins. by destruct order.
  - simpl in Hsortable. apply consistent_fmap in Hsortable.
    destruct order; [exact Hsortable|]. by apply consistent_opp in Hsortable.
  - simpl in Hsortable. rewrite Forall_forall in Hsortable.
    apply (consistent_difference (fun p => default 0 (installedTime p)) order).
    intros a b Ha Hb. unfold comparePlugins.
    destruct (Hsortable a Ha) as [ta ->], (Hsortable b Hb) as [tb ->]. by destruct order.
Qed.

(** C8, as the specification states it, fails: sorted by date, ascending, on an engine that
    inserts by binary search, the last of eight records, installed at the time of the sixth,
    comes out in front of it; the fifth has an installation date that is no date, which makes
    the comparator [NaN] against every other record. *)
Lemma C8_counterexample :
  let input := records_one_bad_date in
  let output := sortPlugins input sort_date asc in
  input !! 5%nat = Some (installedRecord "f" "2025-01-05")
  ∧ input !! 7%nat = Some (installedRecord "h" "2025-01-05")
  ∧ comparePlugins sort_date asc (installedRecord "f" "2025-01-05")
      (installedRecord "h" "2025-01-05") = Some 0
  ∧ name <$> output = ["a"; "b"; "c"; "h"; "d"; "e"; "f"; "g"]
  ∧ ¬ stable_rearrangement (SortCompare (comparePlugins sort_date asc)) input output.
Proof.
  intros input output.
  assert (Hout : output = omap (fun i => input !! i) [0; 1; 2; 7; 3; 4; 5; 6]%nat)
    by (vm_compute; reflexivity).
  split_and!; [reflexivity|reflexivity|vm_compute; reflexivity|by rewrite Hout|].
  intros (σ & _ & Hrows & Hstable). rewrite Hout in Hrows.
  destruct (Forall2_lookup_l _ _ _ 3%nat _ Hrows eq_refl) as (j & Hj & Hh).
  destruct (Forall2_lookup_l _ _ _ 6%nat _ Hrows eq_refl) as (i & Hi & Hf).
  assert (j = 7%nat) as ->.
  { do 8 (destruct j as [|j]; [try done; by vm_compute in Hh|]). by vm_compute in Hh. }
  assert (i = 5%nat) as ->.
  { do 8 (destruct i as [|i]; [try done; by vm_compute in Hf|]). by vm_compute in Hf. }
  assert (6 < 3)%nat; [|lia].
  eapply (Hstable 6%nat 3%nat 5%nat 7%nat); [exact Hi|exact Hj|reflexivity|reflexivity|lia|].
  vm_compute. reflexivity.
Qed.

(** C8 (amended): [sortPlugins] returns a new array and leaves its argument (and every other
    array) as it was; the new array holds the records of the argument, rearranged; and when
    the records can be sorted by the key (always by installs; by date when every installation
    date is a date; by name when [localeCompare] is the consistent comparator it has to be)
    the rearrangement is that of a stable sort: two records that compare equal under the sort
    key keep their input order, in ascending and in descending direction. *)
Theorem C8_sortPlugins_new_and_stable `{JsRuntime}
  (store : gmap nat (list Plugin)) (plugins : nat) (by_ : SortBy) (order : SortOrder)
  (elements : list Plugin) :
  store !! plugins = Some elements →
  ∃ store' sorted,
    sortPlugins_ref store plugins by_ order = Some (store', sorted)
    ∧ store !! sorted = None
    ∧ (∀ r, r ≠ sorted → store' !! r = store !! r)
    ∧ store' !! plugins = Some elements
    ∧ store' !! sorted = Some (sortPlugins elements by_ order)
    ∧ sortPlugins elements by_ order ≡ₚ elements
    ∧ (sortable by_ elements →
       stable_rearrangement (SortCompare (comparePlugins by_ order)) elements
         (sortPlugins elements by_ order)).
Proof.
  intros Hin. unfold sortPlugins_ref. rewrite Hin. simpl.
  set (sorted := fresh (dom store)).
  assert (Hfresh : store !! sorted = None).
  { apply not_elem_of_dom. apply is_fresh. }
  assert (Hne : plugins ≠ sorted) by (intros ->; congruence).
  eexists _, sorted. split_and!; [done|done| | | | |].
  - intros r Hr. rewrite lookup_alter_ne, lookup_insert_ne; done.
  - rewrite lookup_alter_ne, lookup_insert_ne; done.
  - rewrite lookup_alter_eq, lookup_insert_eq. done.
  - apply Array_sort_Permutation.
  - intros Hsortable. unfold sortPlugins.
    rewrite Array_sort_consistent by (by apply comparePlugins_consistent).
    apply array_sort_stable.
Qed.

Lemma C8_sortPlugins_new_and_stable_witness :
  ∃ store' sorted,
    sortPlugins_ref dated_store 7 sort_date asc = Some (store', sorted)
    ∧ dated_store !! sorted = None
    ∧ (∀ r, r ≠ sorted → store' !! r = dated_store !! r)
    ∧ store' !! 7%nat
      = Some [installedRecord "d" "2025-04-10"; installedRecord "f" "2025-01-05";
              installedRecord "h" "2025-01-05"; installedRecord "a" "2025-01-01"]
    ∧ store' !! sorted
      = Some [installedRecord "a" "2025-01-01"; installedRecord "f" "2025-01-05";
              installedRecord "h" "2025-01-05"; installedRecord "d" "2025-04-10"]
    ∧ stable_rearrangement (SortCompare (comparePlugins sort_date asc))
        [installedRecord "d" "2025-04-10"; installedRecord "f" "2025-01-05";
         installedRecord "h" "2025-01-05"; installedRecord "a" "2025-01-01"]
        (sortPlugins
           [installedRecord "d" "2025-04-10"; installedRecord "f" "2025-01-05";
            installedRecord "h" "2025-01-05"; installedRecord "a" "2025-01-01"]
           sort_date asc).
Proof.
  destruct (C8_sortPlugins_new_and_stable dated_store 7 sort_date asc _ eq_refl)
    as (store' & sorted & Href & Hnew & Hothers & Hinput & Hsorted & _ & Hstable).
  exists store', sorted.
  split; [exact Href|]. split; [exact Hnew|]. split; [exact Hothers|].
  split; [exact Hinput|]. split.
  - rewrite Hsorted. vm_compute. reflexivity.
  - apply Hstable. repeat constructor; vm_compute; eauto.
Defined.

(* ===================================================================== *)
(** * JSON: reading a number and printing it *)
(* ===================================================================== *)

Lemma Number_toString_reads (x : Z) :
  Number_of_integer x = Finite x → Number_of_integer (Number_toString x) = Finite x.
Proof.
  intros Hx. unfold Number_toString.
  match goal with |- context [head ?l] => destruct (head l) as [c|] eqn:Hhead end; simpl; [|done].
  apply head_Some_elem_of in Hhead. apply list_elem_of_omap in Hhead as (k & _ & Hc).
  unfold shortest_candidate in Hc.
  repeat case_bool_decide; simplify_eq; try done.
  repeat case_match; done.
Qed.


(** An integer with a significand of 53 bits is a double. *)
Lemma Number_of_integer_exact (sign p e : Z) :
  sign = 1 ∨ sign = -1 → 2 ^ 52 ≤ p < 2 ^ 53 → 1 ≤ e → p * 2 ^ e < 2 ^ 1024 →
  Number_of_integer (sign * (p * 2 ^ e)) = Finite (sign * (p * 2 ^ e)).
Proof.
  intros Hsign Hp He Hbig.
  assert (Hpe : 0 < 2 ^ e) by (apply Z.pow_pos_nonneg; lia).
  assert (Hhalf : 0 < 2 ^ (e - 1)) by (apply Z.pow_pos_nonneg; lia).
  assert (H2e : 2 ^ 1 ≤ 2 ^ e) by (apply Z.pow_le_mono_r; lia).
  assert (Hm : 2 ^ 53 ≤ p * 2 ^ e).
  { change (2 ^ 53) with (2 ^ 52 * 2 ^ 1). apply Z.mul_le_mono_nonneg; lia. }
  assert (Habs : Z.abs (sign * (p * 2 ^ e)) = p * 2 ^ e) by (destruct Hsign as [-> | ->]; lia).
  assert (Hsgn : Z.sgn (sign * (p * 2 ^ e)) = sign) by (destruct Hsign as [-> | ->]; lia).
  assert (Hlog : Z.log2 (p * 2 ^ e) - 52 = e).
  { rewrite Z.log2_mul_pow2 by lia. rewrite (Z.log2_unique p 52); lia. }
  unfold Number_of_integer. rewrite Habs, Hsgn, Hlog, Z.mod_mul, Z.div_mul by lia.
  destruct (p * 2 ^ e <? 2 ^ 53) eqn:E0; [apply Z.ltb_lt in E0; lia|].
  destruct (2 ^ (e - 1) <? 0) eqn:E1; [apply Z.ltb_lt in E1; lia|].
  destruct (0 =? 2 ^ (e - 1)) eqn:E2; [apply Z.eqb_eq in E2; lia|].
  cbn [orb andb].
  destruct (2 ^ 1024 <=? p * 2 ^ e) eqn:E3; [apply Z.leb_le in E3; lia|]. done.
Qed.


(** What [Number_of_integer] returns: the integer itself when it is small, and otherwise an
    integer with a significand of 53 bits and the same sign. *)
Lemma Number_of_integer_cases (z x : Z) :
  Number_of_integer z = Finite x →
  (Z.abs z < 2 ^ 53 ∧ x = z)
  ∨ ∃ sign p e, (sign = 1 ∨ sign = -1) ∧ 2 ^ 52 ≤ p < 2 ^ 53 ∧ 1 ≤ e
                ∧ p * 2 ^ e < 2 ^ 1024 ∧ x = sign * (p * 2 ^ e).
Proof.
  unfold Number_of_integer.
  destruct (Z.abs z <? 2 ^ 53) eqn:Hsmall.
  { intros [= ->]. left. by apply Z.ltb_lt in Hsmall. }
  apply Z.ltb_ge in Hsmall. right.
  set (a := Z.abs z) in *.
  set (e := Z.log2 a - 52) in *.
  set (q := a / 2 ^ e) in *.
  set (r := a mod 2 ^ e) in *.
  set (q' := if (2 ^ (e - 1) <? r) || ((r =? 2 ^ (e - 1)) && Z.odd q) then q + 1 else q) in *.
  destruct (2 ^ 1024 <=? q' * 2 ^ e) eqn:Hbig; [done|].
  apply Z.leb_gt in Hbig. injection H as <-.
  assert (Ha : 0 < a) by (pose proof (Z.pow_pos_nonneg 2 53); lia).
  assert (Hlog : 53 ≤ Z.log2 a) by (by apply Z.log2_le_pow2).
  assert (He : 1 ≤ e) by (unfold e; lia).
  pose proof (Z.log2_spec a Ha) as [Hlo Hhi].
  assert (Hpe : 0 < 2 ^ e) by (apply Z.pow_pos_nonneg; lia).
  assert (Hsplit : 2 ^ Z.log2 a = 2 ^ 52 * 2 ^ e).
  { rewrite <- Z.pow_add_r by lia. f_equal. unfold e. lia. }
  assert (Hsplit' : 2 ^ Z.succ (Z.log2 a) = 2 ^ 53 * 2 ^ e).
  { rewrite <- Z.pow_add_r by lia. f_equal. unfold e. lia. }
  assert (Hq : 2 ^ 52 ≤ q < 2 ^ 53).
  { unfold q. split.
    - apply Z.div_le_lower_bound; lia.
    - apply Z.div_lt_upper_bound; lia. }
  assert (Hq' : 2 ^ 52 ≤ q' ≤ 2 ^ 53) by (unfold q'; destruct (_ || _); lia).
  assert (Hsign : Z.sgn z = 1 ∨ Z.sgn z = -1) by (unfold a in Ha; lia).
  destruct (decide (q' = 2 ^ 53)) as [Hmax|Hmax].
  - assert (Hm : q' * 2 ^ e = 2 ^ 52 * 2 ^ (e + 1)).
    { rewrite Hmax, <- !Z.pow_add_r by lia. f_equal. lia. }
    exists (Z.sgn z), (2 ^ 52), (e + 1). rewrite <- Hm. split_and!; try done; lia.
  - exists (Z.sgn z), q', e. split_and!; try done; lia.
Qed.

Lemma Number_of_integer_idemp (z x : Z) :
  Number_of_integer z = Finite x → Number_of_integer x = Finite x.
Proof.
  intros [[Hsmall ->]|(sign & p & e & Hsign & Hp & He & Hbig & ->)]%Number_of_integer_cases.
  - unfold Number_of_integer. by rewrite (proj2 (Z.ltb_lt _ _) Hsmall).
  - by apply Number_of_integer_exact.
Qed.

(** What [JSON.stringify] prints for a number read by [JSON.parse] reads back as that number. *)
Lemma Number_reads_back (z x : Z) :
  Number_of_integer z = Finite x → Number_of_integer (Number_toString x) = Finite x.
Proof. intros Hz. by eapply Number_toString_reads, Number_of_integer_idemp. Qed.



Section JsonInduction.
Context {N : Type} (P : json N → Prop).
Context (Hnull : P JNull) (Hbool : ∀ b, P (JBool b)) (Hnum : ∀ n, P (JNumber n)).
Context (Hstr : ∀ s, P (JString s)).
Context (Harr : ∀ l, Forall P l → P (JArray l)).
Context (Hobj : ∀ l, Forall (fun kv => P kv.2) l → P (JObject l)).

Fixpoint json_induction (j : json N) : P j :=
  match j with
  | JNull => Hnull
  | JBool b => Hbool b
  | JNumber n => Hnum n
  | JString s => Hstr s
  | JArray l =>
      Harr l ((fix go (l : list (json N)) : Forall P l :=
                 match l with
                 | [] => @List.Forall_nil _ _
                 | x :: l' => @List.Forall_cons _ P x l' (json_induction x) (go l')
                 end) l)
  | JObject l =>
      Hobj l ((fix go (l : list (string * json N)) : Forall (fun kv => P kv.2) l :=
                 match l with
                 | [] => @List.Forall_nil _ _
                 | kv :: l' =>
                     @List.Forall_cons _ (fun kv => P kv.2) kv l'
                       (match kv as kv0 return P kv0.2 with (k, v) => json_induction v end)
                       (go l')
                 end) l)
  end.

End JsonInduction.

Lemma json_bind_bind {N M K} (f : N → json M) (g : M → json K) (j : json N) :
  json_bind g (json_bind f j) = json_bind (fun n => json_bind g (f n)) j.
Proof.
  induction j as [| | | |l IH|l IH] using json_induction; simpl; try done.
  - f_equal. rewrite map_map. apply map_ext_Forall. exact IH.
  - f_equal. rewrite map_map. apply map_ext_Forall.
    eapply Forall_impl; [exact IH|]. intros [k v] Hv. simpl in *. by rewrite Hv.
Qed.

Lemma json_bind_ext {N M} (f g : N → json M) (j : json N) :
  (∀ n, f n = g n) → json_bind f j = json_bind g j.
Proof.
  intros Hext.
  induction j as [| | | |l IH|l IH] using json_induction; simpl; try done.
  - f_equal. apply map_ext_Forall. exact IH.
  - f_equal. apply map_ext_Forall.
    eapply Forall_impl; [exact IH|]. intros [k v] Hv. simpl in *. by rewrite Hv.
Qed.

(** Reading what was printed for a text that was read, and printing it again, prints the
    same. *)
Lemma JSON_rewrite_idemp (text : json Z) : JSON_rewrite (JSON_rewrite text) = JSON_rewrite text.
Proof.
  unfold JSON_rewrite, JSON_stringify, JSON_parse. rewrite !json_bind_bind.
  apply json_bind_ext. intros z. simpl.
  destruct (Number_of_integer z) as [x|negative] eqn:Hz; simpl; [|done].
  by rewrite (Number_reads_back z x Hz).
Qed.


Lemma rewritten_idemp (keys : list (string * json Z)) :
  rewritten (rewritten keys) = rewritten keys.
Proof.
  unfold rewritten. rewrite map_map. apply map_ext. intros [k v].
  by rewrite JSON_rewrite_idemp.
Qed.


(** What is written for the keys that were read. *)
Lemma JSON_stringify_parse_keys (keys : list (string * json Z)) :
  map (fun '(k, v) => (k, JSON_stringify v)) (map (fun '(k, v) => (k, JSON_parse v)) keys)
  = rewritten keys.
Proof. unfold rewritten. rewrite map_map. apply map_ext. by intros [k v]. Qed.

(* ===================================================================== *)
(** * Settings: toggling twice (C9) *)
(* ===================================================================== *)

Lemma isPluginEnabled_Document pluginId d s :
  settings_json d = Document s →
  isPluginEnabled pluginId d = Ok (default false (default ∅ (enabledPlugins s) !! pluginId)).
Proof. unfold isPluginEnabled, getEnabledPlugins, readSettings. by intros ->. Qed.

(** What a write leaves on the disk: the map with the value put in, and the other keys as
    [JSON.stringify] prints what [JSON.parse] read. *)
Lemma setPluginEnabled_Document pluginId v d s :
  settings_json d = Document s → readOnly d = false →
  setPluginEnabled pluginId v d
  = Ok (with_settings
          {| enabledPlugins := Some (<[pluginId := v]> (default ∅ (enabledPlugins s)));
             otherKeys := rewritten (otherKeys s) |} d).
Proof.
  intros Hs Hw.
  unfold setPluginEnabled, readSettings, writeSettings, writeJsonFile_settings.
  rewrite Hs, Hw. simpl. unfold JSON_stringify_settings. simpl.
  rewrite JSON_stringify_parse_keys. by destruct (enabledPlugins s).
Qed.

Lemma togglePlugin_Document pluginId d s :
  settings_json d = Document s → readOnly d = false →
  let was := default false (default ∅ (enabledPlugins s) !! pluginId) in
  togglePlugin pluginId d
  = Ok (negb was,
        with_settings
          {| enabledPlugins := Some (<[pluginId := negb was]> (default ∅ (enabledPlugins s)));
             otherKeys := rewritten (otherKeys s) |} d).
Proof.
  intros Hs Hw. unfold togglePlugin. rewrite (isPluginEnabled_Document _ _ _ Hs). simpl.
  by rewrite (setPluginEnabled_Document _ _ _ _ Hs Hw).
Qed.




(* ===================================================================== *)
(** * Interaction: the reducer *)
(* ===================================================================== *)

Section ReducerFacts.
Context `{JsRuntime}.

Lemma appReducer_operation st a :
  operation (appReducer st a)
  = match a with
    | START_OPERATION op _ => op
    | END_OPERATION => idle
    | _ => operation st
    end.
Proof. destruct a; simpl; try done. by destruct (_ =? 0). Qed.

(** The list a tab shows only depends on the tab, the data, the query and the sort. *)
Lemma getItemsForTab_ext st st' :
  activeTab st' = activeTab st → plugins st' = plugins st →
  marketplaces st' = marketplaces st → errors st' = errors st →
  searchQuery st' = searchQuery st → sortBy st' = sortBy st → sortOrder st' = sortOrder st →
  getItemsForTab st' = getItemsForTab st.
Proof.
  unfold getItemsForTab, getFilteredPlugins. by intros -> -> -> -> -> -> ->.
Qed.

Lemma selection_zero_in_range st : selectedIndex st = 0 → selection_in_range st.
Proof. unfold selection_in_range. intros ->. lia. Qed.

(** The navigation actions keep the selection in range: moving clamps it, changing the tab,
    the query or the sort resets it. *)
Lemma navigation_keeps_selection_in_range st a :
  match a with
  | SET_TAB _ | NEXT_TAB | PREV_TAB | MOVE_SELECTION _ | SET_SEARCH_QUERY _ | SET_SORT _ _ => True
  | _ => False
  end →
  selection_in_range st → selection_in_range (appReducer st a).
Proof.
  destruct a; try done; intros _ Hin; try (by apply selection_zero_in_range).
  simpl. destruct (_ =? 0) eqn:Hlen; [done|].
  apply Z.eqb_neq in Hlen. unfold selection_in_range in *.
  match goal with
  | |- context [getItemsForTab (set_message ?m ?st')] =>
      rewrite (getItemsForTab_ext st (set_message m st')) by done
  end.
  destruct payload; simpl; lia.
Qed.

End ReducerFacts.

(* ===================================================================== *)
(** * Interaction: selection after a reload (C3) *)
(* ===================================================================== *)

(** C3 fails on the code: on the Installed tab with two installed plugins, the user selects the
    second one, uninstalls it and confirms; when the action has succeeded the reloaded list
    has one item and [selectedIndex] is still 1. *)
Theorem C3_selection_out_of_range_after_uninstall :
  let s := run (initialSession disk_two_installed) uninstall_last_of_two in
  reachable s
  ∧ activeTab (state s) = tab_installed
  ∧ operation (state s) = idle
  ∧ length (getItemsForTab (state s)) = 1%nat
  ∧ selectedIndex (state s) = 1
  ∧ ¬ selection_in_range (state s).
Proof.
  intros s.
  assert (Hsel : selectedIndex (state s) = 1) by (vm_compute; reflexivity).
  assert (Hlen : length (getItemsForTab (state s)) = 1%nat) by (vm_compute; reflexivity).
  split_and!; [|vm_compute; reflexivity|vm_compute; reflexivity|exact Hlen|exact Hsel|].
  - exists disk_two_installed, uninstall_last_of_two. reflexivity.
  - unfold selection_in_range. rewrite Hsel, Hlen. simpl. lia.
Qed.

(* ===================================================================== *)
(** * Interaction: one operation at a time (C6) *)
(* ===================================================================== *)




(* ===================================================================== *)
(** * Interaction: quitting (C4) *)
(* ===================================================================== *)


(** While the search box is being typed into, [q] is one more character of the query. *)
Lemma quit_key_typed_into_search `{JsRuntime} (s : Session) :
  operation (state s) = idle → confirming s = false → isSearchMode s = true →
  step s (Input "q" plainKey)
  = dispatch (SET_SEARCH_QUERY (String.append (searchQuery (state s)) "q")) s.
Proof.
  unfold confirming. intros Hop Hconf Hsearch. cbn [step]. simpl (interrupt _ _). cbv iota.
  unfold useInput. by rewrite Hop, Hconf, Hsearch.
Qed.



(* ===================================================================== *)
(** * Interaction: uninstalling needs a confirmation (C7) *)
(* ===================================================================== *)

Section Uninstall.
Context `{JsRuntime}.

Lemma outcome_refl s : outcome s s.
Proof. left. auto. Qed.

Lemma outcome_setIsSearchMode b s : outcome s (setIsSearchMode b s).
Proof. left. auto. Qed.

Lemma outcome_dispatch a s :
  match a with START_OPERATION _ _ => False | _ => True end → outcome s (dispatch a s).
Proof.
  intros Ha. left. split; [done|]. unfold dispatch. simpl. rewrite appReducer_operation.
  destruct a; auto. done.
Qed.

Lemma outcome_toggle a b d s :
  match a with START_OPERATION _ _ => False | _ => True end →
  match b with START_OPERATION _ _ => False | _ => True end →
  operation (state s) = idle →
  outcome s (dispatch a (dispatch b (with_disk d s))).
Proof.
  intros Ha Hb Hidle. left. split; [done|]. right. unfold dispatch. simpl.
  rewrite !appReducer_operation. destruct a, b; done.
Qed.

Lemma outcome_perform_Exit s : outcome s (perform Exit s).
Proof. right. left. auto. Qed.

Lemma outcome_handleInstall pluginId s : outcome s (handleInstall pluginId s).
Proof. right. right. left. by exists pluginId. Qed.

Create HintDb outcome.
#[local] Hint Resolve outcome_refl outcome_setIsSearchMode outcome_perform_Exit
  outcome_handleInstall : outcome.
#[local] Hint Extern 1 (outcome _ (dispatch _ (dispatch _ (with_disk _ _)))) =>
  apply outcome_toggle; [exact I | exact I | assumption] : outcome.
#[local] Hint Extern 2 (outcome _ (dispatch _ _)) =>
  apply outcome_dispatch; exact I : outcome.

(** The branches of the handler, from the top, one condition at a time. *)
Ltac handler_branches :=
  repeat lazymatch goal with
    | |- outcome _ (if ?c then _ else _) => destruct c
    | |- outcome _ (match ?o with Some _ => _ | None => _ end) => destruct o
    | |- outcome _ (match ?r with Ok _ => _ | Err _ => _ end) => destruct r as [[? ?]|]
    end;
  auto with outcome.

Lemma useInput_outcome (s : Session) (input : string) (key : Key) :
  confirming s = false → outcome s (useInput s input key).
Proof.
  unfold confirming. intros Hconf. unfold useInput.
  destruct (bool_decide (operation (state s) = idle)) eqn:Hidle; simpl; [|apply outcome_refl].
  apply bool_decide_eq_true in Hidle. rewrite Hconf.
  handler_branches.
Qed.

(** What one event can do to the effects and to the operation in flight: no uninstall starts,
    unless the event is [y]/[Y] typed into the confirmation dialog of the very plugin. *)
Lemma step_cases (s : Session) (ev : Event) :
  outcome s (step s ev)
  ∨ (∃ pluginId key,
       effects (step s ev) = effects s ++ [Spawn uninstall pluginId]
       ∧ operation (state (step s ev)) = uninstalling
       ∧ operationPluginId (state (step s ev)) = Some pluginId
       ∧ operation (state s) = idle
       ∧ confirming s = true
       ∧ operationPluginId (state s) = Some pluginId
       ∧ (ev = Input "y" key ∨ ev = Input "Y" key)).
Proof.
  destruct ev as [|input key|result after]; simpl.
  - left. unfold onMount.
    destruct (loadAllPlugins (disk s)) as [ps|]; simpl;
      [destruct (loadMarketplaces (disk s)) as [ms|]; simpl|]; left; auto.
  - destruct (interrupt input key) eqn:Hint; [left; apply outcome_perform_Exit|].
    destruct (confirming s) eqn:Hconf; [|left; by apply useInput_outcome].
    unfold useInput. unfold confirming in Hconf.
    destruct (bool_decide (operation (state s) = idle)) eqn:Hidle; simpl;
      [|left; apply outcome_refl].
    apply bool_decide_eq_true in Hidle. rewrite Hconf.
    destruct (String.eqb input "y" || String.eqb input "Y") eqn:Hyes.
    + right.
      destruct (operationPluginId (state s)) as [pluginId|] eqn:Hid;
        [|by rewrite andb_false_r in Hconf].
      exists pluginId, key. simpl. split_and!; try done.
      apply orb_true_iff in Hyes as [Hy|Hy]; apply String.eqb_eq in Hy; subst; auto.
    + left. destruct (_ || key_escape key); [|apply outcome_refl].
      left. split; [done|]. left. done.
  - left. destruct (bool_decide _) eqn:Hidle; [apply outcome_refl|].
    unfold afterAction.
    destruct (par_success result); simpl; [destruct (loadAllPlugins _) as [ps|e]; simpl|].
    + left. auto.
    + right. right. right. by exists e.
    + left. auto.
Qed.

End Uninstall.

(** C7: (1) pressing the uninstall key on an installed plugin only opens the confirmation
    dialog for that plugin: no operation starts, the disk is not written, nothing is spawned;
    (2) an uninstall is spawned, or the state becomes uninstalling for some plugin, only by
    [y]/[Y] typed into the confirmation dialog of that plugin; (3) that answer does start it;
    (4) [n]/[N]/Escape (not pressed as Ctrl+C, which ink takes for itself) closes the dialog
    with the message "Uninstall cancelled" and changes nothing else: no write, no spawn, no
    operation. *)
Theorem C7_uninstall_needs_confirmation `{JsRuntime} (s : Session) :
  (∀ p,
     operation (state s) = idle → confirming s = false → isSearchMode s = false →
     onPluginTab (state s) = true → selectedPlugin (state s) = Some p → isInstalled p = true →
     let s' := step s (Input "u" plainKey) in
     confirmUninstall (state s') = true
     ∧ operationPluginId (state s') = Some (id p)
     ∧ operation (state s') = idle
     ∧ disk s' = disk s
     ∧ effects s' = effects s)
  ∧ (∀ ev pluginId,
       Spawn uninstall pluginId ∈ emitted s ev
       ∨ (operation (state s) = idle
          ∧ operation (state (step s ev)) = uninstalling
          ∧ operationPluginId (state (step s ev)) = Some pluginId) →
       confirming s = true
       ∧ operationPluginId (state s) = Some pluginId
       ∧ ∃ key, ev = Input "y" key ∨ ev = Input "Y" key)
  ∧ (∀ input key pluginId,
       operation (state s) = idle → confirming s = true →
       operationPluginId (state s) = Some pluginId →
       input = "y" ∨ input = "Y" →
       let s' := step s (Input input key) in
       operation (state s') = uninstalling
       ∧ operationPluginId (state s') = Some pluginId
       ∧ confirmUninstall (state s') = false
       ∧ effects s' = effects s ++ [Spawn uninstall pluginId]
       ∧ disk s' = disk s)
  ∧ (∀ input key,
       operation (state s) = idle → confirming s = true → interrupt input key = false →
       input ≠ "y" → input ≠ "Y" →
       input = "n" ∨ input = "N" ∨ key_escape key = true →
       let s' := step s (Input input key) in
       state s' = set_message (Some "Uninstall cancelled")
                    (set_operationPluginId None (set_confirmUninstall false (state s)))
       ∧ isSearchMode s' = isSearchMode s
       ∧ disk s' = disk s
       ∧ effects s' = effects s).
Proof.
  split_and!.
  - intros p Hop Hconf Hsearch Htab Hsel Hinst. unfold confirming in Hconf.
    simpl. unfold useInput. rewrite Hop, Hconf, Hsearch, Htab, Hsel, Hinst. simpl.
    destruct (truthy (searchQuery (state s))); simpl; by rewrite Hop.
  - intros ev pluginId Hstart. unfold emitted in Hstart.
    destruct (step_cases s ev)
      as [[[Heff Hop]|[[Heff Hop]|[(pid & Heff & Hop)|(e & Heff & Hop)]]]
         |(pid & key & Heff & Hop & Hid & ? & ? & ? & ?)];
      rewrite Heff in Hstart.
    + rewrite drop_all in Hstart.
      destruct Hstart as [Hin|(Hidle & Hun & _)]; [by apply elem_of_nil in Hin|].
      destruct Hop; congruence.
    + rewrite drop_app_length in Hstart.
      destruct Hstart as [Hin|(Hidle & Hun & _)]; [|congruence].
      apply list_elem_of_singleton in Hin. discriminate Hin.
    + rewrite drop_app_length in Hstart.
      destruct Hstart as [Hin|(Hidle & Hun & _)]; [|congruence].
      apply list_elem_of_singleton in Hin. discriminate Hin.
    + rewrite drop_app_length in Hstart.
      destruct Hstart as [Hin|(Hidle & Hun & _)]; [|congruence].
      apply list_elem_of_singleton in Hin. discriminate Hin.
    + rewrite drop_app_length in Hstart.
      assert (pid = pluginId) as ->.
      { destruct Hstart as [Hin|(_ & _ & Hid')]; [|congruence].
        apply list_elem_of_singleton in Hin. congruence. }
      split_and!; [done|done|]. by exists key.
  - intros input key pluginId Hop Hconf Hid Hyes. unfold confirming in Hconf.
    assert (interrupt input key = false) as Hint
      by (unfold interrupt; destruct Hyes as [-> | ->]; apply andb_false_r).
    cbn [step]. rewrite Hint. unfold useInput. rewrite Hop, Hconf, Hid. simpl.
    destruct Hyes as [-> | ->]; simpl; done.
  - intros input key Hop Hconf Hint Hy HY Hno. unfold confirming in Hconf.
    cbn [step]. rewrite Hint. unfold useInput. rewrite Hop, Hconf. simpl.
    apply String.eqb_neq in Hy, HY. rewrite Hy, HY. simpl.
    assert (String.eqb input "n" || String.eqb input "N" || key_escape key = true) as ->.
    { destruct Hno as [-> | [-> | ->]]; simpl; by rewrite ?orb_true_r. }
    done.
Qed.

Lemma C7_uninstall_needs_confirmation_witness :
  (∃ p, selectedPlugin (state session_navigating) = Some p ∧ isInstalled p = true
        ∧ let s' := step session_navigating (Input "u" plainKey) in
          confirmUninstall (state s') = true
          ∧ operationPluginId (state s') = Some (id p)
          ∧ operation (state s') = idle
          ∧ disk s' = disk session_navigating
          ∧ effects s' = effects session_navigating)
  ∧ (confirming session_confirming = true
     ∧ operationPluginId (state session_confirming) = Some "alpha@m"
     ∧ ∃ key, Input "y" plainKey = Input "y" key ∨ Input "y" plainKey = Input "Y" key)
  ∧ (let s' := step session_confirming (Input "Y" plainKey) in
     operation (state s') = uninstalling
     ∧ operationPluginId (state s') = Some "alpha@m"
     ∧ confirmUninstall (state s') = false
     ∧ effects s' = effects session_confirming ++ [Spawn uninstall "alpha@m"]
     ∧ disk s' = disk session_confirming)
  ∧ (let s' := step session_confirming (Input "" escapeKey) in
     state s' = set_message (Some "Uninstall cancelled")
                  (set_operationPluginId None
                     (set_confirmUninstall false (state session_confirming)))
     ∧ isSearchMode s' = isSearchMode session_confirming
     ∧ disk s' = disk session_confirming
     ∧ effects s' = effects session_confirming).
Proof.
  split; [|split; [|split]].
  - eexists. split; [vm_compute; reflexivity|]. split; [reflexivity|].
    apply (proj1 (C7_uninstall_needs_confirmation session_navigating));
      vm_compute; reflexivity.
  - apply (proj1 (proj2 (C7_uninstall_needs_confirmation session_confirming))
             (Input "y" plainKey) "alpha@m").
    left. vm_compute. apply list_elem_of_singleton. reflexivity.
  - apply (proj1 (proj2 (proj2 (C7_uninstall_needs_confirmation session_confirming)))
             "Y" plainKey "alpha@m").
    + vm_compute; reflexivity.
    + vm_compute; reflexivity.
    + vm_compute; reflexivity.
    + right. reflexivity.
  - apply (proj2 (proj2 (proj2 (C7_uninstall_needs_confirmation session_confirming)))
             "" escapeKey).
    + vm_compute; reflexivity.
    + vm_compute; reflexivity.
    + reflexivity.
    + discriminate.
    + discriminate.
    + right. right. reflexivity.
Defined.

(* ===================================================================== *)
(** * Aggregation: order, provenance and fields of the records *)
(* ===================================================================== *)

Section SortedInsertion.
Context {A : Type} (R : A → A → Prop) (cmp : A → A → Z).
Context (R_trans : ∀ a b c, R a b → R b c → R a c).
Context (cmp_swap : ∀ a b, 0 < cmp a b → R b a).
Context (cmp_keep : ∀ a b, ¬ 0 < cmp a b → R a b).

Lemma sort_insert_Forall (x y : A) (l : list A) :
  R y x → Forall (R y) l → Forall (R y) (sort_insert cmp x l).
Proof.
  intros Hyx Hl. rewrite sort_insert_Permutation. by constructor.
Qed.

Lemma sort_insert_StronglySorted (x : A) (l : list A) :
  StronglySorted R l → StronglySorted R (sort_insert cmp x l).
Proof.
  induction 1 as [|y l Hl IH Hy]; simpl; [repeat constructor|].
  destruct (0 <? cmp x y) eqn:Hlt.
  - apply Z.ltb_lt in Hlt. constructor; [done|].
    apply sort_insert_Forall; [by apply cmp_swap | done].
  - apply Z.ltb_ge in Hlt. assert (R x y) by (apply cmp_keep; lia).
    constructor; [by constructor|]. constructor; [done|].
    eapply Forall_impl; [exact Hy|]. intros z Hz. by eapply R_trans.
Qed.

Lemma array_sort_StronglySorted (l : list A) : StronglySorted R (array_sort cmp l).
Proof.
  induction l as [|x l IH]; simpl; [constructor|]. by apply sort_insert_StronglySorted.
Qed.

End SortedInsertion.

Lemma StronglySorted_lookup {A} (R : A → A → Prop) (l : list A) (i j : nat) (a b : A) :
  StronglySorted R l → l !! i = Some a → l !! j = Some b → (i < j)%nat → R a b.
Proof.
  intros Hl. revert i j. induction Hl as [|x l Hl IH Hx]; intros i j Hi Hj Hij; [done|].
  destruct j as [|j]; [lia|]. simpl in Hj. destruct i as [|i]; simpl in Hi.
  - injection Hi as ->. eapply Forall_forall in Hx; [done|]. by eapply list_elem_of_lookup_2.
  - eapply (IH i j); [done|done|lia].
Qed.

Lemma array_sort_descending {A} (key : A → Z) (l : list A) :
  descending key (array_sort (fun a b => key b - key a) l).
Proof.
  intros i j a b Hi Hj Hij.
  eapply (StronglySorted_lookup (fun a b => key b ≤ key a) _ i j a b); [|done..].
  apply array_sort_StronglySorted; intros; lia.
Qed.

Lemma array_sort_ascending {A} (key : A → Z) (l : list A) :
  ascending key (array_sort (fun a b => key a - key b) l).
Proof.
  intros i j a b Hi Hj Hij.
  eapply (StronglySorted_lookup (fun a b => key a ≤ key b) _ i j a b); [|done..].
  apply array_sort_StronglySorted; intros; lia.
Qed.

(** X1: the sequence [loadAllPlugins] returns is in non-increasing order of [installCount]. *)
Theorem X1_loadAllPlugins_by_install_count d ps :
  loadAllPlugins d = Ok ps → descending installCount ps.
Proof.
  unfold loadAllPlugins.
  destruct (readJsonFile _ (installed_plugins_json d)); simpl; [|done].
  destruct (readJsonFile _ (install_counts_cache_json d)); simpl; [|done].
  destruct (getEnabledPlugins d); simpl; [|done].
  match goal with |- context [mbind _ ?scan] => destruct scan end; simpl; [|done].
  intros [= <-]. apply array_sort_descending.
Qed.

Lemma X1_loadAllPlugins_by_install_count_witness :
  catalog_names disk_counted "m" = ["alpha"; "beta"]
  ∧ ∃ ps, loadAllPlugins disk_counted = Ok ps
          ∧ map (fun p => (name p, installCount p)) ps = [("beta", 9); ("alpha", 7)]
          ∧ descending installCount ps.
Proof.
  split; [reflexivity|].
  destruct (loadAllPlugins disk_counted) as [ps|] eqn:Hload;
    [|vm_compute in Hload; discriminate Hload].
  exists ps. split; [reflexivity|]. split.
  - vm_compute in Hload. injection Hload as <-. reflexivity.
  - exact (X1_loadAllPlugins_by_install_count disk_counted ps Hload).
Defined.

(** X2: in every record of a pass the id is the name, an at sign and the marketplace, and the
    installation fields go with [isInstalled]: an installed record has [installedAt],
    [lastUpdated], [gitCommitSha] and [isLocal], a record that is not installed has none. *)
Theorem X2_record_shape d ps r :
  loadAllPlugins d = Ok ps → r ∈ ps →
  id r = pluginId_of (name r) (marketplace r)
  ∧ if isInstalled r
    then is_Some (installedAt r) ∧ is_Some (lastUpdated r)
         ∧ is_Some (gitCommitSha r) ∧ is_Some (isLocal r)
    else installedAt r = None ∧ lastUpdated r = None
         ∧ gitCommitSha r = None ∧ isLocal r = None.
Proof.
  intros Hload Hr.
  destruct (loadAllPlugins_elem _ _ _ Hload Hr) as (s & m & mf & es & e & _ & _ & _ & _ & _ & ->).
  split; [done|]. simpl.
  destruct (installedMap_of d !! pluginId_of (mpe_name e) m) as [entry|]; simpl.
  - eauto 10.
  - done.
Qed.

Lemma X2_record_shape_witness :
  id record_alpha_314 = pluginId_of (name record_alpha_314) (marketplace record_alpha_314)
  ∧ if isInstalled record_alpha_314
    then is_Some (installedAt record_alpha_314) ∧ is_Some (lastUpdated record_alpha_314)
         ∧ is_Some (gitCommitSha record_alpha_314) ∧ is_Some (isLocal record_alpha_314)
    else installedAt record_alpha_314 = None ∧ lastUpdated record_alpha_314 = None
         ∧ gitCommitSha record_alpha_314 = None ∧ isLocal record_alpha_314 = None.
Proof.
  apply (X2_record_shape disk_empty_entries [record_alpha_314]).
  - vm_compute. reflexivity.
  - apply list_elem_of_singleton. reflexivity.
Defined.

(** X3: when the registry lists installation entries for a plugin id, the record is installed
    and takes its installation fields from the first entry; its version is the first entry's
    unless that is empty, and then the catalog's, or "unknown". *)
Theorem X3_first_entry_wins d ps r e rest :
  loadAllPlugins d = Ok ps → r ∈ ps → registry_entries d (id r) = Some (e :: rest) →
  isInstalled r = true
  ∧ installedAt r = Some (ipe_installedAt e)
  ∧ lastUpdated r = Some (ipe_lastUpdated e)
  ∧ gitCommitSha r = Some (ipe_gitCommitSha e)
  ∧ isLocal r = Some (ipe_isLocal e)
  ∧ ∃ mf es c,
      catalog_file d (marketplace r) = Document mf ∧ mf_plugins mf = Some es ∧ c ∈ es
      ∧ mpe_name c = name r
      ∧ version r = if truthy (ipe_version e) then ipe_version e
                    else catalog_version_or_unknown c.
Proof.
  intros Hload Hr Hreg.
  destruct (loadAllPlugins_elem _ _ _ Hload Hr)
    as (s & m & mf & es & c & _ & _ & Hmf & Hes & Hc & ->).
  simpl in *.
  assert (Hsome : installedMap_of d !! pluginId_of (mpe_name c) m = Some e)
    by (by rewrite installedMap_of_lookup, Hreg).
  rewrite Hsome. simpl. split_and!; try done.
  exists mf, es, c. split_and!; try done.
    unfold catalog_version_or_unknown, or_string.
    destruct (truthy (ipe_version e)); [done|].
    destruct (mpe_version c) as [v|]; [|done]. by destruct (truthy v).
Qed.

Lemma X3_first_entry_wins_witness :
  ∃ r, isInstalled r = true
       ∧ installedAt r = Some (ipe_installedAt (installation "1.0.0"))
       ∧ lastUpdated r = Some (ipe_lastUpdated (installation "1.0.0"))
       ∧ gitCommitSha r = Some (ipe_gitCommitSha (installation "1.0.0"))
       ∧ isLocal r = Some (ipe_isLocal (installation "1.0.0"))
       ∧ ∃ mf es c,
           catalog_file disk_two_installed (marketplace r) = Document mf
           ∧ mf_plugins mf = Some es ∧ c ∈ es
           ∧ mpe_name c = name r
           ∧ version r = if truthy (ipe_version (installation "1.0.0"))
                         then ipe_version (installation "1.0.0")
                         else catalog_version_or_unknown c.
Proof.
  destruct (loadAllPlugins disk_two_installed) as [[|r ps]|] eqn:Hload;
    try (vm_compute in Hload; discriminate Hload).
  exists r.
  apply (X3_first_entry_wins disk_two_installed (r :: ps) r (installation "1.0.0") []).
  - exact Hload.
  - apply elem_of_cons. left. reflexivity.
  - vm_compute in Hload. injection Hload as <- _. vm_compute. reflexivity.
Defined.

Lemma countsMap_fold_lookup (cs : list InstallCount) (m : gmap string Z) (pluginId : string) :
  foldl (fun acc entry => <[ic_plugin entry := Number_of_count (ic_unique_installs entry)]> acc)
    m cs !! pluginId
  = match last (List.filter (fun e => String.eqb (ic_plugin e) pluginId) cs) with
    | Some e => Some (Number_of_count (ic_unique_installs e))
    | None => m !! pluginId
    end.
Proof.
  induction cs as [|e cs IH] using rev_ind; [done|].
  rewrite foldl_app, List.filter_app. simpl.
  destruct (String.eqb (ic_plugin e) pluginId) eqn:He.
  - apply String.eqb_eq in He as <-. by rewrite last_snoc, lookup_insert_eq.
  - apply String.eqb_neq in He. rewrite app_nil_r, lookup_insert_ne by done. apply IH.
Qed.

Lemma countsMap_of_lookup d pluginId :
  countsMap_of d !! pluginId = Number_of_count <$> cached_count d pluginId.
Proof.
  unfold countsMap_of, cached_count, build_countsMap.
  destruct (install_counts_cache_json d) as [| |f]; simpl; try apply lookup_empty.
  destruct (icf_counts f) as [cs|]; simpl; [|apply lookup_empty].
  rewrite countsMap_fold_lookup, lookup_empty. by destruct (last _).
Qed.

Lemma cached_count_exact d pluginId :
  exact_counts d → Number_of_count <$> cached_count d pluginId = cached_count d pluginId.
Proof.
  unfold exact_counts, cached_count.
  destruct (install_counts_cache_json d) as [| |f]; simpl; [done|done|].
  intros Hexact.
  destruct (last _) as [e|] eqn:Hlast; simpl; [|done].
  apply last_Some_elem_of, list_elem_of_In, filter_In in Hlast as [Hin _].
  rewrite Forall_forall in Hexact. unfold Number_of_count.
  by rewrite (Hexact e (proj2 (list_elem_of_In _ _) Hin)).
Qed.

(** X4: when the counts of the install-count cache are integers a double holds, the
    [installCount] of a record is the count of the last entry of the cache that names its id,
    and 0 when the cache has no such entry (or does not exist). *)
Theorem X4_install_count_last_entry d ps r :
  exact_counts d →
  loadAllPlugins d = Ok ps → r ∈ ps → installCount r = default 0 (cached_count d (id r)).
Proof.
  intros Hexact Hload Hr.
  destruct (loadAllPlugins_elem _ _ _ Hload Hr) as (s & m & mf & es & e & _ & _ & _ & _ & _ & ->).
  simpl. by rewrite countsMap_of_lookup, cached_count_exact.
Qed.

Lemma X4_install_count_last_entry_witness :
  cached_count disk_counted "alpha@m" = Some 7
  ∧ ∃ ps r, loadAllPlugins disk_counted = Ok ps ∧ r ∈ ps ∧ id r = "alpha@m"
            ∧ installCount r = default 0 (cached_count disk_counted (id r)).
Proof.
  split; [reflexivity|].
  destruct (loadAllPlugins disk_counted) as [ps|] eqn:Hload;
    [|vm_compute in Hload; discriminate Hload].
  assert (Hlast : ps !! 1%nat ≫= (fun r => Some (id r)) = Some "alpha@m").
  { vm_compute in Hload. injection Hload as <-. reflexivity. }
  destruct (ps !! 1%nat) as [r|] eqn:Hr; [|discriminate Hlast].
  injection Hlast as Hid.
  exists ps, r. split; [reflexivity|].
  assert (Hin : r ∈ ps) by (by eapply list_elem_of_lookup_2).
  split; [exact Hin|]. split; [exact Hid|].
  apply (X4_install_count_last_entry disk_counted ps r); [|exact Hload|exact Hin].
  repeat constructor.
Defined.

Lemma loadAllPlugins_ids d ps :
  loadAllPlugins d = Ok ps →
  map id ps ≡ₚ flat_map (fun m => map (fun n => pluginId_of n m) (catalog_names d m))
                 (listDirectories_marketplaces d).
Proof.
  intros Hload. apply loadAllPlugins_Ok in Hload as (s & _ & Hperm).
  rewrite Hperm, map_flat_map.
  erewrite flat_map_ext; [done|]. intros m. apply manifestRecords_ids.
Qed.

(** X5: the ids of the records of a pass are, with multiplicity, the ids of the entries of the
    catalogs of the listed marketplaces: one record per catalog entry, and no record for an id
    that only the registry, the settings or the count cache mention. *)
Theorem X5_records_from_catalogs d ps :
  loadAllPlugins d = Ok ps →
  map id ps ≡ₚ flat_map (fun m => map (fun n => pluginId_of n m) (catalog_names d m))
                 (listDirectories_marketplaces d).
Proof. apply loadAllPlugins_ids. Qed.

Lemma X5_records_from_catalogs_witness :
  ∃ ps, loadAllPlugins disk_two_installed = Ok ps
        ∧ map id ps ≡ₚ flat_map (fun m => map (fun n => pluginId_of n m)
                                            (catalog_names disk_two_installed m))
                         (listDirectories_marketplaces disk_two_installed).
Proof.
  eexists. split; [vm_compute; reflexivity|].
  apply (X5_records_from_catalogs disk_two_installed). vm_compute. reflexivity.
Defined.

Lemma find_id_Some (pluginId : string) (ps : list Plugin) (p : Plugin) :
  List.find (fun p => String.eqb (id p) pluginId) ps = Some p →
  ∃ i : nat, ps !! i = Some p ∧ id p = pluginId
             ∧ ∀ (j : nat) q, (j < i)%nat → ps !! j = Some q → id q ≠ pluginId.
Proof.
  induction ps as [|q ps IH]; simpl; [done|].
  destruct (String.eqb (id q) pluginId) eqn:Hq.
  - intros [= ->]. apply String.eqb_eq in Hq. exists 0%nat. split_and!; [done|done|]. lia.
  - intros Hfind. destruct (IH Hfind) as (i & Hi & Hid & Hfirst).
    exists (S i). split_and!; [done|done|].
    intros [|j] q' Hj Hq'; simpl in Hq'.
    + injection Hq' as <-. by apply String.eqb_neq.
    + eapply Hfirst; [|done]. lia.
Qed.

Lemma find_id_None (pluginId : string) (ps : list Plugin) :
  List.find (fun p => String.eqb (id p) pluginId) ps = None ↔ pluginId ∉ map id ps.
Proof.
  induction ps as [|q ps IH]; simpl.
  - split; [intros _; apply not_elem_of_nil | done].
  - destruct (String.eqb (id q) pluginId) eqn:Hq.
    + apply String.eqb_eq in Hq. split; [done|]. intros Hnot. exfalso. apply Hnot.
      apply elem_of_cons. by left.
    + apply String.eqb_neq in Hq. rewrite IH, not_elem_of_cons.
      split; [intros Hn; split; [congruence|done] | by intros [_ Hn]].
Qed.

(** X6: [getPluginById] fails exactly when [loadAllPlugins] does; otherwise it returns the
    first record of the pass with the id asked for, and nothing exactly when no catalog of a
    listed marketplace has an entry whose name and marketplace make up that id. *)
Theorem X6_getPluginById d ps pluginId :
  loadAllPlugins d = Ok ps →
  (∀ p, getPluginById pluginId d = Ok (Some p) →
        ∃ i : nat, ps !! i = Some p ∧ id p = pluginId
                   ∧ ∀ (j : nat) q, (j < i)%nat → ps !! j = Some q → id q ≠ pluginId)
  ∧ (getPluginById pluginId d = Ok None ↔
     ∀ m n, m ∈ listDirectories_marketplaces d → n ∈ catalog_names d m →
            pluginId_of n m ≠ pluginId).
Proof.
  intros Hload. unfold getPluginById. rewrite Hload. simpl. split.
  - intros p [= Hfind]. by apply find_id_Some.
  - pose proof (loadAllPlugins_ids _ _ Hload) as Hids.
    split.
    + intros [= Hfind] m n Hm Hn Heq. apply find_id_None in Hfind. apply Hfind.
      rewrite Hids. apply list_elem_of_In, in_flat_map. exists m.
      split; [by apply list_elem_of_In|]. apply in_map_iff. exists n.
      split; [done|]. by apply list_elem_of_In.
    + intros Hnone. f_equal. apply find_id_None. rewrite Hids.
      intros Hin. apply list_elem_of_In, in_flat_map in Hin as (m & Hm & Hin).
      apply in_map_iff in Hin as (n & Heq & Hn).
      apply list_elem_of_In in Hm, Hn. by eapply Hnone.
Qed.

Lemma X6_getPluginById_witness :
  ∃ ps p,
    loadAllPlugins disk_duplicate_name = Ok ps
    ∧ map version ps = ["unknown"; "2.0.0"]
    ∧ getPluginById "alpha@m" disk_duplicate_name = Ok (Some p)
    ∧ version p = "unknown"
    ∧ (∃ i : nat, ps !! i = Some p ∧ id p = "alpha@m"
                  ∧ ∀ (j : nat) q, (j < i)%nat → ps !! j = Some q → id q ≠ "alpha@m")
    ∧ getPluginById "ghost@m" disk_duplicate_name = Ok None.
Proof.
  destruct (loadAllPlugins disk_duplicate_name) as [ps|] eqn:Hload;
    [|vm_compute in Hload; discriminate Hload].
  destruct (getPluginById "alpha@m" disk_duplicate_name) as [[p|]|] eqn:Hget;
    [|vm_compute in Hget; discriminate Hget ..].
  exists ps, p. split; [reflexivity|]. split.
  { vm_compute in Hload. injection Hload as <-. reflexivity. }
  split; [reflexivity|]. split.
  { vm_compute in Hget. injection Hget as <-. reflexivity. }
  split.
  - exact (proj1 (X6_getPluginById disk_duplicate_name ps "alpha@m" Hload) p Hget).
  - apply (proj2 (X6_getPluginById disk_duplicate_name ps "ghost@m" Hload)).
    intros m n Hm Hn.
    apply list_elem_of_singleton in Hm as ->.
    change (catalog_names disk_duplicate_name "m") with ["alpha"; "alpha"] in Hn.
    apply elem_of_cons in Hn as [->|Hn]; [discriminate|].
    apply elem_of_cons in Hn as [->|Hn]; [discriminate|]. by apply elem_of_nil in Hn.
Defined.

Lemma List_filter_sublist {A} (f : A → bool) (l : list A) : List.filter f l `sublist_of` l.
Proof.
  induction l as [|x l IH]; simpl; [constructor|].
  destruct (f x); [by apply sublist_skip | by apply sublist_cons].
Qed.

(** X7: [loadInstalledPlugins] returns, in the order of the pass, exactly the records whose id
    the registry maps to a non-empty sequence of installation entries. *)
Theorem X7_loadInstalledPlugins d ps :
  loadAllPlugins d = Ok ps →
  ∃ l, loadInstalledPlugins d = Ok l
       ∧ l `sublist_of` ps
       ∧ ∀ r, r ∈ l ↔ r ∈ ps ∧ ∃ e rest, registry_entries d (id r) = Some (e :: rest).
Proof.
  intros Hload. unfold loadInstalledPlugins. rewrite Hload. simpl.
  eexists. split; [done|]. split.
  - apply List_filter_sublist.
  - intros r. rewrite (list_elem_of_In (List.filter _ _) r), filter_In, <- list_elem_of_In.
    split.
    + intros [Hr Hinst]. split; [done|].
      destruct (loadAllPlugins_elem _ _ _ Hload Hr)
        as (s & m & mf & es & e & _ & _ & _ & _ & _ & ->).
      simpl in *. apply bool_decide_eq_true in Hinst as [entry Hentry].
      rewrite installedMap_of_lookup in Hentry.
      destruct (registry_entries d _) as [[|e0 rest]|]; simpl in Hentry; try done. eauto.
    + intros [Hr (e & rest & Hreg)]. split; [done|].
      destruct (loadAllPlugins_elem _ _ _ Hload Hr)
        as (s & m & mf & es & c & _ & _ & _ & _ & _ & ->).
      simpl in *. apply bool_decide_eq_true. rewrite installedMap_of_lookup, Hreg. simpl. eauto.
Qed.

Lemma X7_loadInstalledPlugins_witness :
  ∃ ps l, loadAllPlugins disk_one_installed = Ok ps
       ∧ loadInstalledPlugins disk_one_installed = Ok l
       ∧ l `sublist_of` ps
       ∧ ∀ r, r ∈ l ↔ r ∈ ps ∧ ∃ e rest, registry_entries disk_one_installed (id r) = Some (e :: rest).
Proof.
  eexists.
  assert (Hload : loadAllPlugins disk_one_installed = Ok _) by (vm_compute; reflexivity).
  destruct (X7_loadInstalledPlugins disk_one_installed _ Hload) as (l & Hl).
  exists l. split; [exact Hload | exact Hl].
Defined.

(* ===================================================================== *)
(** * Aggregation: loadMarketplaces *)
(* ===================================================================== *)

Lemma scanKnownMarketplaces_Ok d known acc r :
  scanKnownMarketplaces d known acc = Ok r →
  ∃ ms, r = acc ++ ms ∧ Forall2 (describes d) known ms.
Proof.
  revert acc. induction known as [|[marketplaceId data] known IH]; intros acc; simpl.
  - intros [= <-]. exists []. split; [by rewrite app_nil_r | constructor].
  - destruct (readJsonFile _ _) as [manifest|] eqn:Hread; simpl; [|done].
    apply readJsonFile_Ok in Hread as [-> _].
    intros Hr. destruct (IH _ Hr) as (ms & -> & Hms).
    eexists (_ :: ms). split; [by rewrite <- app_assoc|].
    constructor; [|done].
    unfold describes, marketplace_title, catalog_names. simpl.
    destruct (catalog_file d marketplaceId) as [| |mf]; simpl; try done.
    split_and!; try done.
    + unfold or_string. destruct (mf_name mf) as [n|]; simpl; [|done]. by destruct (truthy n).
    + destruct (mf_plugins mf) as [ps|]; simpl; [|done]. by rewrite length_map.
Qed.

Lemma scanKnownMarketplaces_corrupt d known acc marketplaceId data :
  (marketplaceId, data) ∈ known → catalog_file d marketplaceId = Corrupt →
  ∃ m', m' ∈ known.*1 ∧ catalog_file d m' = Corrupt
        ∧ scanKnownMarketplaces d known acc = Err (InvalidJson (getMarketplaceJsonPath m')).
Proof.
  intros Hin Hm. revert acc.
  induction known as [|[m0 data0] known IH]; intros acc; [by apply elem_of_nil in Hin|].
  simpl. destruct (catalog_file d m0) eqn:Hm0; simpl.
  - apply elem_of_cons in Hin as [[= -> ->]|Hin]; [congruence|].
    edestruct (IH Hin) as (m' & ? & ? & ->).
    exists m'. split_and!; [by apply elem_of_cons; right | done | done].
  - exists m0. split_and!; [by apply elem_of_cons; left | done | done].
  - apply elem_of_cons in Hin as [[= -> ->]|Hin]; [congruence|].
    edestruct (IH Hin) as (m' & ? & ? & ->).
    exists m'. split_and!; [by apply elem_of_cons; right | done | done].
Qed.

(** X8: when [loadMarketplaces] returns, it returns nothing if known_marketplaces.json does
    not exist, and otherwise one record per entry of that document, carrying the entry's
    source, location and date, the catalog's name (the id when the catalog is missing or
    states none) and the number of plugins of the catalog (0 when it is missing); the records
    come in non-increasing order of plugin count. *)
Theorem X8_loadMarketplaces_records d ms :
  loadMarketplaces d = Ok ms →
  match known_marketplaces_json d with
  | Absent => ms = []
  | Corrupt => False
  | Document known => ∃ ms0, ms ≡ₚ ms0 ∧ Forall2 (describes d) known ms0
  end
  ∧ descending (fun m => default 0 (mk_pluginCount m)) ms.
Proof.
  unfold loadMarketplaces.
  destruct (known_marketplaces_json d) as [| |known]; simpl; [|done|].
  - intros [= <-]. split; [done|]. by intros i j a b Hi.
  - destruct (scanKnownMarketplaces d known []) as [r|] eqn:Hscan; simpl; [|done].
    intros [= <-]. split.
    + apply scanKnownMarketplaces_Ok in Hscan as (ms0 & -> & Hms0).
      exists ms0. split; [apply array_sort_Permutation | done].
    + apply (array_sort_descending (fun m => default 0 (mk_pluginCount m))).
Qed.

Lemma X8_loadMarketplaces_records_witness :
  ∃ ms, loadMarketplaces disk_known = Ok ms
    ∧ match known_marketplaces_json disk_known with
      | Absent => ms = []
      | Corrupt => False
      | Document known => ∃ ms0, ms ≡ₚ ms0 ∧ Forall2 (describes disk_known) known ms0
      end
    ∧ descending (fun m => default 0 (mk_pluginCount m)) ms.
Proof.
  eexists. split; [vm_compute; reflexivity|].
  apply (X8_loadMarketplaces_records disk_known). vm_compute. reflexivity.
Defined.

(** X9: [loadMarketplaces] throws a malformed-document error when known_marketplaces.json is
    malformed, and also when the catalog of one of the marketplaces it lists is malformed: the
    plugin count is not defaulted to 0 then. *)
Theorem X9_loadMarketplaces_errors (d : Disk) :
  (known_marketplaces_json d = Corrupt →
   loadMarketplaces d = Err (InvalidJson PATHS_knownMarketplaces))
  ∧ (∀ known marketplaceId data,
       known_marketplaces_json d = Document known →
       (marketplaceId, data) ∈ known → catalog_file d marketplaceId = Corrupt →
       ∃ m', m' ∈ known.*1 ∧ catalog_file d m' = Corrupt
             ∧ loadMarketplaces d = Err (InvalidJson (getMarketplaceJsonPath m'))).
Proof.
  unfold loadMarketplaces. split.
  - by intros ->.
  - intros known marketplaceId data -> Hin Hm. simpl.
    destruct (scanKnownMarketplaces_corrupt d known [] marketplaceId data Hin Hm)
      as (m' & ? & ? & ->).
    by exists m'.
Qed.

Lemma X9_loadMarketplaces_errors_witness :
  ∃ m', m' ∈ sampleKnown.*1 ∧ catalog_file disk_known_corrupt m' = Corrupt
        ∧ loadMarketplaces disk_known_corrupt = Err (InvalidJson (getMarketplaceJsonPath m')).
Proof.
  eapply (proj2 (X9_loadMarketplaces_errors disk_known_corrupt) sampleKnown "bare").
  - reflexivity.
  - apply elem_of_cons. left. reflexivity.
  - vm_compute. reflexivity.
Defined.

(* ===================================================================== *)
(** * Settings: writes *)
(* ===================================================================== *)

Lemma setPluginEnabled_Ok pluginId v d d' :
  setPluginEnabled pluginId v d = Ok d' →
  ∃ s, settings_json d = Document s ∧ readOnly d = false
       ∧ d' = with_settings
                {| enabledPlugins := Some (<[pluginId := v]> (default ∅ (enabledPlugins s)));
                   otherKeys := rewritten (otherKeys s) |} d.
Proof.
  intros Hset.
  destruct (settings_json d) as [| |s] eqn:Hs;
    [by unfold setPluginEnabled, readSettings in Hset; rewrite Hs in Hset ..|].
  destruct (readOnly d) eqn:Hw.
  { unfold setPluginEnabled, readSettings, writeSettings, writeJsonFile_settings in Hset.
    by rewrite Hs, Hw in Hset. }
  rewrite (setPluginEnabled_Document _ _ _ _ Hs Hw) in Hset. injection Hset as <-.
  by exists s.
Qed.



(** X11: of two successive [setPluginEnabled] on one plugin id the second one decides: the disk
    is the one the second write alone would have left; so enabling (or disabling) twice is
    enabling (disabling) once. *)
Theorem X11_setPluginEnabled_last_wins pluginId v w d d1 d2 :
  setPluginEnabled pluginId v d = Ok d1 → setPluginEnabled pluginId w d1 = Ok d2 →
  setPluginEnabled pluginId w d = Ok d2 ∧ (v = w → d2 = d1).
Proof.
  intros H1 H2.
  apply setPluginEnabled_Ok in H1 as (s & Hs & Hw & ->).
  apply setPluginEnabled_Ok in H2 as (s1 & [= <-] & _ & ->).
  simpl. rewrite insert_insert_eq, rewritten_idemp. split.
  - by rewrite (setPluginEnabled_Document _ _ _ _ Hs Hw).
  - by intros ->.
Qed.

Lemma X11_setPluginEnabled_last_wins_witness :
  ∃ d1 d2, setPluginEnabled "beta@m" true disk_two_installed = Ok d1
    ∧ setPluginEnabled "beta@m" true d1 = Ok d2
    ∧ setPluginEnabled "beta@m" true disk_two_installed = Ok d2 ∧ (true = true → d2 = d1).
Proof.
  destruct (setPluginEnabled "beta@m" true disk_two_installed) as [d1|] eqn:H1;
    [|vm_compute in H1; discriminate H1].
  destruct (setPluginEnabled "beta@m" true d1) as [d2|] eqn:H2.
  - exists d1, d2. split; [reflexivity|]. split; [exact H2|].
    destruct (X11_setPluginEnabled_last_wins "beta@m" true true _ _ _ H1 H2) as [H3 H4].
    split; [|exact H4]. rewrite <- H1. exact H3.
  - vm_compute in H1. injection H1 as <-. vm_compute in H2. discriminate H2.
Defined.

Lemma togglePlugin_Ok pluginId d newState d' :
  togglePlugin pluginId d = Ok (newState, d') →
  ∃ s, settings_json d = Document s ∧ readOnly d = false.
Proof.
  unfold togglePlugin, isPluginEnabled, getEnabledPlugins, setPluginEnabled, readSettings,
    writeSettings, writeJsonFile_settings.
  destruct (settings_json d) as [| |s]; simpl; [done|done|].
  destruct (readOnly d); [done|]. eauto.
Qed.

(** X12: [togglePlugin] throws "not found" when settings.json does not exist, a
    malformed-document error when it is not valid JSON and a write error when the disk refuses
    the write; otherwise it returns the negation of what [isPluginEnabled] reported, which is
    what [isPluginEnabled] reports afterwards. *)
Theorem X12_togglePlugin_outcomes (pluginId : string) (d : Disk) :
  match settings_json d with
  | Absent => togglePlugin pluginId d = Err SettingsNotFound
  | Corrupt => togglePlugin pluginId d = Err (InvalidJson PATHS_settings)
  | Document s =>
      if readOnly d then togglePlugin pluginId d = Err (WriteFailed PATHS_settings)
      else ∃ was d', isPluginEnabled pluginId d = Ok was
                     ∧ togglePlugin pluginId d = Ok (negb was, d')
                     ∧ isPluginEnabled pluginId d' = Ok (negb was)
  end.
Proof.
  destruct (settings_json d) as [| |s] eqn:Hs.
  - unfold togglePlugin, isPluginEnabled, getEnabledPlugins, readSettings. by rewrite Hs.
  - unfold togglePlugin, isPluginEnabled, getEnabledPlugins, readSettings. by rewrite Hs.
  - destruct (readOnly d) eqn:Hw.
    + unfold togglePlugin. rewrite (isPluginEnabled_Document _ _ _ Hs). simpl.
      unfold setPluginEnabled, readSettings, writeSettings, writeJsonFile_settings.
      by rewrite Hs, Hw.
    + pose proof (togglePlugin_Document pluginId d s Hs Hw) as Htoggle. simpl in Htoggle.
      eexists _, _. split_and!; [by apply isPluginEnabled_Document | exact Htoggle |].
      erewrite isPluginEnabled_Document; [|reflexivity]. simpl. by rewrite lookup_insert_eq.
Qed.

Lemma array_sort_ext {A} (cmp cmp' : A → A → Z) (l : list A) :
  (∀ a b, cmp a b = cmp' a b) → array_sort cmp l = array_sort cmp' l.
Proof.
  intros Hext. induction l as [|x l IH]; simpl; [done|]. rewrite IH.
  generalize (array_sort cmp' l). intros k.
  induction k as [|y k IHk]; simpl; [done|]. by rewrite Hext, IHk.
Qed.

Lemma pluginRecord_patched im cm (en : gmap string bool) pluginId m e :
  pluginRecord im cm (<[pluginId := negb (default false (en !! pluginId))]> en) m e
  = patchEnabled pluginId (pluginRecord im cm en m e).
Proof.
  unfold patchEnabled. simpl.
  destruct (String.eqb (pluginId_of (mpe_name e) m) pluginId) eqn:Heq.
  - apply String.eqb_eq in Heq. unfold pluginRecord, set_isEnabled. simpl.
    by rewrite Heq, lookup_insert_eq.
  - apply String.eqb_neq in Heq. unfold pluginRecord.
    by rewrite lookup_insert_ne.
Qed.

Lemma scanMarketplaces_patched d im cm (en : gmap string bool) pluginId ms acc :
  scanMarketplaces d im cm (<[pluginId := negb (default false (en !! pluginId))]> en) ms
    (map (patchEnabled pluginId) acc)
  = match scanMarketplaces d im cm en ms acc with
    | Ok ps => Ok (map (patchEnabled pluginId) ps)
    | Err e => Err e
    end.
Proof.
  revert acc. induction ms as [|m ms IH]; intros acc; simpl; [done|].
  destruct (readJsonFile _ (catalog_file d m)) as [manifest|]; simpl; [|done].
  rewrite <- IH. f_equal. rewrite map_app. f_equal.
  unfold manifestRecords. destruct manifest as [mf|]; [|done].
  destruct (mf_plugins mf) as [es|]; [|done].
  rewrite map_map. apply map_ext. intros e. apply pluginRecord_patched.
Qed.

Lemma scanMarketplaces_with_settings s d im cm en ms acc :
  scanMarketplaces (with_settings s d) im cm en ms acc = scanMarketplaces d im cm en ms acc.
Proof.
  revert acc. induction ms as [|m ms IH]; intros acc; simpl; [done|].
  change (catalog_file (with_settings s d) m) with (catalog_file d m).
  destruct (readJsonFile _ (catalog_file d m)); simpl; [apply IH | done].
Qed.

Lemma togglePlugin_reload pluginId d newState d' ps :
  togglePlugin pluginId d = Ok (newState, d') → loadAllPlugins d = Ok ps →
  loadAllPlugins d' = Ok (map (patchEnabled pluginId) ps).
Proof.
  intros Htoggle Hload.
  destruct (togglePlugin_Ok _ _ _ _ Htoggle) as (s & Hs & Hw).
  rewrite (togglePlugin_Document _ _ _ Hs Hw) in Htoggle. simpl in Htoggle.
  injection Htoggle as _ <-.
  revert Hload. unfold loadAllPlugins, getEnabledPlugins, readSettings. simpl. rewrite Hs. simpl.
  destruct (readJsonFile _ (installed_plugins_json d)) as [i|]; simpl; [|done].
  destruct (readJsonFile _ (install_counts_cache_json d)) as [c|]; simpl; [|done].
  unfold directoryExists_marketplaces, listDirectories_marketplaces. simpl.
  destruct (marketplaces_dir d) as [l|]; simpl.
  - pose proof (scanMarketplaces_patched d (build_installedMap i) (build_countsMap c)
                  (default ∅ (enabledPlugins s)) pluginId l []) as Hscan.
    simpl in Hscan.
    rewrite scanMarketplaces_with_settings, Hscan. clear Hscan.
    destruct (scanMarketplaces d (build_installedMap i) (build_countsMap c)
                (default ∅ (enabledPlugins s)) l []) as [raw|]; simpl; [|done].
    intros [= <-]. f_equal.
    change (map (patchEnabled pluginId) raw) with (patchEnabled pluginId <$> raw).
    rewrite <- (array_sort_map (patchEnabled pluginId)
                  (fun a b => installCount b - installCount a)).
    change (map (patchEnabled pluginId) ?x) with (patchEnabled pluginId <$> x).
    f_equal. apply array_sort_ext. intros a b. unfold patchEnabled.
    by destruct (String.eqb (id a) pluginId), (String.eqb (id b) pluginId).
  - by intros [= <-].
Qed.

(** X13: the optimistic patch agrees with the disk: after a [togglePlugin] that returns, a new
    aggregation pass gives the records of the pass before it with [isEnabled] negated in the
    records of that plugin id, which is what TOGGLE_PLUGIN_ENABLED does to the list in memory. *)
Theorem X13_toggle_patch_is_reload pluginId d newState d' ps :
  togglePlugin pluginId d = Ok (newState, d') → loadAllPlugins d = Ok ps →
  loadAllPlugins d' = Ok (map (patchEnabled pluginId) ps).
Proof. apply togglePlugin_reload. Qed.

Lemma X13_toggle_patch_is_reload_witness :
  ∃ newState d' ps,
    togglePlugin "alpha@m" disk_two_installed = Ok (newState, d')
    ∧ loadAllPlugins disk_two_installed = Ok ps
    ∧ loadAllPlugins d' = Ok (map (patchEnabled "alpha@m") ps).
Proof.
  eexists _, _, _.
  assert (H1 : togglePlugin "alpha@m" disk_two_installed = Ok (_, _))
    by (vm_compute; reflexivity).
  assert (H2 : loadAllPlugins disk_two_installed = Ok _) by (vm_compute; reflexivity).
  split; [exact H1|]. split; [exact H2|].
  exact (X13_toggle_patch_is_reload _ _ _ _ _ H1 H2).
Defined.

(* ===================================================================== *)
(** * Query layer: searching and ordering *)
(* ===================================================================== *)

Lemma includes_empty (s : string) : includes s "" = true.
Proof. by destruct s. Qed.

Lemma prefix_spec (sub s : string) :
  String.prefix sub s = true ↔ ∃ after, s = String.append sub after.
Proof.
  revert s. induction sub as [|c sub IH]; intros s.
  - split; [intros _; exists s; reflexivity | intros _; by destruct s].
  - destruct s as [|c' s].
    { split; [intros Hp; discriminate Hp|].
      intros [after Heq]. rewrite append_String in Heq. discriminate Heq. }
    cbn [String.prefix].
    destruct (Ascii.ascii_dec c c') as [->|Hne].
    + rewrite IH. split; intros [after Heq]; exists after.
      * by rewrite append_String, Heq.
      * rewrite append_String in Heq. by injection Heq.
    + split; [done|]. intros [after Heq]. rewrite append_String in Heq. by injection Heq.
Qed.

(** [String.prototype.includes] finds the occurrences. *)
Lemma includes_spec (s sub : string) : includes s sub = true ↔ occurs_in sub s.
Proof.
  unfold occurs_in. induction s as [|c s IH]; cbn [includes].
  - destruct (String.prefix sub "") eqn:Hp.
    + split; [intros _|done]. apply prefix_spec in Hp as [after Heq]. by exists "", after.
    + split; [done|]. intros ([|c before] & after & Heq).
      * rewrite append_empty in Heq.
        assert (String.prefix sub "" = true) by (apply prefix_spec; by exists after).
        congruence.
      * rewrite append_String in Heq. discriminate Heq.
  - destruct (String.prefix sub (String c s)) eqn:Hp.
    + split; [intros _|done]. apply prefix_spec in Hp as [after Heq]. by exists "", after.
    + rewrite IH. split.
      * intros (before & after & ->). exists (String c before), after.
        by rewrite append_String.
      * intros ([|c' before] & after & Heq).
        -- rewrite append_empty in Heq. exfalso.
           assert (String.prefix sub (String c s) = true); [|congruence].
           apply prefix_spec. by exists after.
        -- rewrite append_String in Heq. injection Heq as -> ->. by exists before, after.
Qed.

Lemma matchesQuery_spec `{JsRuntime} (lowerQuery : string) (p : Plugin) :
  matchesQuery lowerQuery p = true
  ↔ ∃ text, text ∈ searchable p ∧ occurs_in lowerQuery (toLowerCase text).
Proof.
  unfold matchesQuery, searchable. rewrite !orb_true_iff, !includes_spec. split.
  - intros [[[[Hn|Hd]|Hm]|Hc]|Ht].
    + exists (name p). split; [apply list_elem_of_here|done].
    + exists (description p). split; [|done]. apply list_elem_of_further, list_elem_of_here.
    + exists (marketplace p). split; [|done].
      do 2 apply list_elem_of_further. apply list_elem_of_here.
    + destruct (category p) as [c|]; [|done]. apply includes_spec in Hc.
      exists c. split; [|done]. do 3 apply list_elem_of_further. apply list_elem_of_here.
    + destruct (tags p) as [ts|]; [|done].
      apply existsb_exists in Ht as (t & Hin & Ht). apply includes_spec in Ht.
      exists t. split; [|done]. do 3 apply list_elem_of_further.
      apply elem_of_app. right. by apply list_elem_of_In.
  - intros (text & Hin & Hocc).
    apply elem_of_cons in Hin as [->|Hin]; [by repeat left|].
    apply elem_of_cons in Hin as [->|Hin]; [by left; left; left; right|].
    apply elem_of_cons in Hin as [->|Hin]; [by left; left; right|].
    apply elem_of_app in Hin as [Hin|Hin].
    + left. right. destruct (category p) as [c|]; simpl in Hin; [|by apply elem_of_nil in Hin].
      apply list_elem_of_singleton in Hin as ->. by apply includes_spec.
    + right. destruct (tags p) as [ts|]; simpl in Hin; [|by apply elem_of_nil in Hin].
      apply existsb_exists. exists text. split; [by apply list_elem_of_In|].
      by apply includes_spec.
Qed.

(** X14: [searchPlugins] returns its argument whole and in order when the query is empty (on an
    engine whose [toLowerCase] maps the empty string to itself), and for every query the
    plugins of its argument, in the argument's order, in which the query occurs: those with a
    name, a description, a marketplace, a category or a tag whose lower-case form has the
    lower-case form of the query somewhere in it. *)
Theorem X14_searchPlugins `{JsRuntime} (query : string) (plugins : list Plugin) :
  toLowerCase "" = "" →
  searchPlugins "" plugins = plugins
  ∧ searchPlugins query plugins `sublist_of` plugins
  ∧ ∀ p, p ∈ searchPlugins query plugins
         ↔ p ∈ plugins
           ∧ ∃ text, text ∈ searchable p
                     ∧ occurs_in (toLowerCase query) (toLowerCase text).
Proof.
  intros Hlower. unfold searchPlugins. split_and!.
  - rewrite Hlower. induction plugins as [|p ps IH]; simpl; [done|].
    unfold matchesQuery at 1. rewrite includes_empty. simpl. by rewrite IH.
  - apply List_filter_sublist.
  - intros p. rewrite <- matchesQuery_spec.
    by rewrite (list_elem_of_In (List.filter _ _) p), filter_In, <- list_elem_of_In.
Qed.

Lemma X14_searchPlugins_witness :
  searchPlugins "FORMAT" [record_alpha_314; record_linter; record_context7] = [record_linter]
  ∧ searchPlugins "" [record_alpha_314; record_linter; record_context7]
    = [record_alpha_314; record_linter; record_context7]
  ∧ searchPlugins "FORMAT" [record_alpha_314; record_linter; record_context7]
      `sublist_of` [record_alpha_314; record_linter; record_context7]
  ∧ ∀ p, p ∈ searchPlugins "FORMAT" [record_alpha_314; record_linter; record_context7]
         ↔ p ∈ [record_alpha_314; record_linter; record_context7]
           ∧ ∃ text, text ∈ searchable p
                     ∧ occurs_in (toLowerCase "FORMAT") (toLowerCase text).
Proof.
  split; [vm_compute; reflexivity|].
  apply (X14_searchPlugins "FORMAT" [record_alpha_314; record_linter; record_context7]).
  reflexivity.
Defined.

Lemma sort_insert_ext_in {A} (cmp cmp' : A → A → Z) (x : A) (k : list A) :
  (∀ y, y ∈ k → cmp x y = cmp' x y) → sort_insert cmp x k = sort_insert cmp' x k.
Proof.
  induction k as [|y k IH]; intros Hext; simpl; [done|].
  rewrite (Hext y) by apply list_elem_of_here.
  rewrite IH; [done|]. intros z Hz. apply Hext. by apply list_elem_of_further.
Qed.

Lemma array_sort_ext_in {A} (cmp cmp' : A → A → Z) (l : list A) :
  (∀ a b, a ∈ l → b ∈ l → cmp a b = cmp' a b) → array_sort cmp l = array_sort cmp' l.
Proof.
  induction l as [|x l IH]; intros Hext; simpl; [done|].
  rewrite IH by (intros a b Ha Hb; apply Hext; by apply list_elem_of_further).
  apply sort_insert_ext_in. intros y Hy. rewrite array_sort_Permutation in Hy.
  apply Hext; [apply list_elem_of_here | by apply list_elem_of_further].
Qed.

(** X15: for the sort fields installs and date, [sortPlugins] returns a rearrangement of its
    argument; by installs, and by date when every installation date of the records is a date,
    the records come in non-decreasing order of the field when the order is ascending, and in
    non-increasing order when it is descending (no installation date counting as 0). *)
Theorem X15_sortPlugins_ordered `{JsRuntime}
  (plugins : list Plugin) (by_ : SortBy) (order : SortOrder) :
  by_ ≠ sort_name → sortable by_ plugins →
  sortPlugins plugins by_ order ≡ₚ plugins
  ∧ match order with
    | asc => ascending (numericKey by_) (sortPlugins plugins by_ order)
    | desc => descending (numericKey by_) (sortPlugins plugins by_ order)
    end.
Proof.
  intros Hby Hsortable. unfold sortPlugins. split; [apply Array_sort_Permutation|].
  rewrite Array_sort_consistent by (by apply comparePlugins_consistent).
  assert (Hkey : ∀ a b, a ∈ plugins → b ∈ plugins →
            comparePlugins by_ asc a b = Some (numericKey by_ a - numericKey by_ b)).
  { intros a b Ha Hb. destruct by_; [done|done|].
    simpl in Hsortable. rewrite Forall_forall in Hsortable. unfold comparePlugins, numericKey.
    by destruct (Hsortable a Ha) as [ta ->], (Hsortable b Hb) as [tb ->]. }
  destruct order.
  - rewrite (array_sort_ext_in _ (fun a b => numericKey by_ a - numericKey by_ b)).
    + apply array_sort_ascending.
    + intros a b Ha Hb. unfold SortCompare. by rewrite (Hkey a b Ha Hb).
  - rewrite (array_sort_ext_in _ (fun a b => numericKey by_ b - numericKey by_ a)).
    + apply array_sort_descending.
    + intros a b Ha Hb. unfold SortCompare.
      change (comparePlugins by_ desc a b) with (Z.opp <$> comparePlugins by_ asc a b).
      rewrite (Hkey a b Ha Hb). simpl. lia.
Qed.

Lemma X15_sortPlugins_ordered_witness :
  sortPlugins
    [installedRecord "d" "2025-04-10"; installedRecord "f" "2025-01-05";
     installedRecord "h" "2025-01-05"; installedRecord "a" "2025-01-01"] sort_date asc
  = [installedRecord "a" "2025-01-01"; installedRecord "f" "2025-01-05";
     installedRecord "h" "2025-01-05"; installedRecord "d" "2025-04-10"]
  ∧ ascending (numericKey sort_date)
      (sortPlugins
         [installedRecord "d" "2025-04-10"; installedRecord "f" "2025-01-05";
          installedRecord "h" "2025-01-05"; installedRecord "a" "2025-01-01"] sort_date asc).
Proof.
  split; [vm_compute; reflexivity|].
  apply (X15_sortPlugins_ordered
           [installedRecord "d" "2025-04-10"; installedRecord "f" "2025-01-05";
            installedRecord "h" "2025-01-05"; installedRecord "a" "2025-01-01"]
           sort_date asc).
  - discriminate.
  - repeat constructor; vm_compute; eauto.
Defined.

(* ===================================================================== *)
(** * Components: tab and sort cycles, the list window, truncation *)
(* ===================================================================== *)

(** X16: [getNextTab] walks the four tabs in a cycle: "prev" undoes "next" and "next" undoes
    "prev" on every tab, the first and the last included, and four steps in one direction
    come back to the tab they started from. *)
Theorem X16_getNextTab_cycle (t : Tab) :
  getNextTab (getNextTab t dir_next) dir_prev = t
  ∧ getNextTab (getNextTab t dir_prev) dir_next = t
  ∧ getNextTab (getNextTab (getNextTab (getNextTab t dir_next) dir_next) dir_next) dir_next = t
  ∧ getNextTab t dir_next ≠ t.
Proof. destruct t; split_and!; done. Qed.

(** X17: [getNextSort] of SortDropdown is the cycle the key handler of app.tsx writes out as a
    table (installs, name, date, installs), and three steps come back to the start. *)
Theorem X17_getNextSort_cycle (by_ : SortBy) :
  getNextSort by_ = nextSort by_
  ∧ getNextSort (getNextSort (getNextSort by_)) = by_
  ∧ getNextSort by_ ≠ by_.
Proof. destruct by_; split_and!; done. Qed.

Lemma array_slice_inside {A} (l : list A) (start end_ : Z) :
  0 ≤ start ≤ end_ → end_ ≤ Z.of_nat (length l) →
  array_slice l start end_ = take (Z.to_nat (end_ - start)) (drop (Z.to_nat start) l).
Proof.
  intros Hs He. unfold array_slice, slice_bound.
  destruct (start <? 0) eqn:H1; [apply Z.ltb_lt in H1; lia|].
  destruct (end_ <? 0) eqn:H2; [apply Z.ltb_lt in H2; lia|].
  by rewrite !Z.min_l by lia.
Qed.

(** X18: for a non-empty list and a window size of at least 0, PluginList draws the rows
    [startIndex, endIndex) of the list: as many rows as the window has, or all of them when
    the list is shorter; what it announces above and below is what it leaves out; and when
    the window has at least one row and the selection is an index of the list, the selected
    plugin is in the window, on the row drawn selected. *)
Theorem X18_pluginListWindow (plugins : list Plugin) (selectedIndex visibleCount : Z) w :
  0 ≤ visibleCount →
  pluginListWindow plugins selectedIndex visibleCount = Some w →
  let len := Z.of_nat (length plugins) in
  0 ≤ lw_startIndex w ∧ lw_endIndex w ≤ len
  ∧ lw_endIndex w - lw_startIndex w = Z.min visibleCount len
  ∧ plugins = take (Z.to_nat (lw_startIndex w)) plugins
              ++ lw_visiblePlugins w
              ++ drop (Z.to_nat (lw_endIndex w)) plugins
  ∧ (lw_hasPrevious w = true ↔ 0 < lw_startIndex w)
  ∧ (lw_hasMore w = true ↔ lw_endIndex w < len)
  ∧ (1 ≤ visibleCount → 0 ≤ selectedIndex < len →
     lw_startIndex w ≤ selectedIndex < lw_endIndex w
     ∧ lw_visiblePlugins w !! Z.to_nat (selectedIndex - lw_startIndex w)
       = plugins !! Z.to_nat selectedIndex
     ∧ ∀ index, rowSelected w selectedIndex index = true
                ↔ index = Z.to_nat (selectedIndex - lw_startIndex w)).
Proof.
  intros Hvc. unfold pluginListWindow.
  destruct (Z.of_nat (length plugins) =? 0) eqn:Hlen; [done|].
  apply Z.eqb_neq in Hlen. intros [= <-]. simpl.
  set (len := Z.of_nat (length plugins)) in *.
  set (half := visibleCount / 2).
  assert (Hhalf : 0 ≤ half ∧ (1 ≤ visibleCount → half < visibleCount)).
  { unfold half. split; [apply Z.div_pos; lia|]. intros. apply Z.div_lt; lia. }
  set (start0 := Z.max 0 (selectedIndex - half)) in *.
  set (end_ := Z.min len (start0 + visibleCount)) in *.
  set (start := if end_ - start0 <? visibleCount then Z.max 0 (end_ - visibleCount) else start0).
  assert (Hlen0 : 0 < len) by lia.
  assert (Hstart : 0 ≤ start ∧ end_ ≤ len ∧ end_ - start = Z.min visibleCount len
                   ∧ start ≤ start0).
  { unfold start. destruct (end_ - start0 <? visibleCount) eqn:Hadj.
    - apply Z.ltb_lt in Hadj. unfold end_, start0 in *. lia.
    - apply Z.ltb_ge in Hadj. unfold end_, start0 in *. lia. }
  destruct Hstart as (Hs0 & Hel & Hsize & Hss0).
  assert (Hslice : array_slice plugins start end_
                   = take (Z.to_nat (end_ - start)) (drop (Z.to_nat start) plugins)).
  { apply array_slice_inside; fold len; lia. }
  rewrite Hslice. split_and!; try done.
  - rewrite <- (take_drop (Z.to_nat start) plugins) at 1. f_equal.
    rewrite <- (take_drop (Z.to_nat (end_ - start)) (drop (Z.to_nat start) plugins)) at 1.
    f_equal. rewrite drop_drop. f_equal. lia.
  - apply Z.ltb_lt.
  - apply Z.ltb_lt.
  - intros Hvc1 Hsel.
    assert (Hin : start ≤ selectedIndex < end_) by (unfold end_, start0 in *; lia).
    split_and!; [lia|lia| |].
    + rewrite lookup_take_lt by lia. rewrite lookup_drop. f_equal. lia.
    + intros index. unfold rowSelected. simpl. rewrite Z.eqb_eq. lia.
Qed.

Lemma X18_pluginListWindow_witness :
  ∃ w, pluginListWindow [record_alpha_314; record_context7] 1 1 = Some w
    ∧ let len := Z.of_nat (length [record_alpha_314; record_context7]) in
      0 ≤ lw_startIndex w ∧ lw_endIndex w ≤ len
      ∧ lw_endIndex w - lw_startIndex w = Z.min 1 len
      ∧ [record_alpha_314; record_context7]
        = take (Z.to_nat (lw_startIndex w)) [record_alpha_314; record_context7]
          ++ lw_visiblePlugins w
          ++ drop (Z.to_nat (lw_endIndex w)) [record_alpha_314; record_context7]
      ∧ (lw_hasPrevious w = true ↔ 0 < lw_startIndex w)
      ∧ (lw_hasMore w = true ↔ lw_endIndex w < len)
      ∧ (1 ≤ 1 → 0 ≤ 1 < len →
         lw_startIndex w ≤ 1 < lw_endIndex w
         ∧ lw_visiblePlugins w !! Z.to_nat (1 - lw_startIndex w)
           = [record_alpha_314; record_context7] !! Z.to_nat 1
         ∧ ∀ index, rowSelected w 1 index = true ↔ index = Z.to_nat (1 - lw_startIndex w)).
Proof.
  eexists. split; [reflexivity|].
  apply (X18_pluginListWindow [record_alpha_314; record_context7] 1 1); [lia | reflexivity].
Defined.

Lemma length_append (a b : string) :
  String.length (String.append a b) = (String.length a + String.length b)%nat.
Proof. induction a as [|c a IH]; [done|]. rewrite append_String. simpl. by rewrite IH. Qed.

Lemma length_substring_0 (n : nat) (s : string) :
  String.length (String.substring 0 n s) = Nat.min n (String.length s).
Proof.
  revert n. induction s as [|c s IH]; intros [|n]; simpl; try done. by rewrite IH.
Qed.

Lemma substring_0_prefix (n : nat) (s : string) :
  ∃ rest, s = String.append (String.substring 0 n s) rest.
Proof.
  revert n. induction s as [|c s IH]; intros [|n]; simpl.
  - by exists "".
  - by exists "".
  - by exists (String c s).
  - destruct (IH n) as [rest Hrest]. exists rest. rewrite append_String. by f_equal.
Qed.

(** X19: [truncate] returns a text of at most [maxLength] characters when [maxLength] is at
    least 3: the text itself when it is short enough, and otherwise its first
    [maxLength - 3] characters followed by three dots, [maxLength] characters in all. *)
Theorem X19_truncate (text : string) (maxLength : Z) :
  3 ≤ maxLength →
  Z.of_nat (String.length (truncate text maxLength)) ≤ maxLength
  ∧ (Z.of_nat (String.length text) ≤ maxLength → truncate text maxLength = text)
  ∧ (maxLength < Z.of_nat (String.length text) →
     Z.of_nat (String.length (truncate text maxLength)) = maxLength
     ∧ ∃ kept rest, text = String.append kept rest
                    ∧ Z.of_nat (String.length kept) = maxLength - 3
                    ∧ truncate text maxLength = String.append kept "...").
Proof.
  intros Hmax. unfold truncate.
  destruct (Z.of_nat (String.length text) <=? maxLength) eqn:Hshort.
  - apply Z.leb_le in Hshort. split_and!; [done|done|lia].
  - apply Z.leb_gt in Hshort.
    assert (Hslice : string_slice text 0 (maxLength - 3)
                     = String.substring 0 (Z.to_nat (maxLength - 3)) text).
    { unfold string_slice, slice_bound. simpl.
      destruct (maxLength - 3 <? 0) eqn:Hneg; [apply Z.ltb_lt in Hneg; lia|].
      rewrite Z.min_l by lia. rewrite Z.min_l by lia. f_equal. lia. }
    rewrite Hslice.
    assert (Hkept : String.length (String.substring 0 (Z.to_nat (maxLength - 3)) text)
                    = Z.to_nat (maxLength - 3)).
    { rewrite length_substring_0. lia. }
    assert (Hlen : Z.of_nat (String.length
                     (String.append (String.substring 0 (Z.to_nat (maxLength - 3)) text) "..."))
                   = maxLength).
    { rewrite length_append, Hkept. simpl. lia. }
    split_and!; [lia|lia|].
    intros _. split; [done|].
    destruct (substring_0_prefix (Z.to_nat (maxLength - 3)) text) as [rest Hrest].
    eexists _, rest. split_and!; [exact Hrest | rewrite Hkept; lia | done].
Qed.

Lemma X19_truncate_witness :
  Z.of_nat (String.length (truncate "claude-plugins-official" 20)) ≤ 20
  ∧ (Z.of_nat (String.length "claude-plugins-official") ≤ 20 →
     truncate "claude-plugins-official" 20 = "claude-plugins-official")
  ∧ (20 < Z.of_nat (String.length "claude-plugins-official") →
     Z.of_nat (String.length (truncate "claude-plugins-official" 20)) = 20
     ∧ ∃ kept rest, "claude-plugins-official" = String.append kept rest
                    ∧ Z.of_nat (String.length kept) = 20 - 3
                    ∧ truncate "claude-plugins-official" 20 = String.append kept "...").
Proof. apply (X19_truncate "claude-plugins-official" 20). lia. Defined.

(* ===================================================================== *)
(** * Actions: the result of a finished child *)
(* ===================================================================== *)

(** X20: the result of an install or uninstall is a success exactly when the child closed with
    exit code 0, and then it carries no error text; every other result carries one: the
    message of the error when the child could not be started, and for a child that closed a
    text that is not empty: what the child wrote to its error stream, else what it wrote to
    its output stream, else "Exit code: " and the exit code. *)
Theorem X20_executePluginAction (action : Verb) (pluginId : string) (o : ChildOutcome) :
  let r := executePluginAction action pluginId o in
  (par_success r = true ↔ ∃ stdout stderr, o = ChildClosed (Some 0) stdout stderr)
  ∧ (par_success r = true → par_error r = None)
  ∧ (par_success r = false →
     ∃ e, par_error r = Some e
          ∧ (∀ message, o = ChildError message → e = message)
          ∧ ∀ code stdout stderr, o = ChildClosed code stdout stderr →
              truthy e = true
              ∧ (truthy stderr = true → e = stderr)
              ∧ (truthy stderr = false → truthy stdout = true → e = stdout)
              ∧ (truthy stderr = false → truthy stdout = false →
                 e = String.append "Exit code: " (code_string code))).
Proof.
  destruct o as [code stdout stderr|message]; simpl.
  - destruct (bool_decide (code = Some 0)) eqn:Hcode; simpl.
    + apply bool_decide_eq_true in Hcode as ->. split_and!; [|done|done].
      split; [eauto|done].
    + apply bool_decide_eq_false in Hcode. split_and!; [|done|].
      * split; [done|]. intros (? & ? & [= -> _ _]). done.
      * intros _. eexists. split; [done|]. split; [done|]. intros ? ? ? [= <- <- <-].
        destruct (truthy stderr) eqn:Herr; [by split_and!|].
        destruct (truthy stdout) eqn:Hout; [by split_and!|].
        split_and!; done.
  - split_and!; [|done|].
    + split; [done|]. by intros (? & ? & ?).
    + intros _. eexists. split; [done|]. split; [|done]. by intros ? [= <-].
Qed.

(* ===================================================================== *)
(** * Interaction: what an event can and cannot do *)
(* ===================================================================== *)

Section Events.
Context `{JsRuntime}.

Lemma appReducer_confirmUninstall st a :
  confirmUninstall (appReducer st a)
  = match a with
    | SHOW_CONFIRM_UNINSTALL _ => true
    | HIDE_CONFIRM_UNINSTALL => false
    | _ => confirmUninstall st
    end.
Proof. destruct a; simpl; try done. by destruct (_ =? 0). Qed.

Lemma appReducer_plugins st a :
  plugins (appReducer st a)
  = match a with
    | SET_PLUGINS payload => payload
    | TOGGLE_PLUGIN_ENABLED pluginId => map (patchEnabled pluginId) (plugins st)
    | UPDATE_PLUGIN payload =>
        map (fun p => if String.eqb (id p) (id payload) then payload else p) (plugins st)
    | _ => plugins st
    end.
Proof. destruct a; simpl; try done. by destruct (_ =? 0). Qed.

(** What an event can cause while an operation is in flight: nothing; or ink's exit, on
    Ctrl+C; or the end of the process, when the action has succeeded and the reload throws. *)
Lemma in_flight_effects (s : Session) (ev : Event) :
  operation (state s) ≠ idle →
  emitted s ev = []
  ∨ (∃ input key, ev = Input input key ∧ interrupt input key = true ∧ emitted s ev = [Exit])
  ∨ (∃ result after e,
       ev = Settled result after ∧ par_success result = true
       ∧ loadAllPlugins after = Err e ∧ emitted s ev = [UnhandledRejection e]).
Proof.
  intros Hop. unfold emitted. destruct ev as [|input key|result after]; cbn [step].
  - left. unfold onMount. destruct (loadAllPlugins (disk s)); simpl;
      [destruct (loadMarketplaces (disk s)); simpl|]; apply drop_all.
  - destruct (interrupt input key) eqn:Hint.
    + right. left. exists input, key. simpl. by rewrite drop_app_length.
    + left. unfold useInput. rewrite (bool_decide_eq_false_2 _ Hop). apply drop_all.
  - rewrite (bool_decide_eq_false_2 _ Hop). unfold afterAction.
    destruct (par_success result) eqn:Hres; simpl;
      [destruct (loadAllPlugins after) as [ps|e] eqn:Hload; simpl|].
    + left. apply drop_all.
    + right. right. exists result, after, e. by rewrite drop_app_length.
    + left. apply drop_all.
Qed.

(** X21: install and uninstall are single-flight.  While an operation is in flight an event
    causes no effect, but for two: Ctrl+C, on which ink exits, and the settling of an action
    that succeeded when the reload throws, which ends the process; in particular nothing is
    spawned.  An event that spawns the external command finds no operation in flight, spawns
    nothing else, and leaves the matching operation in flight. *)
Theorem X21_single_flight (s : Session) (ev : Event) :
  (operation (state s) ≠ idle →
   emitted s ev = []
   ∨ (∃ input key, ev = Input input key ∧ interrupt input key = true ∧ emitted s ev = [Exit])
   ∨ (∃ result after e,
        ev = Settled result after ∧ par_success result = true
        ∧ loadAllPlugins after = Err e ∧ emitted s ev = [UnhandledRejection e]))
  ∧ ∀ action pluginId,
      Spawn action pluginId ∈ emitted s ev →
      operation (state s) = idle
      ∧ emitted s ev = [Spawn action pluginId]
      ∧ operation (state (step s ev))
        = match action with install => installing | uninstall => uninstalling end.
Proof.
  split; [apply in_flight_effects|].
  intros action pluginId Hin.
  assert (Hidle : operation (state s) = idle).
  { destruct (decide (operation (state s) = idle)) as [|Hop]; [done|].
    destruct (in_flight_effects s ev Hop)
      as [Heff|[(? & ? & _ & _ & Heff)|(? & ? & ? & _ & _ & _ & Heff)]];
      rewrite Heff in Hin;
      [by apply elem_of_nil in Hin | |];
      apply list_elem_of_singleton in Hin; discriminate Hin. }
  split; [done|]. unfold emitted in *.
  destruct (step_cases s ev)
    as [[[Heff Hop]|[[Heff Hop]|[(pid & Heff & Hop)|(e & Heff & Hop)]]]
       |(pid & key & Heff & Hop & _)];
    rewrite Heff in *.
  + rewrite drop_all in Hin. by apply elem_of_nil in Hin.
  + rewrite drop_app_length in Hin. apply list_elem_of_singleton in Hin. discriminate Hin.
  + rewrite drop_app_length in *. apply list_elem_of_singleton in Hin.
    injection Hin as -> ->. done.
  + rewrite drop_app_length in Hin. apply list_elem_of_singleton in Hin. discriminate Hin.
  + rewrite drop_app_length in *. apply list_elem_of_singleton in Hin.
    injection Hin as -> ->. done.
Qed.

(** The conditions of the handler, from the top, one at a time, with their outcome recorded. *)
Ltac split_handler :=
  repeat lazymatch goal with
    | |- _ (if ?c then _ else _) => destruct c eqn:?
    | |- _ (match ?o with Some _ => _ | None => _ end) => destruct o eqn:?
    | |- _ (match ?r with Ok _ => _ | Err _ => _ end) => destruct r as [[? ?]|] eqn:?
    end.




Lemma useInput_only_toggle_writes (s : Session) (input : string) (key : Key) :
  only_toggle_writes s input key (useInput s input key).
Proof.
  unfold useInput. split_handler; try (by left).
  right. simpl.
  match goal with
  | Hsel : selectedPlugin (state s) = Some ?p, Ht : togglePlugin _ _ = Ok (?b, ?d') |- _ =>
      exists p, b; split_and!; try done
  end.
  - match goal with Hk : (_ || key_return key) && _ = true |- _ =>
      apply andb_true_iff in Hk as [Hk _]; apply orb_true_iff in Hk as [Hk|Hk];
        [left; by apply String.eqb_eq | by right]
    end.
  - match goal with Ht : togglePlugin _ _ = Ok _ |- _ =>
      destruct (togglePlugin_Ok _ _ _ _ Ht) as (st & Hst & Hw);
      rewrite (togglePlugin_Document _ _ _ Hst Hw) in Ht; simpl in Ht;
      injection Ht as _ <-
    end.
    done.
Qed.

(** X23: a key event writes nothing but settings.json, and writes it only as the toggle of
    the installed plugin under the cursor (Space or Enter): after any other key, and after a
    toggle that fails, the disk is the one before; the mount effect never writes. *)
Theorem X23_keys_write_only_by_toggle (s : Session) (input : string) (key : Key) :
  disk (step s Mount) = disk s
  ∧ other_documents (disk (step s (Input input key))) = other_documents (disk s)
  ∧ (disk (step s (Input input key)) ≠ disk s →
     ∃ p newState,
       (input = " " ∨ key_return key = true)
       ∧ selectedPlugin (state s) = Some p ∧ isInstalled p = true
       ∧ togglePlugin (id p) (disk s) = Ok (newState, disk (step s (Input input key)))).
Proof.
  split_and!.
  - simpl. unfold onMount. destruct (loadAllPlugins (disk s)); simpl;
      [destruct (loadMarketplaces (disk s)); simpl|]; done.
  - cbn [step]. destruct (interrupt input key); [done|].
    destruct (useInput_only_toggle_writes s input key)
      as [->|(p & b & _ & _ & _ & _ & Hother)]; done.
  - cbn [step]. destruct (interrupt input key); [done|].
    intros Hne. destruct (useInput_only_toggle_writes s input key)
      as [Heq|(p & b & Hk & Hsel & Hinst & Ht & _)]; [done|]. by exists p, b.
Qed.

Lemma in_sync_dispatch a s :
  match a with
  | SET_PLUGINS _ | TOGGLE_PLUGIN_ENABLED _ | UPDATE_PLUGIN _ => False
  | _ => True
  end →
  in_sync s → in_sync (dispatch a s).
Proof.
  unfold in_sync, dispatch. simpl. rewrite appReducer_plugins. by destruct a.
Qed.

Lemma in_sync_toggle pluginId newState d' s :
  togglePlugin pluginId (disk s) = Ok (newState, d') →
  in_sync s → in_sync (dispatch (TOGGLE_PLUGIN_ENABLED pluginId) (with_disk d' s)).
Proof.
  unfold in_sync, dispatch. simpl. intros Ht Hs. by eapply togglePlugin_reload.
Qed.

Lemma useInput_keeps_sync (s : Session) (input : string) (key : Key) :
  keeps_sync s (useInput s input key).
Proof.
  unfold useInput. split_handler; intros Hsync; try done;
    unfold handleInstall, handleUninstall;
    repeat first
      [ assumption
      | apply in_sync_dispatch; [exact I|]
      | eapply in_sync_toggle; [eassumption|]
      | progress change (in_sync (perform ?e ?x)) with (in_sync x)
      | progress change (in_sync (setIsSearchMode ?b ?x)) with (in_sync x) ].
Qed.

(** X24: key events keep the list in memory in step with the disk: if the plugin list of the
    state is what an aggregation pass over the disk returns, it still is after any key,
    a successful toggle (which writes the disk and patches the list) included; and the list is
    put in step by a mount that loads and by an action that settles successfully and reloads. *)
Theorem X24_keys_keep_in_sync (s : Session) :
  (∀ input key, in_sync s → in_sync (step s (Input input key)))
  ∧ (is_Some (error (state (step s Mount))) ∨ in_sync (step s Mount))
  ∧ (∀ result after ps,
       operation (state s) ≠ idle → par_success result = true →
       loadAllPlugins after = Ok ps → in_sync (step s (Settled result after))).
Proof.
  split_and!.
  - intros input key. cbn [step]. destruct (interrupt input key); [done|].
    apply useInput_keeps_sync.
  - simpl. unfold onMount, in_sync.
    destruct (loadAllPlugins (disk s)) as [ps|] eqn:Hload; simpl; [|left; eauto].
    destruct (loadMarketplaces (disk s)); simpl; [by right | left; eauto].
  - intros result after ps Hop Hok Hload. simpl.
    rewrite (bool_decide_eq_false_2 _ Hop). unfold afterAction, in_sync.
    rewrite Hok. simpl. by rewrite Hload.
Qed.

Lemma filter_map_length {A} (g : A → bool) (f : A → A) (l : list A) :
  (∀ x, g (f x) = g x) → length (List.filter g (map f l)) = length (List.filter g l).
Proof.
  intros Hg. induction l as [|x l IH]; simpl; [done|].
  rewrite Hg. destruct (g x); simpl; by rewrite IH.
Qed.

Lemma patchEnabled_id pluginId p : id (patchEnabled pluginId p) = id p.
Proof. unfold patchEnabled. by destruct (String.eqb _ _). Qed.

Lemma toggle_items_length st pluginId :
  length (getItemsForTab (appReducer st (TOGGLE_PLUGIN_ENABLED pluginId)))
  = length (getItemsForTab st).
Proof.
  unfold getItemsForTab, getFilteredPlugins, sortPlugins, searchPlugins. simpl.
  destruct (activeTab st); rewrite ?length_map; try done.
  - rewrite !Array_sort_length. destruct (truthy (searchQuery st)).
    + apply (filter_map_length _ (patchEnabled pluginId)). intros p.
      unfold patchEnabled. by destruct (String.eqb _ _).
    + by rewrite length_map.
  - apply (filter_map_length _ (patchEnabled pluginId)). intros p.
    unfold patchEnabled. by destruct (String.eqb _ _).
Qed.

Lemma selection_dispatch a s :
  match a with
  | SET_PLUGINS _ | SET_MARKETPLACES _ | SET_ERRORS _ | SET_SELECTED_INDEX _
  | UPDATE_PLUGIN _ => False
  | _ => True
  end →
  selection_in_range (state s) → selection_in_range (state (dispatch a s)).
Proof.
  intros Ha Hin. change (state (dispatch a s)) with (appReducer (state s) a).
  destruct a; try done;
    try (by apply navigation_keeps_selection_in_range);
    try (unfold selection_in_range in *; simpl;
         match goal with
         | |- context [getItemsForTab ?st'] =>
             rewrite (getItemsForTab_ext (state s) st') by done
         end; exact Hin).
  unfold selection_in_range in *. by rewrite toggle_items_length.
Qed.

Lemma useInput_keeps_selection (s : Session) (input : string) (key : Key) :
  keeps_selection s (useInput s input key).
Proof.
  unfold useInput. split_handler; intros Hsel; try done;
    unfold handleInstall, handleUninstall;
    repeat first
      [ assumption
      | apply selection_dispatch; [exact I|]
      | progress change (state (perform ?e ?x)) with (state x)
      | progress change (state (setIsSearchMode ?b ?x)) with (state x)
      | progress change (state (with_disk ?d ?x)) with (state x) ].
Qed.

(** X25: no key event takes the selection out of range: if [selectedIndex] is an index of the
    list of the active tab (or 0 on an empty list) before a key, it is after it, whatever the
    key and the mode the session is in. *)
Theorem X25_keys_keep_selection_in_range (s : Session) (input : string) (key : Key) :
  selection_in_range (state s) → selection_in_range (state (step s (Input input key))).
Proof.
  cbn [step]. destruct (interrupt input key); [done|]. apply useInput_keeps_selection.
Qed.

Lemma truthy_pluginId_of n m : truthy (pluginId_of n m) = true.
Proof. unfold pluginId_of. destruct n; reflexivity. Qed.

Lemma loadAllPlugins_ids_truthy d ps :
  loadAllPlugins d = Ok ps → Forall (fun p => truthy (id p) = true) ps.
Proof.
  intros Hload. apply Forall_forall. intros r Hr.
  destruct (loadAllPlugins_elem _ _ _ Hload Hr) as (? & m & ? & ? & e & _ & _ & _ & _ & _ & ->).
  apply truthy_pluginId_of.
Qed.

Lemma at_index_elem {A} (l : list A) (i : Z) (x : A) : at_index l i = Some x → x ∈ l.
Proof.
  unfold at_index. destruct (i <? 0); [done|]. apply list_elem_of_lookup_2.
Qed.

Lemma selectedPlugin_elem st p : selectedPlugin st = Some p → p ∈ plugins st.
Proof.
  unfold selectedPlugin. intros Hsel%at_index_elem.
  assert (Hfilter : ∀ f (l : list Plugin), p ∈ List.filter f l → p ∈ l).
  { intros f l Hp. apply list_elem_of_In, filter_In in Hp as [Hp _]. by apply list_elem_of_In. }
  assert (Hfiltered : p ∈ getFilteredPlugins st → p ∈ plugins st).
  { unfold getFilteredPlugins, sortPlugins, searchPlugins.
    rewrite Array_sort_Permutation. destruct (truthy _); [apply Hfilter | done]. }
  destruct (activeTab st); auto. by eapply Hfilter.
Qed.

Lemma ok_unconfirmed (s' : Session) :
  confirmUninstall (state s') = false →
  Forall (fun p => truthy (id p) = true) (plugins (state s')) → session_ok s'.
Proof. intros Hc Hids. split; [by rewrite Hc | done]. Qed.

Lemma Forall_patched pluginId (l : list Plugin) :
  Forall (fun p => truthy (id p) = true) l →
  Forall (fun p => truthy (id p) = true) (map (patchEnabled pluginId) l).
Proof.
  intros Hl. apply Forall_forall. intros p Hp.
  apply list_elem_of_In, in_map_iff in Hp as (q & <- & Hq). rewrite patchEnabled_id.
  eapply Forall_forall in Hl; [done|]. by apply list_elem_of_In.
Qed.

Lemma useInput_keeps_ok (s : Session) (input : string) (key : Key) :
  keeps_ok s (useInput s input key).
Proof.
  intros [Hconf Hids]. unfold useInput.
  destruct (negb (bool_decide (operation (state s) = idle))) eqn:Hop; [by split|].
  apply negb_false_iff, bool_decide_eq_true in Hop.
  destruct (confirmUninstall (state s) && truthy_opt (operationPluginId (state s))) eqn:Hc.
  { split_handler; try (by split); by apply ok_unconfirmed. }
  assert (Hcf : confirmUninstall (state s) = false).
  { destruct (confirmUninstall (state s)); [|done].
    destruct (Hconf eq_refl) as (_ & Ht & _). by rewrite Ht in Hc. }
  destruct (isSearchMode s) eqn:Hsearch.
  { split_handler; try (by split); by apply ok_unconfirmed. }
  split_handler; try (by split);
    try (apply ok_unconfirmed; simpl; repeat case_match; simpl;
         by (done || apply Forall_patched)).
  split; [|done]. intros _. simpl. split_and!; [done| |done].
  match goal with Hsel : selectedPlugin _ = Some ?p |- _ =>
    apply selectedPlugin_elem in Hsel; eapply Forall_forall in Hids; [exact Hids | done] end.
Qed.

Lemma step_keeps_ok (s : Session) (ev : Event) : session_ok s → session_ok (step s ev).
Proof.
  intros Hok. destruct ev as [|input key|result after]; simpl.
  - destruct Hok as [Hconf Hids]. unfold onMount.
    destruct (loadAllPlugins (disk s)) as [ps|] eqn:Hload; simpl;
      [destruct (loadMarketplaces (disk s)); simpl|]; split; try done.
    by eapply loadAllPlugins_ids_truthy.
  - destruct (interrupt input key); [done|]. by apply useInput_keeps_ok.
  - destruct (bool_decide (operation (state s) = idle)) eqn:Hop; [done|].
    apply bool_decide_eq_false in Hop. destruct Hok as [Hconf Hids].
    assert (Hcf : confirmUninstall (state s) = false).
    { destruct (confirmUninstall (state s)); [|done]. by destruct (Hconf eq_refl). }
    unfold afterAction. destruct (par_success result); simpl.
    + destruct (loadAllPlugins after) as [ps|] eqn:Hload; simpl;
        apply ok_unconfirmed; simpl; try done.
      by eapply loadAllPlugins_ids_truthy.
    + by apply ok_unconfirmed.
Qed.

Lemma run_keeps_ok (evs : list Event) (s : Session) : session_ok s → session_ok (run s evs).
Proof.
  unfold run. revert s. induction evs as [|ev evs IH]; intros s Hs; simpl; [done|].
  apply IH. by apply step_keeps_ok.
Qed.

(** X26: in every session reached from a start by mounts, keys and settled actions, the
    uninstall confirmation is never pending while an operation is in flight, nor while the
    search box is being typed into, and it is always pending for a plugin id. *)
Theorem X26_confirmation_excludes_operation (s : Session) :
  reachable s →
  confirmUninstall (state s) = true →
  operation (state s) = idle
  ∧ isSearchMode s = false
  ∧ ∃ pluginId, operationPluginId (state s) = Some pluginId ∧ pluginId ≠ "".
Proof.
  intros (d & evs & ->) Hc.
  assert (Hok : session_ok (run (initialSession d) evs)).
  { apply run_keeps_ok. split; [done|constructor]. }
  destruct Hok as [Hconf _]. destruct (Hconf Hc) as (Hidle & Ht & Hsearch).
  split_and!; [done|done|].
  destruct (operationPluginId _) as [pluginId|]; [|done].
  exists pluginId. split; [done|]. intros ->. done.
Qed.

End Events.

Lemma X21_single_flight_witness :
  (emitted session_uninstalling (Input "c" ctrlKey) = []
   ∨ (∃ input key,
        Input "c" ctrlKey = Input input key ∧ interrupt input key = true
        ∧ emitted session_uninstalling (Input "c" ctrlKey) = [Exit])
   ∨ (∃ result after e,
        Input "c" ctrlKey = Settled result after ∧ par_success result = true
        ∧ loadAllPlugins after = Err e
        ∧ emitted session_uninstalling (Input "c" ctrlKey) = [UnhandledRejection e]))
  ∧ (operation (state session_confirming) = idle
     ∧ emitted session_confirming (Input "y" plainKey) = [Spawn uninstall "alpha@m"]
     ∧ operation (state (step session_confirming (Input "y" plainKey))) = uninstalling).
Proof.
  split.
  - apply (proj1 (X21_single_flight session_uninstalling (Input "c" ctrlKey))).
    vm_compute. discriminate.
  - apply (proj2 (X21_single_flight session_confirming (Input "y" plainKey))
             uninstall "alpha@m").
    vm_compute. apply list_elem_of_singleton. reflexivity.
Defined.


Lemma X23_keys_write_only_by_toggle_witness :
  disk (step session_navigating Mount) = disk session_navigating
  ∧ other_documents (disk (step session_navigating (Input " " plainKey)))
    = other_documents (disk session_navigating)
  ∧ ∃ p newState,
      (" " = " " ∨ key_return plainKey = true)
      ∧ selectedPlugin (state session_navigating) = Some p ∧ isInstalled p = true
      ∧ togglePlugin (id p) (disk session_navigating)
        = Ok (newState, disk (step session_navigating (Input " " plainKey))).
Proof.
  destruct (X23_keys_write_only_by_toggle session_navigating " " plainKey) as (H1 & H2 & H3).
  split; [exact H1|]. split; [exact H2|].
  apply H3. vm_compute. intros Heq. discriminate Heq.
Defined.

Lemma X24_keys_keep_in_sync_witness :
  in_sync (step session_navigating (Input " " plainKey))
  ∧ in_sync (step session_uninstalling (Settled uninstalled_beta disk_one_installed)).
Proof.
  split.
  - apply (proj1 (X24_keys_keep_in_sync session_navigating) " " plainKey).
    vm_compute. reflexivity.
  - eapply (proj2 (proj2 (X24_keys_keep_in_sync session_uninstalling))
              uninstalled_beta disk_one_installed).
    + vm_compute. discriminate.
    + reflexivity.
    + vm_compute. reflexivity.
Defined.

Lemma X25_keys_keep_selection_in_range_witness :
  selection_in_range (state (step session_navigating (Input " " plainKey))).
Proof.
  apply (X25_keys_keep_selection_in_range session_navigating " " plainKey).
  unfold selection_in_range.
  replace (selectedIndex (state session_navigating)) with 0 by (vm_compute; reflexivity).
  replace (length (getItemsForTab (state session_navigating))) with 2%nat
    by (vm_compute; reflexivity).
  simpl. lia.
Defined.

Lemma X26_confirmation_excludes_operation_witness :
  operation (state session_confirming) = idle
  ∧ isSearchMode session_confirming = false
  ∧ ∃ pluginId, operationPluginId (state session_confirming) = Some pluginId ∧ pluginId ≠ "".
Proof.
  apply (X26_confirmation_excludes_operation session_confirming).
  - exists disk_two_installed, [Mount; Input "u" plainKey]. reflexivity.
  - vm_compute. reflexivity.
Defined.

(* ===================================================================== *)
(** * The enable, disable and toggle commands *)
(* ===================================================================== *)

Lemma withEnabled_id pluginId v p : id (withEnabled pluginId v p) = id p.
Proof. unfold withEnabled. by destruct (String.eqb _ _). Qed.

Lemma pluginRecord_withEnabled im cm (en : gmap string bool) pluginId v m e :
  pluginRecord im cm (<[pluginId := v]> en) m e
  = withEnabled pluginId v (pluginRecord im cm en m e).
Proof.
  unfold withEnabled. simpl.
  destruct (String.eqb (pluginId_of (mpe_name e) m) pluginId) eqn:Heq.
  - apply String.eqb_eq in Heq. unfold pluginRecord, set_isEnabled. simpl.
    by rewrite Heq, lookup_insert_eq.
  - apply String.eqb_neq in Heq. unfold pluginRecord. by rewrite lookup_insert_ne.
Qed.

Lemma scanMarketplaces_withEnabled d im cm (en : gmap string bool) pluginId v ms acc :
  scanMarketplaces d im cm (<[pluginId := v]> en) ms (map (withEnabled pluginId v) acc)
  = match scanMarketplaces d im cm en ms acc with
    | Ok ps => Ok (map (withEnabled pluginId v) ps)
    | Err e => Err e
    end.
Proof.
  revert acc. induction ms as [|m ms IH]; intros acc; simpl; [done|].
  destruct (readJsonFile _ (catalog_file d m)) as [manifest|]; simpl; [|done].
  rewrite <- IH. f_equal. rewrite map_app. f_equal.
  unfold manifestRecords. destruct manifest as [mf|]; [|done].
  destruct (mf_plugins mf) as [es|]; [|done].
  rewrite map_map. apply map_ext. intros e. apply pluginRecord_withEnabled.
Qed.

(** A pass after a write of the enabled state is the pass before it with the state written. *)
Lemma setPluginEnabled_reload pluginId v d d' ps :
  setPluginEnabled pluginId v d = Ok d' → loadAllPlugins d = Ok ps →
  loadAllPlugins d' = Ok (map (withEnabled pluginId v) ps).
Proof.
  intros Hset Hload. apply setPluginEnabled_Ok in Hset as (s & Hs & Hw & ->).
  revert Hload. unfold loadAllPlugins, getEnabledPlugins, readSettings. simpl. rewrite Hs. simpl.
  destruct (readJsonFile _ (installed_plugins_json d)) as [i|]; simpl; [|done].
  destruct (readJsonFile _ (install_counts_cache_json d)) as [c|]; simpl; [|done].
  unfold directoryExists_marketplaces, listDirectories_marketplaces. simpl.
  destruct (marketplaces_dir d) as [l|]; simpl.
  - pose proof (scanMarketplaces_withEnabled d (build_installedMap i) (build_countsMap c)
                  (default ∅ (enabledPlugins s)) pluginId v l []) as Hscan.
    simpl in Hscan. rewrite scanMarketplaces_with_settings, Hscan. clear Hscan.
    destruct (scanMarketplaces d (build_installedMap i) (build_countsMap c)
                (default ∅ (enabledPlugins s)) l []) as [raw|]; simpl; [|done].
    intros [= <-]. f_equal.
    change (map (withEnabled pluginId v) raw) with (withEnabled pluginId v <$> raw).
    rewrite <- (array_sort_map (withEnabled pluginId v)
                  (fun a b => installCount b - installCount a)).
    change (map (withEnabled pluginId v) ?x) with (withEnabled pluginId v <$> x).
    f_equal. apply array_sort_ext. intros a b. unfold withEnabled.
    by destruct (String.eqb (id a) pluginId), (String.eqb (id b) pluginId).
  - by intros [= <-].
Qed.

Lemma find_withEnabled pluginId v (ps : list Plugin) :
  List.find (fun p => String.eqb (id p) pluginId) (map (withEnabled pluginId v) ps)
  = withEnabled pluginId v <$> List.find (fun p => String.eqb (id p) pluginId) ps.
Proof.
  induction ps as [|p ps IH]; simpl; [done|].
  rewrite withEnabled_id. by destruct (String.eqb (id p) pluginId).
Qed.

Lemma getPluginById_after_write pluginId v d d' p :
  setPluginEnabled pluginId v d = Ok d' → getPluginById pluginId d = Ok (Some p) →
  getPluginById pluginId d' = Ok (Some (set_isEnabled v p)).
Proof.
  unfold getPluginById. intros Hset.
  destruct (loadAllPlugins d) as [ps|] eqn:Hload; simpl; [|done].
  intros [= Hfind]. rewrite (setPluginEnabled_reload _ _ _ _ _ Hset Hload). simpl.
  rewrite find_withEnabled, Hfind. simpl. unfold withEnabled.
  apply find_some in Hfind as [_ ->]. done.
Qed.

(** X27: the enable command ends with status 0 or 1; with 1 it has left the disk as it was;
    it ends with 1 for a plugin that is listed but not installed; and when it ends with 0 the
    plugin was listed and installed, and a new lookup of the plugin reports it enabled. *)
Theorem X27_handleEnable (pluginId : string) (d : Disk) :
  let r := handleEnable pluginId d in
  (run_exit r = 0 ∨ run_exit r = 1)
  ∧ (run_exit r = 1 → run_disk r = d)
  ∧ (∀ p, getPluginById pluginId d = Ok (Some p) → isInstalled p = false → run_exit r = 1)
  ∧ (run_exit r = 0 →
     ∃ p, getPluginById pluginId d = Ok (Some p) ∧ isInstalled p = true
          ∧ getPluginById pluginId (run_disk r) = Ok (Some (set_isEnabled true p))
          ∧ isPluginEnabled pluginId (run_disk r) = Ok true).
Proof.
  unfold handleEnable.
  destruct (getPluginById pluginId d) as [[p|]|] eqn:Hget; simpl;
    try (split_and!; [by right|done|by intros ? [=]|done]).
  destruct (isInstalled p) eqn:Hinst; simpl;
    [|split_and!; [by right|done|done|done]].
  unfold enablePlugin. destruct (setPluginEnabled pluginId true d) as [d'|] eqn:Hset; simpl;
    [|split_and!; [by right|done|by intros ? [= <-]; congruence|done]].
  split_and!; [by left|done|by intros ? [= <-]; congruence|].
  intros _. exists p. split_and!; [done|done| |].
  - by eapply getPluginById_after_write.
  - apply setPluginEnabled_Ok in Hset as (s & Hs & _ & ->).
    erewrite isPluginEnabled_Document; [|reflexivity]. simpl. by rewrite lookup_insert_eq.
Qed.

(** X28: the toggle command refuses a plugin that is listed but not installed (status 1, disk
    as it was); when it ends with status 0 the plugin was listed and installed and a new lookup
    reports the enabled state the settings did not hold before. *)
Theorem X28_handleToggle (pluginId : string) (d : Disk) :
  let r := handleToggle pluginId d in
  (run_exit r = 0 ∨ run_exit r = 1)
  ∧ (run_exit r = 1 → run_disk r = d)
  ∧ (∀ p, getPluginById pluginId d = Ok (Some p) → isInstalled p = false → run_exit r = 1)
  ∧ (run_exit r = 0 →
     ∃ p was, getPluginById pluginId d = Ok (Some p) ∧ isInstalled p = true
          ∧ isPluginEnabled pluginId d = Ok was
          ∧ getPluginById pluginId (run_disk r) = Ok (Some (set_isEnabled (negb was) p))
          ∧ isPluginEnabled pluginId (run_disk r) = Ok (negb was)).
Proof.
  unfold handleToggle.
  destruct (getPluginById pluginId d) as [[p|]|] eqn:Hget; simpl;
    try (split_and!; [by right|done|by intros ? [=]|done]).
  destruct (isInstalled p) eqn:Hinst; simpl;
    [|split_and!; [by right|done|done|done]].
  destruct (togglePlugin pluginId d) as [[newState d']|] eqn:Ht; simpl;
    [|split_and!; [by right|done|by intros ? [= <-]; congruence|done]].
  split_and!; [by left|done|by intros ? [= <-]; congruence|].
  intros _.
  destruct (togglePlugin_Ok _ _ _ _ Ht) as (s & Hs & Hw).
  assert (Hset : setPluginEnabled pluginId
                   (negb (default false (default ∅ (enabledPlugins s) !! pluginId))) d = Ok d').
  { revert Ht. unfold togglePlugin. rewrite (isPluginEnabled_Document _ _ _ Hs). simpl.
    destruct (setPluginEnabled _ _ d); simpl; [by intros [= _ ->] | done]. }
  exists p, (default false (default ∅ (enabledPlugins s) !! pluginId)).
  split_and!; [done|done|by apply isPluginEnabled_Document| |].
  - by eapply getPluginById_after_write.
  - apply setPluginEnabled_Ok in Hset as (s0 & Hs0 & _ & ->).
    erewrite isPluginEnabled_Document; [|reflexivity]. simpl. by rewrite lookup_insert_eq.
Qed.

(** X29: the disable command does not ask whether the plugin is installed: for every plugin a
    catalog lists, installed or not, on a disk that takes the write it ends with status 0,
    and a new lookup reports the plugin disabled; with status 1 the disk is as it was. *)
Theorem X29_handleDisable (pluginId : string) (d : Disk) :
  let r := handleDisable pluginId d in
  (run_exit r = 1 → run_disk r = d)
  ∧ (∀ p, getPluginById pluginId d = Ok (Some p) → readOnly d = false →
          run_exit r = 0
          ∧ getPluginById pluginId (run_disk r) = Ok (Some (set_isEnabled false p))
          ∧ isPluginEnabled pluginId (run_disk r) = Ok false).
Proof.
  unfold handleDisable.
  destruct (getPluginById pluginId d) as [[p|]|] eqn:Hget; simpl;
    try (split; [done | by intros ? [=]]).
  unfold disablePlugin.
  destruct (setPluginEnabled pluginId false d) as [d'|] eqn:Hset; simpl.
  - split; [done|]. intros ? [= <-] _. split_and!; [done| |].
    + by eapply getPluginById_after_write.
    + apply setPluginEnabled_Ok in Hset as (s & Hs & _ & ->).
      erewrite isPluginEnabled_Document; [|reflexivity]. simpl. by rewrite lookup_insert_eq.
  - split; [done|]. intros ? [= <-] Hw. exfalso.
    revert Hset Hget. unfold getPluginById, loadAllPlugins, setPluginEnabled, getEnabledPlugins,
      readSettings, writeSettings, writeJsonFile_settings.
    destruct (readJsonFile _ (installed_plugins_json d)); simpl; [|done].
    destruct (readJsonFile _ (install_counts_cache_json d)); simpl; [|done].
    destruct (settings_json d); simpl; try done. by rewrite Hw.
Qed.

Lemma X27_handleEnable_witness :
  ∃ p, getPluginById "alpha@m" disk_two_installed = Ok (Some p) ∧ isInstalled p = true
       ∧ getPluginById "alpha@m" (run_disk (handleEnable "alpha@m" disk_two_installed))
         = Ok (Some (set_isEnabled true p))
       ∧ isPluginEnabled "alpha@m" (run_disk (handleEnable "alpha@m" disk_two_installed))
         = Ok true.
Proof.
  apply (proj2 (proj2 (proj2 (X27_handleEnable "alpha@m" disk_two_installed)))).
  vm_compute. reflexivity.
Defined.

Lemma X28_handleToggle_witness :
  ∃ p was, getPluginById "alpha@m" disk_two_installed = Ok (Some p) ∧ isInstalled p = true
       ∧ isPluginEnabled "alpha@m" disk_two_installed = Ok was
       ∧ getPluginById "alpha@m" (run_disk (handleToggle "alpha@m" disk_two_installed))
         = Ok (Some (set_isEnabled (negb was) p))
       ∧ isPluginEnabled "alpha@m" (run_disk (handleToggle "alpha@m" disk_two_installed))
         = Ok (negb was).
Proof.
  apply (proj2 (proj2 (proj2 (X28_handleToggle "alpha@m" disk_two_installed)))).
  vm_compute. reflexivity.
Defined.

Lemma X29_handleDisable_witness :
  run_exit (handleDisable "context7@claude-plugins-official" disk_enabled_not_installed) = 0
  ∧ getPluginById "context7@claude-plugins-official"
      (run_disk (handleDisable "context7@claude-plugins-official" disk_enabled_not_installed))
    = Ok (Some (set_isEnabled false record_context7))
  ∧ isPluginEnabled "context7@claude-plugins-official"
      (run_disk (handleDisable "context7@claude-plugins-official" disk_enabled_not_installed))
    = Ok false.
Proof.
  apply (proj2 (X29_handleDisable "context7@claude-plugins-official"
                  disk_enabled_not_installed) record_context7).
  - vm_compute. reflexivity.
  - reflexivity.
Defined.

Lemma X12_togglePlugin_outcomes_witness :
  ∃ was d', isPluginEnabled "alpha@m" disk_two_installed = Ok was
            ∧ togglePlugin "alpha@m" disk_two_installed = Ok (negb was, d')
            ∧ isPluginEnabled "alpha@m" d' = Ok (negb was).
Proof. exact (X12_togglePlugin_outcomes "alpha@m" disk_two_installed). Defined.

Lemma X20_executePluginAction_witness :
  par_error (executePluginAction install "alpha@m" (ChildClosed (Some 2) "" ""))
  = Some "Exit code: 2"
  ∧ ∃ e, par_error (executePluginAction install "alpha@m" (ChildClosed (Some 2) "" "")) = Some e
         ∧ (∀ message, ChildClosed (Some 2) "" "" = ChildError message → e = message)
         ∧ ∀ code stdout stderr, ChildClosed (Some 2) "" "" = ChildClosed code stdout stderr →
             truthy e = true
             ∧ (truthy stderr = true → e = stderr)
             ∧ (truthy stderr = false → truthy stdout = true → e = stdout)
             ∧ (truthy stderr = false → truthy stdout = false →
                e = String.append "Exit code: " (code_string code)).
Proof.
  split; [vm_compute; reflexivity|].
  apply (proj2 (proj2 (X20_executePluginAction install "alpha@m"
                         (ChildClosed (Some 2) "" "")))).
  reflexivity.
Defined.

(** X30: when the selection is not an index of the list (as after the reload that follows an
    uninstall of the last plugin of the list), PluginList draws its window with no row
    selected. *)
Theorem X30_no_row_selected_out_of_range
  (plugins : list Plugin) (selectedIndex visibleCount : Z) w :
  0 ≤ visibleCount →
  pluginListWindow plugins selectedIndex visibleCount = Some w →
  selectedIndex < 0 ∨ Z.of_nat (length plugins) ≤ selectedIndex →
  ∀ index, (index < length (lw_visiblePlugins w))%nat → rowSelected w selectedIndex index = false.
Proof.
  intros Hvc Hw Hsel index Hindex.
  unfold pluginListWindow in Hw.
  destruct (Z.of_nat (length plugins) =? 0) eqn:Hlen; [done|].
  apply Z.eqb_neq in Hlen. injection Hw as <-. simpl in *.
  set (len := Z.of_nat (length plugins)) in *.
  set (start0 := Z.max 0 (selectedIndex - visibleCount / 2)) in *.
  set (end_ := Z.min len (start0 + visibleCount)) in *.
  set (start := if end_ - start0 <? visibleCount then Z.max 0 (end_ - visibleCount) else start0)
    in *.
  assert (Hstart : 0 ≤ start ∧ start ≤ end_ ∧ end_ ≤ len).
  { unfold start. destruct (end_ - start0 <? visibleCount) eqn:Hadj.
    - apply Z.ltb_lt in Hadj. unfold end_, start0 in *. lia.
    - apply Z.ltb_ge in Hadj. unfold end_, start0 in *. lia. }
  rewrite array_slice_inside in Hindex by (fold len; lia).
  rewrite length_take, length_drop in Hindex.
  unfold rowSelected. simpl. fold start. apply Z.eqb_neq. lia.
Qed.

Lemma X30_no_row_selected_out_of_range_witness :
  rowSelected {| lw_startIndex := 0; lw_endIndex := 1; lw_visiblePlugins := [record_alpha_314];
                 lw_hasMore := false; lw_hasPrevious := false |} 1 0 = false.
Proof.
  apply (X30_no_row_selected_out_of_range [record_alpha_314] 1 12
           {| lw_startIndex := 0; lw_endIndex := 1; lw_visiblePlugins := [record_alpha_314];
              lw_hasMore := false; lw_hasPrevious := false |}).
  - lia.
  - vm_compute. reflexivity.
  - right. simpl. lia.
  - simpl. lia.
Defined.
